(** * The component compiler of weex-loader: a shallow embedding

    The development follows the JavaScript sources:
    - [util.js]   (the diagnostics sink [logWarn], [stringifyLoaders],
                   [splitSourceLine], [consumeMap], [loadBabelModule],
                   [jsonLoaders], [parseRequireModule]);
    - [loader.js] (the transform-chain resolver, the component reference
                   graph kept in [elements], the page and application emitters);
    - [json.js]   (the card-literal loader, [parseCard], [replacePropsArray]).

    JavaScript strings are modelled as [string] over ASCII text, objects used
    as dictionaries as [gmap string _], objects whose enumeration order is
    observable as association lists, exceptions as an error monad, and the
    host (file system, [path], webpack's loader context, [eval]) as section
    variables. *)

From Stdlib Require Import String Ascii ZArith List Lia Bool.
From stdpp Require Import base strings gmap list pretty.

Set Warnings "-register-all".
Open Scope string_scope.

(** ** JavaScript strings *)

Module Js.

Definition DQ : string := String "034"%char EmptyString.
Definition SQ : string := String "039"%char EmptyString.
Definition NL : string := String "010"%char EmptyString.

Definition is_lf (c : ascii) : bool := Ascii.eqb c "010"%char.
Definition is_cr (c : ascii) : bool := Ascii.eqb c "013"%char.

(** [.] of a regular expression: every character but a line terminator. *)
Definition is_line_terminator (c : ascii) : bool := is_lf c || is_cr c.

(** [\s] on ASCII text: tab, line feed, vertical tab, form feed, carriage
    return and space. *)
Definition is_space (c : ascii) : bool :=
  let n := nat_of_ascii c in
  ((9 <=? n)%nat && (n <=? 13)%nat) || (n =? 32)%nat.

(** [\w]: letters, digits and the underscore. *)
Definition is_word (c : ascii) : bool :=
  let n := nat_of_ascii c in
  ((48 <=? n)%nat && (n <=? 57)%nat) || ((65 <=? n)%nat && (n <=? 90)%nat)
  || ((97 <=? n)%nat && (n <=? 122)%nat) || (n =? 95)%nat.

Definition lower_char (c : ascii) : ascii :=
  let n := nat_of_ascii c in
  if ((65 <=? n)%nat && (n <=? 90)%nat)%bool then ascii_of_nat (n + 32) else c.

(** [s.toLowerCase()] *)
Fixpoint toLowerCase (s : string) : string :=
  match s with
  | EmptyString => EmptyString
  | String c s' => String (lower_char c) (toLowerCase s')
  end.

(** [s.startsWith(p)] *)
Definition startsWith (s p : string) : bool := String.prefix p s.

Fixpoint drop (n : nat) (s : string) : string :=
  match n, s with
  | O, _ => s
  | S n', EmptyString => EmptyString
  | S n', String _ s' => drop n' s'
  end.

Fixpoint take (n : nat) (s : string) : string :=
  match n, s with
  | O, _ => EmptyString
  | S n', EmptyString => EmptyString
  | S n', String c s' => String c (take n' s')
  end.

(** [s.endsWith(p)] *)
Definition endsWith (s p : string) : bool :=
  (String.length p <=? String.length s)%nat &&
  String.eqb (drop (String.length s - String.length p) s) p.

(** [s.replace(pat, rep)] for a string pattern: the first occurrence only. *)
Fixpoint replace_first (pat rep s : string) : string :=
  if String.prefix pat s then rep +:+ drop (String.length pat) s
  else match s with
       | EmptyString => EmptyString
       | String c s' => String c (replace_first pat rep s')
       end.

(** [s.replace(/pat/g, rep)] for a pattern that is a plain non-empty text:
    every occurrence, left to right, without overlap. [skip] counts the
    characters of a match still to be passed over. *)
Fixpoint replace_all_go (pat rep : string) (skip : nat) (s : string) : string :=
  match s with
  | EmptyString => EmptyString
  | String c s' =>
      match skip with
      | S k => replace_all_go pat rep k s'
      | O =>
          if String.prefix pat s
          then rep +:+ replace_all_go pat rep (String.length pat - 1) s'
          else String c (replace_all_go pat rep O s')
      end
  end.

Definition replace_all (pat rep s : string) : string := replace_all_go pat rep O s.

(** [arr.join(sep)] on an array of strings: the result [R] starts empty, and
    each element is appended to it, after the separator when it is not the
    first. *)
Definition join_step (sep : string) (st : bool * string) (x : string) : bool * string :=
  let '(first, R) := st in
  (false, if first then R +:+ x else R +:+ sep +:+ x).

Definition join (sep : string) (arr : list string) : string :=
  snd (fold_left (join_step sep) arr (true, EmptyString)).

(** [arr.push(x)] *)
Definition push {A} (arr : list A) (x : A) : list A := arr ++ [x].

(** The empty string is the only falsy string. *)
Definition truthy_string (s : string) : bool := negb (String.eqb s "").

Definition truthy_opt_string (o : option string) : bool :=
  match o with Some s => truthy_string s | None => false end.

(** A string that may be [undefined], used as a condition: [Some] when it is
    truthy. *)
Definition truthy (o : option string) : option string :=
  match o with
  | Some s => if truthy_string s then Some s else None
  | None => None
  end.

(** A number that may be absent; [0] and absence are falsy. *)
Definition truthy_opt_nat (o : option nat) : bool :=
  match o with Some n => negb (n =? 0)%nat | None => false end.

End Js.

Import Js.

(** ** The host

    What the sources call and do not define: Node's [path], [fs] and
    [require.resolve], webpack's [loaderUtils.stringifyRequest], the markup
    parser and the reserved-tag table of the templater, the constants of
    [lite-enum], and the language evaluator behind [eval] and [JSON]. *)

Record host := mkHost {
  path_sep : string;
  path_basename : string -> string;
  path_dirname : string -> string;
  path_extname : string -> string;
  (** [path.parse(p).name] *)
  path_parse_name : string -> string;
  path_join : string -> string -> string;
  (** [path.resolve(p)] and [path.resolve(from, to)] *)
  path_resolve1 : string -> string;
  path_resolve : string -> string -> string;
  (** [fs.existsSync(p)] *)
  existsSync : string -> bool;
  (** [require.resolve(m)]; [None] when it throws *)
  require_resolve : string -> option string;
  (** [loaderUtils.stringifyRequest(loaderContext, request)] *)
  stringifyRequest : string -> string;
  (** [isReservedTag] of [templater/component_validator] *)
  isReservedTag : string -> bool;
  (** [__dirname] *)
  dirname__ : string;
  (** [DEVICE_LEVEL.RICH] and [DEVICE_LEVEL.LITE] of [lite/lite-enum] *)
  RICH : string;
  LITE : string
}.

(** [process.env]: a variable that is not set reads [undefined]. *)
Record env := mkEnv {
  logLevel : option Z;
  DEVICE_LEVEL : option string;
  abilityType : option string;
  aceManifestPath : option string;
  projectPath : string
}.

Definition env_is (v : option string) (s : string) : bool :=
  match v with Some x => String.eqb x s | None => false end.

(** ** util.js *)

Module Util.

(** *** The diagnostics sink *)

(** A log entry: [{ reason, line, column }]; [line] and [column] may be absent. *)
Record log := mkLog {
  reason : string;
  line : option nat;
  column : option nat
}.

(** What the sink hands to the host: [loader.emitWarning] or [loader.emitError]. *)
Inductive emission :=
| EmitWarning (msg : string)
| EmitError (msg : string).

(** [process.env.logLevel] by the integer its text denotes, which both
    [logLevel > 0] and [parseInt(logLevel)] read; [None] when the variable is
    unset or is not a number. *)
Definition level_positive (logLevel : option Z) : bool :=
  match logLevel with Some n => (0 <? n)%Z | None => false end.

Definition level_le (logLevel : option Z) (k : Z) : bool :=
  match logLevel with Some n => (n <=? k)%Z | None => false end.

(** [':' + log.line + ':' + log.column], present when both are truthy. *)
Definition position_suffix (l : log) : string :=
  if truthy_opt_nat (line l) && truthy_opt_nat (column l)
  then ":" +:+ pretty (default 0%nat (line l)) +:+ ":" +:+ pretty (default 0%nat (column l))
  else "".

(** The text handed to [emitWarning] or [emitError]: [head] is the opening
    marker, [label] the prefix removed from the reason, [tail] the closing
    marker. *)
Definition message (head resourcePath : string) (l : log) (label tail : string) : string :=
  head +:+ resourcePath +:+ position_suffix l +:+ NL +:+ " "
    +:+ replace_first label "" (reason l) +:+ tail.

(** The body of [logs.forEach(log => ...)]: the state is the emissions so far
    and the flag. *)
Definition logWarn_step (logLevel : option Z) (resourcePath : string)
    (st : list emission * bool) (l : log) : list emission * bool :=
  let '(out, flag) := st in
  if startsWith (reason l) "NOTE" && level_le logLevel 1 then
    (push out (EmitWarning
       (message "noteStartNOTE File：" resourcePath l "NOTE: " "noteEnd")), flag)
  else if startsWith (reason l) "WARN" && level_le logLevel 2 then
    (push out (EmitWarning
       (message "warnStartWARNING File：" resourcePath l "WARNING: " "warnEnd")), flag)
  else if startsWith (reason l) "ERROR" && level_le logLevel 3 then
    (push out (EmitError
       (message "errorStartERROR File：" resourcePath l "ERROR: " "errorEnd")), true)
  else (out, flag).

(** [logWarn(loader, logs)]: the emissions made on [loader] and the returned flag. *)
Definition logWarn (logLevel : option Z) (resourcePath : string) (logs : list log)
    : list emission * bool :=
  if level_positive logLevel then
    match logs with
    | [] => ([], false)
    | _ => fold_left (logWarn_step logLevel resourcePath) logs ([], false)
    end
  else ([], false).

(** Severity of an entry, read off its [reason] as the sink does. *)
Definition isNote (l : log) : bool := startsWith (reason l) "NOTE".
Definition isWarn (l : log) : bool := startsWith (reason l) "WARN".
Definition isError (l : log) : bool := startsWith (reason l) "ERROR".

(** *** Chain descriptors *)

(** A value of a stage's query object. *)
Inductive qval :=
| QUndefined
| QNull
| QBool (b : bool)
| QStr (s : string)
| QArr (vs : list string).

(** A stage: a plain string, or [{ name, query }] with the query's entries in
    the order [for (const k in loader.query)] enumerates them. *)
Inductive stage :=
| StageString (s : string)
| StageObject (name : string) (query : option (list (string * qval))).

(** [`${v}`] *)
Definition qval_to_string (v : qval) : string :=
  match v with
  | QUndefined => "undefined"
  | QNull => "null"
  | QBool true => "true"
  | QBool false => "false"
  | QStr s => s
  | QArr vs => join "," vs
  end.

(** One turn of the [for ... in] loop over the query. *)
Definition query_step (query : list string) (kv : string * qval) : list string :=
  let '(k, v) := kv in
  match v with
  | QUndefined | QNull => query
  | QBool true => push query k
  | QArr vs => push query (k +:+ "[]=" +:+ join "," vs)
  | _ => push query (k +:+ "=" +:+ qval_to_string v)
  end.

Definition stringifyLoader (loader : stage) : string :=
  match loader with
  | StageString s => s
  | StageObject name q =>
      let query :=
        match q with
        | Some kvs => fold_left query_step kvs []
        | None => []
        end in
      name +:+ (if (0 <? length query)%nat then "?" +:+ join "&" query else "")
  end.

(** [stringifyLoaders(loaders)] *)
Definition stringifyLoaders (loaders : list stage) : string :=
  join "!" (map stringifyLoader loaders).

(** *** Source lines and the position map *)

(** [source.split(/\r?\n/g)] *)
Fixpoint splitSourceLine (source : string) : list string :=
  match source with
  | EmptyString => [EmptyString]
  | String c rest =>
      if is_lf c then EmptyString :: splitSourceLine rest
      else
        match rest with
        | String c' rest' =>
            if is_cr c && is_lf c' then EmptyString :: splitSourceLine rest'
            else match splitSourceLine rest with
                 | cur :: more => String c cur :: more
                 | [] => [String c EmptyString]
                 end
        | EmptyString => [String c EmptyString]
        end
  end.

(** What [smc.originalPositionFor] answers; [null] fields are [None]. *)
Record position := mkPosition {
  pos_source : option string;
  pos_line : option nat;
  pos_column : option nat
}.

Record consumed := mkConsumed {
  cm_source : option string;
  cm_original : list (option nat * option nat);
  cm_generated : list (nat * nat);
  cm_mapping : gmap string (option nat * option nat)
}.

Definition mapping_key (line column : nat) : string :=
  "line-" +:+ pretty line +:+ "-column-" +:+ pretty column.

Section ConsumeMap.
(** The consumer built from the map: [smc.originalPositionFor({line, column})]. *)
Variable originalPositionFor : nat -> nat -> position.

(** The body of [.forEach((input, line) => ...)]; [index] is the 0-based
    index the callback receives. *)
Definition consumeMap_step (st : consumed) (index : nat) : consumed :=
  let column := 0%nat in
  let line := (index + 1)%nat in
  let pos := originalPositionFor line column in
  if truthy_opt_string (pos_source pos) then
    {| cm_source := pos_source pos;
       cm_original := push (cm_original st) (pos_line pos, pos_column pos);
       cm_generated := push (cm_generated st) (line, column);
       cm_mapping := <[mapping_key line column := (pos_line pos, pos_column pos)]> (cm_mapping st) |}
  else st.

(** [consumeMap(loader, target, map)] without the pass-through field
    [sourcesContent]. *)
Definition consumeMap (target : string) : consumed :=
  fold_left consumeMap_step (seq 0 (length (splitSourceLine target)))
    {| cm_source := None; cm_original := []; cm_generated := []; cm_mapping := ∅ |}.
End ConsumeMap.

(** *** Names and module references *)

(** The leftmost [.] after which no line terminator occurs, and all that
    follows it, removed: [s.replace(/\..*$/, '')]. *)
Fixpoint no_line_terminator (s : string) : bool :=
  match s with
  | EmptyString => true
  | String c s' => negb (is_line_terminator c) && no_line_terminator s'
  end.

Fixpoint strip_from_dot (s : string) : string :=
  match s with
  | EmptyString => EmptyString
  | String c s' =>
      if Ascii.eqb c "."%char && no_line_terminator s' then EmptyString
      else String c (strip_from_dot s')
  end.

Definition getNameByPath (H : host) (resourcePath : string) : string :=
  strip_from_dot (path_basename H resourcePath).

(** [s.indexOf(t)] when it is not [-1] *)
Definition indexOf (s t : string) : option nat := String.index 0 t s.

(** [loadBabelModule(moduleName)]; [moduleName] is [None] when the caller
    passes [undefined], for which [require.resolve] throws. *)
Definition loadBabelModule (H : host) (moduleName : option string) : option string :=
  match moduleName with
  | None => None
  | Some m =>
      match require_resolve H m with
      | Some filePath =>
          let stop :=
            match indexOf filePath (replace_all "/" (path_sep H) m) with
            | Some i => (i + String.length m)%nat
            | None => (String.length m - 1)%nat
            end in
          Some (take stop filePath)
      | None => Some m
      end
  end.

(** [getRequireString(loaderContext, loader, filepath)] *)
Definition getRequireString (H : host) (loader filepath : string) : string :=
  "require(" +:+
    stringifyRequest H
      (if truthy_string loader then "!!" +:+ loader +:+ "!" +:+ filepath else filepath)
    +:+ ")" +:+ NL.

(** [jsonLoaders(type, customLoader)]; [customLoader] is a string or
    [undefined]. *)
Definition jsonLoaders (H : host) (type : string) (customLoader : option string) : string :=
  let loaders :=
    if String.eqb type "template" then
      [StageObject (path_resolve H (dirname__ H) "json.js") None;
       StageObject (path_resolve H (dirname__ H) "template.js") None]
    else if String.eqb type "style" then
      [StageObject (path_resolve H (dirname__ H) "json.js") None;
       StageObject (path_resolve H (dirname__ H) "style.js") None]
    else if String.eqb type "json" then
      [StageObject (path_resolve H (dirname__ H) "json.js") None]
    else [] in
  let loaders :=
    match truthy customLoader with
    | Some l =>
        push loaders
          (StageObject (path_resolve H (dirname__ H) ("../node_modules/" +:+ l)) None)
    | None => loaders
    end in
  stringifyLoaders loaders.

End Util.

(** ** loader.js *)

Module Loader.
Import Util.

(** *** The transform-chain resolver *)

(** The [config] argument of [getLoaderString], with the fields the
    resolver reads. *)
Record config := mkConfig {
  lang : option string;
  customLang : gmap string (list string);
  source : option string;
  app : bool
}.

Section Resolver.
Variable H : host.
Variable E : env.

Definition loaderPath : string := dirname__ H.

(** [defaultLoaders] *)
Definition defaultLoaders_main : string := path_resolve H loaderPath "loader.js".
Definition defaultLoaders_template : string := path_resolve H loaderPath "template.js".
Definition defaultLoaders_style : string := path_resolve H loaderPath "style.js".
Definition defaultLoaders_script : string := path_resolve H loaderPath "script.js".
Definition defaultLoaders_json : string := path_resolve H loaderPath "json.js".
Definition defaultLoaders_babel : option string := loadBabelModule H (Some "babel-loader").
Definition defaultLoaders_manifest : string := path_resolve H loaderPath "manifest-loader.js".
Definition defaultLoaders_resourceReferenceScript : string :=
  path_resolve H loaderPath "resource-reference-script.js".

(** A string that may be [undefined], as a query value or a stage name. *)
Definition qstr (o : option string) : qval :=
  match o with Some s => QStr s | None => QUndefined end.

Definition name_of (o : option string) : string :=
  match o with Some s => s | None => "undefined" end.

(** [loadCustomLoader(config)] *)
Definition loadCustomLoader (c : config) : option string :=
  if truthy_opt_string (lang c) then
    match customLang c !! default "" (lang c) with
    | Some loaders => loadBabelModule H (head loaders)
    | None => None
    end
  else None.

(** [if (customLoader) { loaders = loaders.concat(customLoader) }] *)
Definition concat_custom (loaders : list stage) (customLoader : option string) : list stage :=
  match truthy customLoader with
  | Some l => (loaders ++ [StageString l])%list
  | None => loaders
  end.

Definition mainLoaders : list stage :=
  [StageObject defaultLoaders_main None].

Definition elementLoaders (c : config) : list stage :=
  [StageObject defaultLoaders_main
     (Some [("element", if truthy_opt_string (source c) then QUndefined else QBool true)])].

Definition templateLoaders (customLoader : option string) : list stage :=
  concat_custom
    [StageObject defaultLoaders_json None; StageObject defaultLoaders_template None]
    customLoader.

Definition styleLoaders (customLoader : option string) : list stage :=
  concat_custom
    [StageObject defaultLoaders_json None; StageObject defaultLoaders_style None]
    customLoader.

(** The [isTargets] object of [scriptLoaderString]. *)
Definition isTargets : list (string * qval) :=
  let base := [("extends", QStr (path_resolve H (dirname__ H) "../babel.config.js"))] in
  if env_is (DEVICE_LEVEL E) (RICH H) then push base ("targets", QStr "node 8") else base.

(** The condition under which the manifest stage is pushed. *)
Definition manifest_wanted (c : config) : bool :=
  app c && env_is (abilityType E) "page" &&
  match aceManifestPath E with Some p => existsSync H p | None => false end.

(** The stage list [scriptLoaderString] builds before it serializes it. *)
Definition scriptLoaders (c : config) (customLoader : option string) : list stage :=
  let loaders := [StageObject defaultLoaders_script None] in
  let loaders :=
    match truthy customLoader with
    | Some l => (loaders ++ [StageString l])%list
    | None =>
        let loaders :=
          push loaders (StageObject (name_of defaultLoaders_babel) (Some isTargets)) in
        push loaders (StageObject defaultLoaders_resourceReferenceScript None)
    end in
  if manifest_wanted c then
    push loaders (StageObject defaultLoaders_manifest (Some [("path", qstr (source c))]))
  else loaders.

Definition scriptLoaderString (c : config) (customLoader : option string) : string :=
  stringifyLoaders (scriptLoaders c customLoader).

Definition jsonOnlyLoaders : list stage := [StageObject defaultLoaders_json None].

(** The kinds [getLoaderString] dispatches on. *)
Inductive kind := KMain | KElement | KTemplate | KStyle | KScript | KConfig | KData.

(** [getLoaderString(type, config)] *)
Definition getLoaderString (type : kind) (c : config) : string :=
  let customLoader := loadCustomLoader c in
  match type with
  | KMain => stringifyLoaders mainLoaders
  | KElement => stringifyLoaders (elementLoaders c)
  | KTemplate => stringifyLoaders (templateLoaders customLoader)
  | KStyle => stringifyLoaders (styleLoaders customLoader)
  | KScript => scriptLoaderString c customLoader
  | KConfig => stringifyLoaders jsonOnlyLoaders
  | KData => stringifyLoaders jsonOnlyLoaders
  end.
End Resolver.

(** *** The component reference graph *)

(** A value held in a record of [elements] or in the variable [parentPath]:
    [undefined], [true], a string, or a record of [elements] itself. A record
    is created once per key and never replaced, so a reference to it is the
    key it is stored under. *)
Inductive jsval :=
| VUndefined
| VTrue
| VStr (s : string)
| VRecord (key : string).

Definition truthy_val (v : jsval) : bool :=
  match v with
  | VUndefined => false
  | VTrue => true
  | VStr s => truthy_string s
  | VRecord _ => true
  end.

(** A value used as a property key or spliced into a template literal. *)
Definition to_key (v : jsval) : string :=
  match v with
  | VUndefined => "undefined"
  | VTrue => "true"
  | VStr s => s
  | VRecord _ => "[object Object]"
  end.

(** Modelled from the spec: the process-wide map [elements] that loader.js
    imports from util.js, whose declaration is not among the sources; it maps
    a component path to a record of own names and a parent, and is empty when
    the build starts. *)
Abbreviation elements_map := (gmap string (gmap string jsval)).

(** [elements[k]]: the record, or [undefined]. *)
Definition get_record (els : elements_map) (k : string) : jsval :=
  match els !! k with Some _ => VRecord k | None => VUndefined end.

(** [elements[k][p]] for a record that exists; [undefined] otherwise. *)
Definition get_prop (els : elements_map) (k p : string) : jsval :=
  match els !! k with
  | Some r => default VUndefined (r !! p)
  | None => VUndefined
  end.

(** [elements[k] = elements[k] || {}] *)
Definition ensure_record (k : string) (els : elements_map) : elements_map :=
  match els !! k with Some _ => els | None => <[k := ∅]> els end.

(** [elements[k][p] = v] on a record that exists *)
Definition set_prop (k p : string) (v : jsval) (els : elements_map) : elements_map :=
  match els !! k with
  | Some r => <[k := <[p := v]> r]> els
  | None => els
  end.

(** *** The loader *)

(** The loader context [this]: the resource, its parsed query
    ([loaderUtils.parseQuery(this.resourceQuery)]), the [element] option of
    the loader's own query, and the keys of [_compilation.entries]. *)
Record context := mkContext {
  resourcePath : string;
  query_entry : bool;
  query_name : option string;
  query_parentPath : option string;
  option_element : bool;
  compilation_entries : option (list string)
}.

(** An entry of [frag.element]. *)
Record element := mkElement {
  el_name : option string;
  el_src : option string
}.

(** What a compilation changes: the graph, the diagnostics handed to
    [logWarn] (in call order), what [logWarn] emitted on the loader, and the
    lines written with [console.log]. *)
Record world := mkWorld {
  elements : elements_map;
  logged : list log;
  emitted : list emission;
  console : list string
}.

Definition with_elements (els : elements_map) (w : world) : world :=
  {| elements := els; logged := logged w; emitted := emitted w; console := console w |}.

Definition console_log (msg : string) (w : world) : world :=
  {| elements := elements w; logged := logged w; emitted := emitted w;
     console := push (console w) msg |}.

Section Emit.
Variable H : host.
Variable E : env.
(** [parseFragment(source).element] of the markup parser *)
Variable parseFragment : string -> list element.

(** [logWarn(_this, [{ reason }])] *)
Definition warn (c : context) (reason : string) (w : world) : world :=
  let l := mkLog reason None None in
  {| elements := elements w;
     logged := push (logged w) l;
     emitted := (emitted w ++ fst (logWarn (logLevel E) (resourcePath c) [l]))%list;
     console := console w |}.

(** The options [loader] fixes: [options.lang]. *)
Definition options_lang : gmap string (list string) :=
  <["sass" := ["sass-loader"]]> (<["scss" := ["sass-loader"]]> (<["less" := ["less-loader"]]> ∅)).

(** The registration at the head of [loader]: the graph after it and the
    value of [parentPath]. *)
Definition register (c : context) (name : string) (els : elements_map)
    : elements_map * jsval :=
  let parentPath :=
    match truthy (query_parentPath c) with Some p => p | None => resourcePath c end in
  if query_entry c then
    let els := ensure_record (resourcePath c) els in
    let els := set_prop (resourcePath c) name VTrue els in
    (els, VStr parentPath)
  else
    let els := ensure_record (resourcePath c) els in
    let els := set_prop (resourcePath c) "parent" (VStr parentPath) els in
    if truthy_val (get_record els parentPath) && truthy_val (get_prop els parentPath "parent")
    then
      let els :=
        set_prop (resourcePath c) "parent"
          (get_record els (to_key (get_prop els parentPath "parent"))) els in
      (els, get_prop els (resourcePath c) "parent")
    else (els, VStr parentPath).

(** [checkApp(_this)] *)
Definition checkApp (c : context) : bool :=
  if env_is (abilityType E) "testrunner" then true
  else String.eqb (resourcePath c)
         (path_resolve H (projectPath E)
            (if env_is (abilityType E) "page" then "app.js"
             else name_of (abilityType E) +:+ ".js")).

(** [checkEntry(_this, filePath, elementSrc)] *)
Definition checkEntry (c : context) (filePath elementSrc : string) (w : world) : world :=
  match compilation_entries c with
  | Some keys =>
      fold_left
        (fun w key =>
           let entryPath := path_join H (path_resolve1 H (projectPath E)) (key +:+ ".hml") in
           if String.eqb entryPath filePath then
             warn c ("WARNING: The page " +:+ DQ +:+ elementSrc +:+ DQ
                     +:+ " configured in 'config.json'"
                     +:+ " can not be uesd as a custom component."
                     +:+ "To ensure that the debugging function is normal, please delete this page in 'config.json'.") w
           else w)
        keys w
  | None => w
  end.

Definition starts_with_slash_or_dot (src : string) : bool :=
  match src with
  | String c _ => Ascii.eqb c "/"%char || Ascii.eqb c "."%char
  | EmptyString => false
  end.

(** The [for] loop of [loadPageCheckElementLength], from the element at the
    head of [els_] on; [output] is what the loop has gathered. A [return '']
    leaves the loop with the empty text. The array [elementNames], which the
    loop fills and nothing reads, is left out. *)
Fixpoint loadPageCheckElementLength_loop (c : context) (els_ : list element)
    (customLang : gmap string (list string)) (parentPath : jsval)
    (output : string) (w : world) : string * world :=
  match els_ with
  | [] => (output, w)
  | element :: rest =>
      match truthy (el_src element) with
      | Some src0 =>
          let src := if endsWith src0 ".hml" then src0 else src0 +:+ ".hml" in
          let filePath := path_join H (path_dirname H (resourcePath c)) src in
          if negb (existsSync H filePath) && starts_with_slash_or_dot src then
            ("", warn c ("ERROR: The file path of custom element does not exist, src: " +:+ src) w)
          else
            let name :=
              match truthy (el_name element) with
              | Some n => n
              | None => path_parse_name H src
              end in
            let name := toLowerCase name in
            let key := to_key parentPath in
            let w := with_elements (ensure_record key (elements w)) w in
            let w :=
              if truthy_val (get_prop (elements w) key name) then
                warn c ("ERROR: The element name can not be same with the page "
                        +:+ DQ +:+ name +:+ DQ +:+ " (ignore case).") w
              else with_elements (set_prop key name VTrue (elements w)) w in
            let w := checkEntry c filePath src0 w in
            let output :=
              output +:+
              getRequireString H
                (getLoaderString H E KElement
                   {| lang := None; customLang := customLang; source := Some src; app := false |})
                (src +:+ "?name=" +:+ name +:+ "&parentPath=" +:+ to_key parentPath) in
            loadPageCheckElementLength_loop c rest customLang parentPath output w
      | None =>
          ("", warn c "ERROR: src attributes must be set for custom elements." w)
      end
  end.

(** [loadPageCheckElementLength(...)] *)
Definition loadPageCheckElementLength (c : context) (frag : list element)
    (customLang : gmap string (list string)) (parentPath : jsval) (w : world)
    : string * world :=
  loadPageCheckElementLength_loop c frag customLang parentPath "" w.

(** [filename] of [loadPage] and [loadApp]: the resource path with the first
    occurrence of its extension removed. *)
Definition strip_extname (c : context) : string :=
  replace_first (path_extname H (resourcePath c)) "" (resourcePath c).

Definition style_require (customLang : gmap string (list string))
    (lang_ : option string) (fileName : string) : string :=
  "var $app_style$ = " +:+
  getRequireString H
    (getLoaderString H E KStyle
       {| lang := lang_; customLang := customLang; source := Some fileName; app := false |})
    fileName.

(** [loadPageFindCss(_this, filename, customLang)]: [(extcss, output)] *)
Definition loadPageFindCss (filename : string) (customLang : gmap string (list string))
    : bool * string :=
  let cssFileName := filename +:+ ".css" in
  if existsSync H cssFileName then (true, style_require customLang None cssFileName)
  else
    let lessFileName := filename +:+ ".less" in
    if existsSync H lessFileName then (true, style_require customLang (Some "less") lessFileName)
    else
      let scssFileName := filename +:+ ".scss" in
      if existsSync H scssFileName then (true, style_require customLang (Some "scss") scssFileName)
      else
        let sassFileName := filename +:+ ".sass" in
        if existsSync H sassFileName then (true, style_require customLang (Some "sass") sassFileName)
        else (false, "").

(** [loadPageFindJs(_this, filename, customLang)]: [(extscript, output)] and
    the world after the [console.log]. *)
Definition loadPageFindJs (filename : string) (customLang : gmap string (list string))
    (w : world) : bool * string * world :=
  let jsFileName := filename +:+ ".js" in
  if negb (existsSync H jsFileName) then
    (false, "", console_log ("missing " +:+ jsFileName) w)
  else
    (true,
     "var $app_script$ = " +:+
     getRequireString H
       (getLoaderString H E KScript
          {| lang := None; customLang := customLang; source := Some jsFileName; app := false |})
       jsFileName,
     w).

(** [loadPageCheckRich(name, extscript, extcss, isEntry)] *)
Definition loadPageCheckRich (name : string) (extscript extcss isEntry : bool) : string :=
  let output :=
    NL +:+ "$app_define$('@app-component/" +:+ name
       +:+ "', [], function($app_require$, $app_exports$, $app_module$) {" +:+ NL
    +:+ (if extscript then
           NL +:+ "$app_script$($app_module$, $app_exports$, $app_require$)" +:+ NL
           +:+ "if ($app_exports$.__esModule && $app_exports$.default) {" +:+ NL
           +:+ "$app_module$.exports = $app_exports$.default" +:+ NL
           +:+ "}" +:+ NL
         else "")
    +:+ NL +:+ "$app_module$.exports.template = $app_template$" +:+ NL
    +:+ (if extcss then
           NL +:+ "$app_module$.exports.style = $app_style$" +:+ NL
         else "")
    +:+ NL +:+ "})" +:+ NL in
  if isEntry then
    output +:+ "$app_bootstrap$('@app-component/" +:+ name +:+ "'" +:+ ",undefined"
           +:+ ",undefined" +:+ ")"
  else output.

(** [loadPageCheckLite(extscript, extcss)] *)
Definition loadPageCheckLite (extscript extcss : bool) : string :=
  (if extscript then
     "var options=$app_script$" +:+ NL +:+ " if ($app_script$.__esModule) {" +:+ NL +:+ NL
     +:+ "      options = $app_script$.default;" +:+ NL +:+ " }" +:+ NL
   else "var options={}" +:+ NL)
  +:+ (if extcss then "options.styleSheet=$app_style$" +:+ NL else "")
  +:+ "options.render=$app_template$;" +:+ NL +:+ "module.exports=new ViewModel(options);".

(** [s.match(/\.hml/)]: the text occurs somewhere in [s]. *)
Definition contains (s t : string) : bool :=
  match indexOf s t with Some _ => true | None => false end.

(** [loadPage(_this, name, isEntry, customLang, source, parentPath)] *)
Definition loadPage (c : context) (name : string) (isEntry : bool)
    (customLang : gmap string (list string)) (source_ : string) (parentPath : jsval)
    (w : world) : string * world :=
  let output := "" in
  if contains (path_extname H (resourcePath c)) ".hml" then
    let filename := strip_extname c in
    let isElement := option_element c in
    let frag := parseFragment source_ in
    let '(out1, w) := loadPageCheckElementLength c frag customLang parentPath w in
    let output := output +:+ out1 in
    let output :=
      output +:+ "var $app_template$ = " +:+
      getRequireString H
        (getLoaderString H E KTemplate
           {| lang := None; customLang := customLang;
              source := Some (resourcePath c); app := false |})
        (resourcePath c) in
    let '(extcss, cssOutput) := loadPageFindCss filename customLang in
    let output := output +:+ cssOutput in
    let '(extscript, scriptOutput, w) := loadPageFindJs filename customLang w in
    let output := output +:+ scriptOutput in
    let output :=
      output +:+
      (if env_is (DEVICE_LEVEL E) (RICH H) then loadPageCheckRich name extscript extcss isEntry
       else loadPageCheckLite extscript extcss) in
    (output, w)
  else (output, w).

(** [loadApp(_this, name, isEntry, customLang, source)] *)
Definition loadApp (c : context) (name : string) (isEntry : bool)
    (customLang : gmap string (list string)) (source_ : string) : string :=
  let output := "" in
  if checkApp c then
    let filename := strip_extname c in
    let cssFileName := filename +:+ ".css" in
    let extcss := existsSync H cssFileName in
    let output :=
      if negb (existsSync H cssFileName) then output
      else output +:+ style_require customLang None cssFileName in
    let output :=
      output +:+ "var $app_script$ = " +:+
      getRequireString H
        (getLoaderString H E KScript
           {| lang := None; customLang := customLang;
              source := Some (resourcePath c); app := true |})
        (resourcePath c) in
    let output :=
      if env_is (DEVICE_LEVEL E) (RICH H) || env_is (DEVICE_LEVEL E) "card" then
        let output :=
          output +:+ NL +:+ "      $app_define$('@app-application/" +:+ name
          +:+ "', [], function($app_require$, $app_exports$, $app_module$) {" +:+ NL
          +:+ "      "
          +:+ NL +:+ "      $app_script$($app_module$, $app_exports$, $app_require$)" +:+ NL
          +:+ "      if ($app_exports$.__esModule && $app_exports$.default) {" +:+ NL
          +:+ "        $app_module$.exports = $app_exports$.default" +:+ NL
          +:+ "      }" +:+ NL
          +:+ "      "
          +:+ (if extcss then
                 NL +:+ "      $app_module$.exports.style = $app_style$" +:+ NL +:+ "      "
               else "")
          +:+ NL +:+ "      })" +:+ NL +:+ "      " in
        if isEntry then
          output +:+ "$app_bootstrap$('@app-application/" +:+ name +:+ "'" +:+ ",undefined"
                 +:+ ",undefined" +:+ ")"
        else output
      else output in
    let output :=
      if env_is (DEVICE_LEVEL E) (LITE H) then
        output +:+ "var options=$app_script$" +:+ NL +:+ " if ($app_script$.__esModule) {"
        +:+ NL +:+ NL
        +:+ "        options = $app_script$.default;" +:+ NL +:+ " }" +:+ NL
        +:+ (if extcss then "options.styleSheet=$app_style$" +:+ NL else "")
        +:+ "module.exports=new ViewModel(options);"
      else output in
    output
  else if endsWith (resourcePath c) ".js" then source_
  else output.

(** [loader(source)], run on the context [c]; the call [this.cacheable()]
    changes nothing the loader returns. *)
Definition loader (c : context) (source_ : string) (w : world) : string * world :=
  let customLang := options_lang in
  let isEntry := query_entry c in
  let name :=
    if isEntry then path_parse_name H (resourcePath c)
    else match truthy (query_name c) with
         | Some n => n
         | None => getNameByPath H (resourcePath c)
         end in
  let '(els, parentPath) := register c name (elements w) in
  let w := with_elements els w in
  if isReservedTag H name && env_is (abilityType E) "page" then
    ("", warn c ("ERROR: The file name cannot contain reserved tag name: " +:+ name) w)
  else
    let output := "" in
    let output := output +:+ loadApp c name isEntry customLang source_ in
    let '(pageOutput, w) := loadPage c name isEntry customLang source_ parentPath w in
    (output +:+ pageOutput, w).

End Emit.

End Loader.

(** ** json.js *)

Module Json.
Import Util.

(** *** Replacing the matches of a regular expression *)

(** A pattern tried at one position of the subject: it sees the character
    before the position ([None] at the start) and the text from the position
    on, and answers the length of the match and the text of its first group.
    Every pattern below matches at least one character. *)
Definition matcher := option ascii -> string -> option (nat * string).

(** [s.replace(re, fn)] for a global pattern: the subject is scanned left to
    right, [fn] receives the matched text and the first group, and the scan
    resumes after the match. [skip] counts the characters of the current match
    still to be passed over. *)
Fixpoint regex_replace_go (m : matcher) (fn : string -> string -> string)
    (prev : option ascii) (skip : nat) (s : string) : string :=
  match s with
  | EmptyString => EmptyString
  | String c s' =>
      match skip with
      | S k => regex_replace_go m fn (Some c) k s'
      | O =>
          match m prev s with
          | Some (n, group1) => fn (take n s) group1 +:+ regex_replace_go m fn (Some c) (n - 1) s'
          | None => String c (regex_replace_go m fn (Some c) O s')
          end
      end
  end.

Definition regex_replace (m : matcher) (fn : string -> string -> string) (s : string) : string :=
  regex_replace_go m fn None O s.

(** The length of the longest prefix whose characters satisfy [p]. *)
Fixpoint span (p : ascii -> bool) (s : string) : nat :=
  match s with
  | String c s' => if p c then S (span p s') else O
  | EmptyString => O
  end.

Definition not_line_terminator (c : ascii) : bool := negb (is_line_terminator c).

(** The greatest index [j >= from] below [n] at which [s] holds the character
    [q], scanning the first [n] characters of [s]; [i] is the index of the head. *)
Fixpoint last_index (q : ascii) (from n i : nat) (s : string) : option nat :=
  match n, s with
  | S n', String c s' =>
      match last_index q from n' (S i) s' with
      | Some j => Some j
      | None => if Ascii.eqb c q && (from <=? i)%nat then Some i else None
      end
  | _, _ => None
  end.

(** One alternative of [REG_EVENT_STRING]: the quote [q], [\s*], [$event.],
    [.+] and the quote again; [.+] is greedy and gives back characters until
    the quote follows. *)
Definition match_event_string_alt (q : ascii) (s : string) : option nat :=
  match s with
  | String c s1 =>
      if Ascii.eqb c q then
        let ws := span is_space s1 in
        let s2 := drop ws s1 in
        if String.prefix "$event." s2 then
          let s3 := drop 7 s2 in
          let run := span not_line_terminator s3 in
          match last_index q 1 run 0 s3 with
          | Some j => Some (1 + ws + 7 + j + 1)%nat
          | None => None
          end
        else None
      else None
  | EmptyString => None
  end.

(** [REG_EVENT_STRING = /("\s*\$event\..+")|('\s*\$event\..+')/g] *)
Definition REG_EVENT_STRING : matcher := fun _ s =>
  match match_event_string_alt "034"%char s with
  | Some n => Some (n, take n s)
  | None =>
      match match_event_string_alt "039"%char s with
      | Some n => Some (n, "")
      | None => None
      end
  end.

(** [REG_EVENT = /\$event\.[\w]+/g] *)
Definition REG_EVENT : matcher := fun _ s =>
  if String.prefix "$event." s then
    let k := span is_word (drop 7 s) in
    if (0 <? k)%nat then Some ((7 + k)%nat, "") else None
  else None.

(** [REG_THIS = /this\..*/g] *)
Definition REG_THIS : matcher := fun _ s =>
  if String.prefix "this." s then Some ((5 + span not_line_terminator (drop 5 s))%nat, "")
  else None.

(** [/\/\*((\n|\r|.)*?)\*\//mg]: the group is lazy, so the match ends at the
    first [*/] after the opening. *)
Definition REG_BLOCK_COMMENT : matcher := fun _ s =>
  if String.prefix "/*" s then
    match indexOf (drop 2 s) "*/" with
    | Some i => Some ((2 + i + 2)%nat, take i (drop 2 s))
    | None => None
    end
  else None.

Definition at_line_start (prev : option ascii) : bool :=
  match prev with Some c => is_line_terminator c | None => true end.

Definition comment_lead (c : ascii) : bool :=
  is_space c || Ascii.eqb c ";"%char || Ascii.eqb c "{"%char || Ascii.eqb c "}"%char.

(** [/(\s|\;|^|\{|\})\/\/.*$/mg]: with the [m] flag [^] holds at the start
    of a line and [$] at its end, where the greedy [.*] stops. *)
Definition REG_LINE_COMMENT : matcher := fun prev s =>
  match s with
  | String c s1 =>
      if comment_lead c && String.prefix "//" s1 then
        Some ((1 + 2 + span not_line_terminator (drop 2 s1))%nat, String c EmptyString)
      else if at_line_start prev && String.prefix "//" s then
        Some ((2 + span not_line_terminator (drop 2 s))%nat, "")
      else None
  | EmptyString => None
  end.

(** [item.slice(1, -1)] *)
Definition slice_1_m1 (item : string) : string :=
  take (String.length item - 2) (drop 1 item).

(** [item.slice(0, -1)] *)
Definition slice_0_m1 (item : string) : string := take (String.length item - 1) item.

(** [s.trim()] keeps what [trimStart] leaves; only the start matters to
    [indexOf(...) === 0]. *)
Definition trimStart (s : string) : string := drop (span is_space s) s.

(** *** Structured values *)

(** A value [JSON.parse] returns. The properties of an object are listed in
    the order [Object.keys] enumerates them. Numbers are the integers. *)
Inductive json :=
| JNull
| JBool (b : bool)
| JNum (n : Z)
| JStr (s : string)
| JArr (items : list json)
| JObj (props : list (string * json)).

(** A value that may be [undefined]. *)
Definition value := option json.

Definition truthy_json (v : json) : bool :=
  match v with
  | JNull => false
  | JBool b => b
  | JNum n => negb (n =? 0)%Z
  | JStr s => truthy_string s
  | JArr _ | JObj _ => true
  end.

Definition truthy_value (v : value) : bool :=
  match v with Some j => truthy_json j | None => false end.

(** [typeof v] *)
Definition typeof (v : json) : string :=
  match v with
  | JNull | JArr _ | JObj _ => "object"
  | JBool _ => "boolean"
  | JNum _ => "number"
  | JStr _ => "string"
  end.

(** [Object.prototype.toString.call(v) === '[object Object]'] *)
Definition is_plain_object (v : value) : bool :=
  match v with Some (JObj _) => true | _ => false end.

(** [String(v)], the key a value is coerced to by [obj[v]]. Inside an array
    [null] renders as the empty text. *)
Fixpoint to_string (v : json) : string :=
  match v with
  | JNull => "null"
  | JBool true => "true"
  | JBool false => "false"
  | JNum n => pretty n
  | JStr s => s
  | JArr items =>
      join ","
        (map (fun item => match item with JNull => "" | _ => to_string item end) items)
  | JObj _ => "[object Object]"
  end.

Fixpoint lookup_prop (k : string) (props : list (string * json)) : value :=
  match props with
  | [] => None
  | (k', v) :: rest => if String.eqb k' k then Some v else lookup_prop k rest
  end.

Definition is_digit (c : ascii) : bool :=
  let n := nat_of_ascii c in (48 <=? n)%nat && (n <=? 57)%nat.

Fixpoint digits_value (acc : N) (s : string) : option N :=
  match s with
  | EmptyString => Some acc
  | String c s' =>
      if is_digit c then digits_value (acc * 10 + N.of_nat (nat_of_ascii c - 48)) s'
      else None
  end.

(** A key that is an array index: a canonical numeral below [2^32 - 1].
    Such keys are enumerated first, in ascending order. *)
Definition array_index (k : string) : option N :=
  match k with
  | EmptyString => None
  | String c rest =>
      if Ascii.eqb c "0"%char && negb (String.eqb rest "") then None
      else match digits_value 0 k with
           | Some n => if (n <? 4294967295)%N then Some n else None
           | None => None
           end
  end.

(** Where a new own property lands among the others. *)
Fixpoint insert_new (k : string) (v : json) (props : list (string * json))
    : list (string * json) :=
  match props with
  | [] => [(k, v)]
  | (k', v') :: rest =>
      match array_index k, array_index k' with
      | Some i, Some i' =>
          if (i <? i')%N then (k, v) :: props else (k', v') :: insert_new k v rest
      | Some _, None => (k, v) :: props
      | None, _ => (k', v') :: insert_new k v rest
      end
  end.

Fixpoint replace_prop (k : string) (v : json) (props : list (string * json))
    : list (string * json) :=
  match props with
  | [] => []
  | (k', v') :: rest =>
      if String.eqb k' k then (k, v) :: rest else (k', v') :: replace_prop k v rest
  end.

(** [obj[k] = v] *)
Definition set_prop (k : string) (v : json) (props : list (string * json))
    : list (string * json) :=
  match lookup_prop k props with
  | Some _ => replace_prop k v props
  | None => insert_new k v props
  end.

(** [v.hasOwnProperty('default')] for a value that is not [null] *)
Definition has_default (v : json) : bool :=
  match v with
  | JObj props => match lookup_prop "default" props with Some _ => true | None => false end
  | _ => false
  end.

(** [{ 'default': '' }] *)
Definition default_entry : json := JObj [("default", JStr "")].

(** *** Exceptions and effects *)

(** A thrown value, by the text [`${e}`] renders. *)
Inductive exn := Thrown (text : string).

Definition exn_text (e : exn) : string := match e with Thrown t => t end.

Inductive outcome (A : Type) :=
| Ret (a : A)
| Throw (e : exn).
Arguments Ret {A} a.
Arguments Throw {A} e.

(** An argument of a call to the aggregation sink. *)
Inductive sink_arg :=
| ArgText (s : string)
| ArgValue (v : value).

(** What the loader changes: the diagnostics handed to [logWarn], what
    [logWarn] emitted, and the calls [cardJsonPlugin.compileJson(_compiler, ...)]
    made, each by its arguments after the compiler. *)
Record world := mkWorld {
  logged : list log;
  emitted : list emission;
  sink : list (list sink_arg)
}.

Definition empty_world : world := {| logged := []; emitted := []; sink := [] |}.

(** A computation that may throw and changes the world; what it changed
    before throwing stays changed. *)
Definition M (A : Type) := world -> outcome A * world.

Definition ret {A} (a : A) : M A := fun w => (Ret a, w).
Definition throw {A} (e : exn) : M A := fun w => (Throw e, w).
Definition bind {A B} (m : M A) (k : A -> M B) : M B := fun w =>
  match m w with
  | (Ret a, w') => k a w'
  | (Throw e, w') => (Throw e, w')
  end.

(** [try { m } catch (e) { handler(e) }] *)
Definition try_catch {A} (m : M A) (handler : exn -> M A) : M A := fun w =>
  match m w with
  | (Ret a, w') => (Ret a, w')
  | (Throw e, w') => handler e w'
  end.

Notation "'let!' x ':=' m 'in' k" := (bind m (fun x => k))
  (at level 10, x pattern, m at level 100, k at level 200).
Notation "'run!' m 'in' k" := (bind m (fun _ => k))
  (at level 10, m at level 100, k at level 200).

(** [arr.forEach(f)] *)
Fixpoint forEach {A} (f : A -> M unit) (arr : list A) : M unit :=
  match arr with
  | [] => ret tt
  | x :: rest => run! f x in forEach f rest
  end.

(** [arr.forEach(f)] where [f] updates a local variable of type [S] *)
Fixpoint forEach_with {A S} (f : S -> A -> M S) (arr : list A) (st : S) : M S :=
  match arr with
  | [] => ret st
  | x :: rest => let! st' := f st x in forEach_with f rest st'
  end.

(** What json.js calls and does not define: the two rewriters it imports,
    the evaluator, and the errors the language raises. *)
Record engine := mkEngine {
  (** [ResourceReferenceParsing(source)] of [resource-reference-script] *)
  ResourceReferenceParsing : string -> string;
  (** [transCardArray(value)] of [templater/bind] *)
  transCardArray : string -> string;
  (** [JSON.stringify(eval(text))], by the value the resulting text denotes:
      [inl e] when the evaluation throws [e], [inr None] when the result
      serializes to [undefined] *)
  eval_stringify : string -> exn + value;
  (** the [TypeError] for reading the property [p] of [null] *)
  null_property_error : string -> exn;
  (** the [SyntaxError] of [JSON.parse(undefined)] *)
  parse_undefined_error : exn
}.

(** The loader context [this] of json.js. *)
Record context := mkContext {
  resourcePath : string;
  resourceQuery : string;
  (** [_compiler.options.entry]: each key with [entry[key]['import'][0]] *)
  entry : list (string * string);
  (** [_compiler.options.output.path] *)
  output_path : string
}.

Section Card.
Variable H : host.
Variable E : env.
Variable G : engine.

(** [logWarn(_this, [{ reason }])] *)
Definition warn (c : context) (reason : string) : M unit := fun w =>
  let l := mkLog reason None None in
  (Ret tt,
   {| logged := push (logged w) l;
      emitted := (emitted w ++ fst (logWarn (logLevel E) (resourcePath c) [l]))%list;
      sink := sink w |}).

(** [cardJsonPlugin.compileJson(_this._compiler, ...args)] *)
Definition compileJson (args : list sink_arg) : M unit := fun w =>
  (Ret tt, {| logged := logged w; emitted := emitted w; sink := push (sink w) args |}).

(** The callback of [propsValue.forEach] for an array; [propsObject] is the
    object under construction. *)
Definition props_array_step (c : context) (propsObject : list (string * json)) (item : json)
    : M (list (string * json)) :=
  run! (if negb (String.eqb (typeof item) "string") then
          warn c ("WARNING: The props value type should be 'string', not '"
                  +:+ typeof item +:+ "' in props array in custom elements.")
        else ret tt) in
  ret (set_prop (to_string item) default_entry propsObject).

(** The callback of [Object.keys(propsValue).forEach] for an object, which it
    updates in place. *)
Definition props_object_step (c : context) (props : list (string * json)) (item : string)
    : M (list (string * json)) :=
  let v := lookup_prop item props in
  run! (if negb (is_plain_object v) then
          warn c "WARNING: The props default value type can only be Object in custom elements."
        else ret tt) in
  match v with
  | Some JNull | None => throw (null_property_error G "hasOwnProperty")
  | Some x =>
      if negb (has_default x) then ret (set_prop item default_entry props)
      else ret props
  end.

(** [replacePropsArray(propsValue, _this)] *)
Definition replacePropsArray (propsValue : value) (c : context) : M value :=
  if negb (truthy_value propsValue) then ret propsValue
  else
    match propsValue with
    | Some (JArr items) =>
        let! propsObject := forEach_with (props_array_step c) items [] in
        ret (Some (JObj propsObject))
    | Some (JObj props) =>
        let! props' := forEach_with (props_object_step c) (map fst props) props in
        ret (Some (JObj props'))
    | _ =>
        run! warn c "WARNING: The props type can only be Array or Object in custom elements." in
        ret propsValue
    end.

(** [actionsValue[item].method]: the read throws on [null]. *)
Definition read_method (v : value) : M value :=
  match v with
  | Some JNull | None => throw (null_property_error G "method")
  | Some (JObj props) => ret (lookup_prop "method" props)
  | Some _ => ret None
  end.

(** [actionsValue[item].method = m] *)
Definition write_method (item : string) (m : json) (props : list (string * json))
    : list (string * json) :=
  match lookup_prop item props with
  | Some (JObj inner) => set_prop item (JObj (set_prop "method" m inner)) props
  | _ => props
  end.

(** The callback of [Object.keys(actionsValue).forEach]. *)
Definition actions_step (c : context) (props : list (string * json)) (item : string)
    : M (list (string * json)) :=
  let! method := read_method (lookup_prop item props) in
  if truthy_value method then
    match method with
    | Some (JStr m) =>
        if negb (String.eqb (toLowerCase m) m) then
          run! warn c ("WARNING: The key method '" +:+ m
                       +:+ "' in the actions don't support uppercase letters.") in
          ret (write_method item (JStr (toLowerCase m)) props)
        else ret props
    | Some other =>
        run! warn c ("WARNING: The key method type in the actions should be 'string', not '"
                     +:+ typeof other +:+ "'.") in
        ret props
    | None => ret props
    end
  else ret props.

(** [processActions(actionsValue, _this)] *)
Definition processActions (actionsValue : value) (c : context) : M value :=
  match actionsValue with
  | Some (JObj props) =>
      let! props' := forEach_with (actions_step c) (map fst props) props in
      ret (Some (JObj props'))
  | _ =>
      run! (if truthy_value actionsValue then
              warn c "WARNING: The actions value type can only be Object."
            else ret tt) in
      ret actionsValue
  end.

(** [validateData(dataValue, _this)] *)
Definition validateData (dataValue : value) (c : context) : M value :=
  run! (if truthy_value dataValue && negb (is_plain_object dataValue) then
          warn c "WARNING: The data value type can only be Object."
        else ret tt) in
  ret dataValue.

(** [s.split('#')[0]] *)
Fixpoint before_hash (s : string) : string :=
  match s with
  | EmptyString => EmptyString
  | String c s' => if Ascii.eqb c "#"%char then EmptyString else String c (before_hash s')
  end.

(** [mkJsonFiles(_this)]: [(indexJson, element)] *)
Definition mkJsonFiles (c : context) : string * option string :=
  let resourceQuery0 := before_hash (resourceQuery c) in
  let '(indexJson, element) :=
    fold_left
      (fun (st : string * option string) (kv : string * string) =>
         let '(key, import0) := kv in
         if String.eqb (path_dirname H (path_resolve1 H import0))
                       (path_dirname H (resourcePath c))
         then (key +:+ ".json", snd st)
         else (key +:+ ".json", Some (drop 1 resourceQuery0)))
      (entry c) ("", None) in
  (path_resolve H (output_path c) indexJson, element).

(** The callback given to [source.replace(REG_THIS, ...)]. *)
Definition rewrite_this (item : string) : string :=
  if negb (endsWith item DQ) && negb (endsWith item SQ)
     && negb (String.eqb (drop (String.length item - 2) item) (DQ +:+ ","))
     && negb (String.eqb (drop (String.length item - 2) item) (SQ +:+ ","))
  then
    if endsWith item "," then
      replace_all "this." ""
        (DQ +:+ "{{" +:+ transCardArray G (slice_0_m1 item) +:+ "}}" +:+ DQ +:+ ",")
    else
      replace_all "this." "" (DQ +:+ "{{" +:+ transCardArray G item +:+ "}}" +:+ DQ)
  else item.

(** The rewriting [parseCard] applies to the text of a [.json] or [.js]
    resource. *)
Definition rewrite_card (source : string) : string :=
  let source := ResourceReferenceParsing G source in
  let source := regex_replace REG_EVENT_STRING (fun item _ => slice_1_m1 item) source in
  let source := regex_replace REG_EVENT (fun item _ => DQ +:+ item +:+ DQ) source in
  regex_replace REG_THIS (fun item _ => rewrite_this item) source.

(** [JSON.parse(source)] for the text [parseCard] holds after the evaluation *)
Definition JSON_parse (source : value) : M json :=
  match source with
  | Some v => ret v
  | None => throw (parse_undefined_error G)
  end.

(** [JSON.parse(source)[p]] *)
Definition parse_member (source : value) (p : string) : M value :=
  let! v := JSON_parse source in
  match v with
  | JNull => throw (null_property_error G p)
  | JObj props => ret (lookup_prop p props)
  | _ => ret None
  end.

Definition is_json_or_js (extName : string) : bool :=
  String.eqb extName ".json" || String.eqb extName ".js".

Definition is_style (extName : string) : bool :=
  String.eqb extName ".css" || String.eqb extName ".less"
  || String.eqb extName ".sass" || String.eqb extName ".scss".

(** The text [parseCard] hands to [eval], between the parentheses: the
    source without its comments and its leading [export default], rewritten
    when the resource is a [.json] or a [.js]. *)
Definition card_text (c : context) (source : string) : string :=
  let source := regex_replace REG_BLOCK_COMMENT (fun _ _ => "") source in
  let source := regex_replace REG_LINE_COMMENT (fun _ group1 => group1) source in
  let source :=
    if String.prefix "export default" (trimStart source)
    then replace_first "export default" "" source else source in
  let extName := path_extname H (resourcePath c) in
  if is_json_or_js extName then rewrite_card source else source.

(** [parseCard(_this, source)]; the result is the value the returned text
    denotes. *)
Definition parseCard (c : context) (source : string) : M value :=
  let extName := path_extname H (resourcePath c) in
  let! source :=
    match eval_stringify G ("(" +:+ card_text c source +:+ ")") with
    | inl e => throw e
    | inr v => ret v
    end in
  let '(indexJson, element) := mkJsonFiles c in
  run! compileJson [ArgText "init"; ArgText indexJson] in
  run!
    match truthy element with
    | Some el =>
        if is_json_or_js extName then
          let! actions := parse_member source "actions" in
          let! actions := processActions actions c in
          run! compileJson [ArgText el; ArgText indexJson; ArgValue actions;
                            ArgText el; ArgText "actions"] in
          let! data := parse_member source "data" in
          let! data := validateData data c in
          run! compileJson [ArgText el; ArgText indexJson; ArgValue data;
                            ArgText el; ArgText "data"] in
          let! apiVersion := parse_member source "apiVersion" in
          let! apiVersion := validateData apiVersion c in
          run! compileJson [ArgText el; ArgText indexJson; ArgValue apiVersion;
                            ArgText el; ArgText "apiVersion"] in
          let! props := parse_member source "props" in
          let! props := replacePropsArray props c in
          compileJson [ArgText el; ArgText indexJson; ArgValue props;
                       ArgText el; ArgText "props"]
        else if is_style extName then
          let! v := JSON_parse source in
          compileJson [ArgText el; ArgText indexJson; ArgValue (Some v);
                       ArgText el; ArgText "styles"]
        else if String.eqb extName ".hml" then
          let! v := JSON_parse source in
          compileJson [ArgText el; ArgText indexJson; ArgValue (Some v);
                       ArgText el; ArgText "template"]
        else ret tt
    | None =>
        if is_json_or_js extName then
          let! actions := parse_member source "actions" in
          let! actions := processActions actions c in
          run! compileJson [ArgText "actions"; ArgText indexJson; ArgValue actions;
                            ArgText "actions"] in
          let! data := parse_member source "data" in
          let! data := validateData data c in
          run! compileJson [ArgText "data"; ArgText indexJson; ArgValue data;
                            ArgText "data"] in
          let! apiVersion := parse_member source "apiVersion" in
          let! apiVersion := validateData apiVersion c in
          compileJson [ArgText "apiVersion"; ArgText indexJson; ArgValue apiVersion;
                       ArgText "apiVersion"]
        else if is_style extName then
          let! v := JSON_parse source in
          compileJson [ArgText "styles"; ArgText indexJson; ArgValue (Some v);
                       ArgText "styles"]
        else if String.eqb extName ".hml" then
          let! v := JSON_parse source in
          compileJson [ArgText "template"; ArgText indexJson; ArgValue (Some v);
                       ArgText "template"]
        else ret tt
    end in
  ret source.

(** The exported loader function, run on the context [c]; the call
    [this.cacheable()] changes nothing the loader returns. *)
Definition loader (c : context) (source : string) : M string :=
  if env_is (DEVICE_LEVEL E) "card" then
    try_catch
      (let! _ := parseCard c source in ret "{}")
      (fun e =>
         run! warn c ("ERROR: Failed to parse the file : " +:+ resourcePath c
                      +:+ NL +:+ exn_text e) in
         ret "{}")
  else ret ("module.exports = " +:+ source).

End Card.

End Json.

(** ** util.js: module references *)

Module Requires.
Import Util.

(** The text appended on a lite device: the template literal of the
    source, line by line. *)
Definition requireMethod_lite : string :=
  NL
  +:+ "function requireModule(moduleName) {" +:+ NL
  +:+ "  return requireNative(moduleName.slice(1));" +:+ NL
  +:+ "}" +:+ NL.

(** The text appended otherwise. In a template literal a backslash before
    a dot is dropped, so the pattern of [shortName] reaches the output
    without it. *)
Definition requireMethod_rich : string :=
  NL
  +:+ "function requireModule(moduleName) {" +:+ NL
  +:+ "  const systemList = ['system.router', 'system.app', 'system.prompt', 'system.configuration'," +:+ NL
  +:+ "  'system.image', 'system.device', 'system.mediaquery', 'ohos.animator', 'system.grid', 'system.resource']" +:+ NL
  +:+ "  var target = ''" +:+ NL
  +:+ "  if (systemList.includes(moduleName.replace('@', ''))) {" +:+ NL
  +:+ "    target = $app_require$('@app-module/' + moduleName.substring(1));" +:+ NL
  +:+ "    return target;" +:+ NL
  +:+ "  }" +:+ NL
  +:+ "  var shortName = moduleName.replace(/@[^.]+.([^.]+)/, '$1');" +:+ NL
  +:+ "  if (typeof ohosplugin !== 'undefined' && /@ohos/.test(moduleName)) {" +:+ NL
  +:+ "    target = ohosplugin;" +:+ NL
  +:+ "    for (let key of shortName.split('.')) {" +:+ NL
  +:+ "      target = target[key];" +:+ NL
  +:+ "      if(!target) {" +:+ NL
  +:+ "        break;" +:+ NL
  +:+ "      }" +:+ NL
  +:+ "    }" +:+ NL
  +:+ "    if (typeof target !== 'undefined') {" +:+ NL
  +:+ "      return target;" +:+ NL
  +:+ "    }" +:+ NL
  +:+ "  }" +:+ NL
  +:+ "  if (typeof systemplugin !== 'undefined') {" +:+ NL
  +:+ "    target = systemplugin;" +:+ NL
  +:+ "    for (let key of shortName.split('.')) {" +:+ NL
  +:+ "      target = target[key];" +:+ NL
  +:+ "      if(!target) {" +:+ NL
  +:+ "        break;" +:+ NL
  +:+ "      }" +:+ NL
  +:+ "    }" +:+ NL
  +:+ "    if (typeof target !== 'undefined') {" +:+ NL
  +:+ "      return target;" +:+ NL
  +:+ "    }" +:+ NL
  +:+ "  }" +:+ NL
  +:+ "  target = requireNapi(shortName);" +:+ NL
  +:+ "  return target;" +:+ NL
  +:+ "}" +:+ NL.

Definition is_quote (c : ascii) : bool := Ascii.eqb c "034"%char || Ascii.eqb c "039"%char.

Definition not_paren (c : ascii) : bool :=
  negb (Ascii.eqb c "("%char || Ascii.eqb c ")"%char).

Definition quote_at (n : nat) (s : string) : bool :=
  match drop n s with String c _ => is_quote c | EmptyString => false end.

(** [requireReg = /require\(['"]([^()]+)['"]\)/g]: the group runs over the
    characters that are no parenthesis and gives back its last one, which
    has to be a quote, the closing parenthesis being the first parenthesis
    after the opening quote. *)
Definition requireReg : Json.matcher := fun _ s =>
  if String.prefix "require(" s then
    match drop 8 s with
    | String q s2 =>
        let run := Json.span not_paren s2 in
        if is_quote q && (2 <=? run)%nat && quote_at (run - 1) s2
           && String.prefix ")" (drop run s2)
        then Some ((8 + 1 + run + 1)%nat, take (run - 1) s2)
        else None
    | EmptyString => None
    end
  else None.

(** [s.match(re)] for a global pattern: the matched texts, left to right;
    the empty list stands for [null]. *)
Fixpoint match_all_go (m : Json.matcher) (prev : option ascii) (skip : nat) (s : string)
    : list string :=
  match s with
  | EmptyString => []
  | String c s' =>
      match skip with
      | S k => match_all_go m (Some c) k s'
      | O =>
          match m prev s with
          | Some (n, _) => take n s :: match_all_go m (Some c) (n - 1) s'
          | None => match_all_go m (Some c) O s'
          end
      end
  end.

Definition match_all (m : Json.matcher) (s : string) : list string :=
  match_all_go m None O s.

(** The replacement text of [s.replace(pattern, replacement)] for a pattern
    that is a string: [$$] is a dollar, [$&] the matched text, [$`] the text
    before it and [$'] the text after it; every other character stands for
    itself. *)
Fixpoint substitute (matched before after replacement : string) : string :=
  match replacement with
  | EmptyString => EmptyString
  | String c r =>
      match r with
      | String d r' =>
          if Ascii.eqb c "$"%char then
            if Ascii.eqb d "$"%char then String "$"%char (substitute matched before after r')
            else if Ascii.eqb d "&"%char then matched +:+ substitute matched before after r'
            else if Ascii.eqb d "`"%char then before +:+ substitute matched before after r'
            else if Ascii.eqb d "'"%char then after +:+ substitute matched before after r'
            else String c (substitute matched before after r)
          else String c (substitute matched before after r)
      | EmptyString => String c EmptyString
      end
  end.

(** [s.replace(pattern, replacement)] for a pattern that is a string: the
    first occurrence. *)
Definition replace_text (pattern replacement s : string) : string :=
  match indexOf s pattern with
  | Some i =>
      let before := take i s in
      let after := drop (i + String.length pattern) s in
      before +:+ substitute pattern before after replacement +:+ after
  | None => s
  end.

(** [s.indexOf(t) > 0] *)
Definition found_after_start (s t : string) : bool :=
  match indexOf s t with Some i => (0 <? i)%nat | None => false end.

(** The body of [for (let requireStatement of requireStatements)]. *)
Definition rewrite_statement (source requireStatement : string) : string :=
  if found_after_start requireStatement "@system" || found_after_start requireStatement "@ohos"
  then replace_text requireStatement
         (replace_first "require" "requireModule" requireStatement) source
  else source.

(** [libReg = /^lib(.+)\.so$/]: the text between [lib] and [.so], when the
    whole text has this form and that part is not empty and holds no line
    terminator. *)
Definition libReg (item1 : string) : option string :=
  let inner := take (String.length item1 - 6) (drop 3 item1) in
  if String.prefix "lib" item1 && endsWith item1 ".so"
     && (7 <=? String.length item1)%nat && no_line_terminator inner
  then Some inner else None.

(** The callback of the last [replace]. *)
Definition rewrite_lib (item item1 : string) : string :=
  match libReg item1 with
  | Some inner => "requireNapi(" +:+ DQ +:+ inner +:+ DQ +:+ ", true)"
  | None => item
  end.

(** [parseRequireModule(source)] *)
Definition parseRequireModule (H : host) (E : env) (source : string) : string :=
  let requireMethod :=
    if env_is (DEVICE_LEVEL E) (LITE H) then requireMethod_lite else requireMethod_rich in
  let source := source +:+ NL +:+ requireMethod in
  let requireStatements := match_all requireReg source in
  let source := fold_left rewrite_statement requireStatements source in
  Json.regex_replace requireReg rewrite_lib source.

End Requires.

(** ** The notions the properties are stated with *)

Module Spec.
Import Util.

(** A query entry as it is rendered: omitted for [null] and [undefined], the
    bare key for [true], [key[]=v1,v2,...] for a list, [key=value] otherwise. *)
Definition render_pair (kv : string * qval) : option string :=
  match kv with
  | (_, QUndefined) | (_, QNull) => None
  | (k, QBool true) => Some k
  | (k, QArr vs) => Some (k +:+ "[]=" +:+ String.concat "," vs)
  | (k, QBool false) => Some (k +:+ "=false")
  | (k, QStr s) => Some (k +:+ "=" +:+ s)
  end.

Definition rendered_query (q : option (list (string * qval))) : list string :=
  match q with Some kvs => omap render_pair kvs | None => [] end.

(** A stage: its name, then [?] and the [&]-joined rendered entries when
    there are any. *)
Definition descriptor_stage (st : stage) : string :=
  match st with
  | StageString s => s
  | StageObject name q =>
      match rendered_query q with
      | [] => name
      | pairs => name +:+ "?" +:+ String.concat "&" pairs
      end
  end.

(** The stages in their order, with [!] between a stage and the next. *)
Fixpoint descriptor (stages : list stage) : string :=
  match stages with
  | [] => ""
  | [st] => descriptor_stage st
  | st :: rest => descriptor_stage st +:+ "!" +:+ descriptor rest
  end.

(** The generated lines that resolve to an original position, what they
    resolve to, and the entry one such line contributes. *)
Definition resolves (originalPositionFor : nat -> nat -> position) (line : nat) : bool :=
  truthy_opt_string (pos_source (originalPositionFor line 0)).

Definition original_at (originalPositionFor : nat -> nat -> position) (line : nat)
    : option nat * option nat :=
  (pos_line (originalPositionFor line 0), pos_column (originalPositionFor line 0)).

Definition record_line (originalPositionFor : nat -> nat -> position)
    (m : gmap string (option nat * option nat)) (line : nat)
    : gmap string (option nat * option nat) :=
  <[mapping_key line 0 := original_at originalPositionFor line]> m.

(** A props object in normalized form: every property is an object that
    has a [default] of its own. *)
Definition normalized (props : list (string * Json.json)) : Prop :=
  forall k, In k (map fst props) ->
  exists v, Json.lookup_prop k props = Some v /\ Json.has_default v = true.

(** Every property holds an object with a [default] of its own. *)
Definition all_default (props : list (string * Json.json)) : Prop :=
  Forall (fun kv => Json.has_default (snd kv) = true) props.

(** The diagnostic the card loader makes of a thrown value, and the world
    after [logWarn] was handed it. *)
Definition parse_failure (c : Json.context) (e : Json.exn) : log :=
  mkLog ("ERROR: Failed to parse the file : " +:+ Json.resourcePath c +:+ NL
         +:+ Json.exn_text e)
    None None.

Definition reported (E : env) (c : Json.context) (e : Json.exn) (w : Json.world)
    : Json.world :=
  {| Json.logged := (Json.logged w ++ [parse_failure c e])%list;
     Json.emitted :=
       (Json.emitted w
        ++ fst (logWarn (logLevel E) (Json.resourcePath c) [parse_failure c e]))%list;
     Json.sink := Json.sink w |}.

(** Every character of a text satisfies [p]. *)
Fixpoint all_chars (p : ascii -> bool) (s : string) : bool :=
  match s with
  | EmptyString => true
  | String c s' => p c && all_chars p s'
  end.

Definition is_not (q : ascii) (c : ascii) : bool := negb (Ascii.eqb c q).

(** An identifier: a non-empty text of word characters. *)
Definition identifier (w : string) : Prop := w <> "" /\ all_chars is_word w = true.

(** A pattern matches at no position of a text. *)
Fixpoint quiet (m : Json.matcher) (s : string) : Prop :=
  match s with
  | EmptyString => True
  | String c s' => (forall prev, m prev s = None) /\ quiet m s'
  end.

End Spec.

(** ** A host to run the model on

    POSIX paths that are already normalized: [join] and [resolve] put a [/]
    between their arguments, [join] dropping a leading [./] of the second,
    and a file exists when it is listed. *)

Module Example.
Import Util.

Definition is_slash (c : ascii) : bool := Ascii.eqb c "/"%char.

(** The text after the last [/], with [acc] what was read since the last one. *)
Fixpoint basename_go (acc : string) (p : string) : string :=
  match p with
  | EmptyString => acc
  | String c p' =>
      if is_slash c then basename_go EmptyString p'
      else basename_go (acc +:+ String c EmptyString) p'
  end.

Definition basename (p : string) : string := basename_go EmptyString p.

(** The text before the last [/]. *)
Definition dirname (p : string) : string :=
  take (String.length p - String.length (basename p) - 1) p.

(** The text from the last [.] of a name on, when that [.] is not its first
    character. *)
Fixpoint extname_go (ext : option string) (first : bool) (name : string) : string :=
  match name with
  | EmptyString => default EmptyString ext
  | String c name' =>
      if Ascii.eqb c "."%char && negb first
      then extname_go (Some (String c EmptyString)) false name'
      else extname_go (option_map (fun e => e +:+ String c EmptyString) ext) false name'
  end.

Definition extname (p : string) : string := extname_go None true (basename p).

Definition parse_name (p : string) : string :=
  take (String.length (basename p) - String.length (extname p)) (basename p).

(** A leading [./] of a relative path, which [join] drops. *)
Definition strip_dot_slash (p : string) : string :=
  if String.prefix "./" p then drop 2 p else p.

Definition listed (files : list string) (p : string) : bool :=
  existsb (String.eqb p) files.

Definition posix (files : list string) (reserved : string -> bool) : host :=
  {| path_sep := "/";
     path_basename := basename;
     path_dirname := dirname;
     path_extname := extname;
     path_parse_name := parse_name;
     path_join := fun a b => a +:+ "/" +:+ strip_dot_slash b;
     path_resolve1 := fun p => p;
     path_resolve := fun a b => a +:+ "/" +:+ b;
     existsSync := listed files;
     require_resolve := fun _ => None;
     stringifyRequest := fun request => DQ +:+ request +:+ DQ;
     isReservedTag := reserved;
     dirname__ := "/loader/lib";
     RICH := "rich";
     LITE := "lite" |}.

Definition no_reserved : string -> bool := fun _ => false.

(** A "page" build at level "rich" with diagnostics at level 1. *)
Definition page_env : env :=
  {| logLevel := Some 1%Z;
     DEVICE_LEVEL := Some "rich";
     abilityType := Some "page";
     aceManifestPath := Some "/app/manifest.json";
     projectPath := "/app" |}.

(** A "form" build of cards. *)
Definition card_env : env :=
  {| logLevel := Some 1%Z;
     DEVICE_LEVEL := Some "card";
     abilityType := Some "form";
     aceManifestPath := None;
     projectPath := "/app" |}.

(** A consumer in which the generated lines 2 and 5 alone resolve, and a
    generated text of six lines. *)
Definition sparse_consumer (line column : nat) : position :=
  if ((line =? 2) || (line =? 5))%nat
  then {| pos_source := Some "index.hml"; pos_line := Some (line * 10); pos_column := Some 4 |}
  else {| pos_source := None; pos_line := None; pos_column := None |}.

Definition six_lines : string :=
  "a" +:+ NL +:+ "b" +:+ NL +:+ "c" +:+ NL +:+ "d" +:+ NL +:+ "e" +:+ NL +:+ "f".

(** An engine whose imported rewriters leave the text as it is and whose
    evaluator yields [undefined], and the context of a card's script. *)
Definition plain_engine : Json.engine :=
  {| Json.ResourceReferenceParsing := fun source => source;
     Json.transCardArray := fun value => value;
     Json.eval_stringify := fun _ => inr None;
     Json.null_property_error := fun p =>
       Json.Thrown ("TypeError: Cannot read properties of null (reading '" +:+ p +:+ "')");
     Json.parse_undefined_error :=
       Json.Thrown "SyntaxError: undefined is not valid JSON" |}.

Definition card_context : Json.context :=
  {| Json.resourcePath := "/app/widget/pages/index/index.json";
     Json.resourceQuery := "";
     Json.entry := [("widget/pages/index/index", "/app/widget/pages/index/index.hml")];
     Json.output_path := "/out" |}.

(** An engine whose evaluator rejects every text. *)
Definition rejecting_engine : Json.engine :=
  {| Json.ResourceReferenceParsing := fun source => source;
     Json.transCardArray := fun value => value;
     Json.eval_stringify := fun _ => inl (Json.Thrown "SyntaxError: Unexpected token ':'");
     Json.null_property_error := Json.null_property_error plain_engine;
     Json.parse_undefined_error := Json.parse_undefined_error plain_engine |}.

(** An engine whose evaluator yields a literal with data and props. *)
Definition literal_engine : Json.engine :=
  {| Json.ResourceReferenceParsing := fun source => source;
     Json.transCardArray := fun value => value;
     Json.eval_stringify := fun _ =>
       inr (Some (Json.JObj [("data", Json.JObj [("count", Json.JNum 1)]);
                             ("props", Json.JArr [Json.JStr "a"])]));
     Json.null_property_error := Json.null_property_error plain_engine;
     Json.parse_undefined_error := Json.parse_undefined_error plain_engine |}.

(** The texts of the rewriting scenarios. *)
Definition this_count : string := "this.count".
Definition this_count_comma : string := "this.count,".
Definition quoted_event : string := DQ +:+ "$event.detail" +:+ DQ.
Definition bare_event : string := "$event.tap".
Definition card_literal : string :=
  "{ a: this.count," +:+ NL +:+ "  b: " +:+ DQ +:+ "$event.detail" +:+ DQ +:+ ", c: $event.tap }".

(** *** Three units: an entry that includes [b.hml] under the name [x],
    [b.hml] that includes [c.hml] under the name [x] *)

Definition markup_of_entry : string :=
  "<element name='x' src='./b.hml'></element><div><x></x></div>".
Definition markup_of_b : string :=
  "<element name='x' src='./c.hml'></element><div><x></x></div>".
Definition markup_of_page : string :=
  "<element name='comp' src='./missing.hml'></element><div><comp></comp></div>".

Definition markup_of_host : string :=
  "<element name='a' src='./index.hml'></element><div><a></a></div>".

(** The markup parser on these texts. *)
Definition parse (source : string) : list Loader.element :=
  if String.eqb source markup_of_entry then
    [{| Loader.el_name := Some "x"; Loader.el_src := Some "./b.hml" |}]
  else if String.eqb source markup_of_b then
    [{| Loader.el_name := Some "x"; Loader.el_src := Some "./c.hml" |}]
  else if String.eqb source markup_of_page then
    [{| Loader.el_name := Some "comp"; Loader.el_src := Some "./missing.hml" |}]
  else if String.eqb source markup_of_host then
    [{| Loader.el_name := Some "a"; Loader.el_src := Some "./index.hml" |}]
  else [].

Definition empty_world : Loader.world :=
  {| Loader.elements := ∅; Loader.logged := []; Loader.emitted := []; Loader.console := [] |}.

(** An entry unit, requested with [?entry]. *)
Definition entry_of (path : string) : Loader.context :=
  {| Loader.resourcePath := path;
     Loader.query_entry := true;
     Loader.query_name := None;
     Loader.query_parentPath := None;
     Loader.option_element := false;
     Loader.compilation_entries := None |}.

(** An included unit, requested with [?name=...&parentPath=...]. *)
Definition child_of (path name parentPath : string) : Loader.context :=
  {| Loader.resourcePath := path;
     Loader.query_entry := false;
     Loader.query_name := Some name;
     Loader.query_parentPath := Some parentPath;
     Loader.option_element := false;
     Loader.compilation_entries := None |}.

(** The files of a component directory [dir]. *)
Definition component_files (dir : string) : list string :=
  [dir +:+ "/index.hml"; dir +:+ "/b.hml"; dir +:+ "/c.hml"].

(** Compiling the entry [dir/name.hml] and then [dir/b.hml], requested as
    the entry's compilation asks for it. *)
Definition compile_entry (dir name : string) : string * Loader.world :=
  Loader.loader (posix (component_files dir) no_reserved) card_env parse
    (entry_of (dir +:+ "/" +:+ name +:+ ".hml")) markup_of_entry empty_world.

Definition compile_entry_then_b (dir name : string) : string * Loader.world :=
  Loader.loader (posix (component_files dir) no_reserved) card_env parse
    (child_of (dir +:+ "/b.hml") "x" (dir +:+ "/" +:+ name +:+ ".hml")) markup_of_b
    (snd (compile_entry dir name)).

(** Compiling a page whose custom element points to a file that does not
    exist, no file being listed. *)
Definition compile_page_missing_element : string * Loader.world :=
  Loader.loader (posix [] no_reserved) page_env parse
    (entry_of "/app/pages/index/index.hml") markup_of_page empty_world.

(** The entry [dir/index.hml] is also included, under the name [a], by the
    entry [dir/host.hml]: the compilations of [host.hml], of [index.hml] as
    its child, of [index.hml] as an entry, and of [b.hml]. *)
Definition compile_shared_entry_then_b (dir : string) : string * Loader.world :=
  let H := posix (component_files dir) no_reserved in
  let w1 := snd (Loader.loader H card_env parse (entry_of (dir +:+ "/host.hml"))
                   markup_of_host empty_world) in
  let w2 := snd (Loader.loader H card_env parse
                   (child_of (dir +:+ "/index.hml") "a" (dir +:+ "/host.hml"))
                   markup_of_entry w1) in
  let w3 := snd (Loader.loader H card_env parse (entry_of (dir +:+ "/index.hml"))
                   markup_of_entry w2) in
  Loader.loader H card_env parse
    (child_of (dir +:+ "/b.hml") "x" (dir +:+ "/index.hml")) markup_of_b w3.

End Example.

(** ** Further notions

    What the properties of the sink, the position map, the graph and the
    card values are stated with. *)

Module Notion.
Import Util.

(** The carriage return, and the number of times a character occurs. *)
Definition CR : string := String "013"%char EmptyString.

Fixpoint count_char (q : ascii) (s : string) : nat :=
  match s with
  | EmptyString => 0
  | String c s' => (if Ascii.eqb c q then 1 else 0) + count_char q s'
  end.

Definition is_emit_error (e : emission) : bool :=
  match e with EmitError _ => true | EmitWarning _ => false end.

(** The text [logWarn] emits for an Error entry. *)
Definition error_message (resourcePath : string) (l : log) : string :=
  message "errorStartERROR File：" resourcePath l "ERROR: " "errorEnd".

(** The generated lines of a text that resolve, in their order. *)
Definition resolved_lines (originalPositionFor : nat -> nat -> position) (target : string)
    : list nat :=
  filter (fun l => Spec.resolves originalPositionFor l = true)
         (seq 1 (length (splitSourceLine target))).

(** The name [loader] gives the unit it compiles. *)
Definition unit_name (H : host) (c : Loader.context) : string :=
  if Loader.query_entry c then path_parse_name H (Loader.resourcePath c)
  else match truthy (Loader.query_name c) with
       | Some n => n
       | None => getNameByPath H (Loader.resourcePath c)
       end.

(** The file a custom element points to, the name it is registered under,
    and whether the element loop goes past it: it has a [src], and the file
    exists or the [src] starts with neither [/] nor [.]. *)
Definition element_src (el : Loader.element) : string :=
  match truthy (Loader.el_src el) with
  | Some src0 => if endsWith src0 ".hml" then src0 else src0 +:+ ".hml"
  | None => ""
  end.

Definition element_name (H : host) (el : Loader.element) : string :=
  toLowerCase
    match truthy (Loader.el_name el) with
    | Some n => n
    | None => path_parse_name H (element_src el)
    end.

Definition element_passes (H : host) (c : Loader.context) (el : Loader.element) : bool :=
  match truthy (Loader.el_src el) with
  | Some _ =>
      negb (negb (existsSync H (path_join H (path_dirname H (Loader.resourcePath c))
                                  (element_src el)))
            && Loader.starts_with_slash_or_dot (element_src el))
  | None => false
  end.

(** The diagnostic of a name used twice in a scope. *)
Definition same_name (name : string) : log :=
  mkLog ("ERROR: The element name can not be same with the page "
         +:+ DQ +:+ name +:+ DQ +:+ " (ignore case).") None None.

(** One turn of the element loop on an element it goes past: the world
    after the turn and the text it adds. *)
Definition element_turn (H : host) (E : env) (c : Loader.context)
    (customLang : gmap string (list string)) (parentPath : Loader.jsval)
    (el : Loader.element) (w : Loader.world) : Loader.world :=
  let key := Loader.to_key parentPath in
  let w := Loader.with_elements (Loader.ensure_record key (Loader.elements w)) w in
  let w :=
    if Loader.truthy_val (Loader.get_prop (Loader.elements w) key (element_name H el)) then
      Loader.warn E c ("ERROR: The element name can not be same with the page "
                       +:+ DQ +:+ element_name H el +:+ DQ +:+ " (ignore case).") w
    else
      Loader.with_elements
        (Loader.set_prop key (element_name H el) Loader.VTrue (Loader.elements w)) w in
  Loader.checkEntry H E c
    (path_join H (path_dirname H (Loader.resourcePath c)) (element_src el))
    (default "" (truthy (Loader.el_src el))) w.

Definition element_text (H : host) (E : env) (customLang : gmap string (list string))
    (parentPath : Loader.jsval) (el : Loader.element) : string :=
  getRequireString H
    (Loader.getLoaderString H E Loader.KElement
       {| Loader.lang := None; Loader.customLang := customLang;
          Loader.source := Some (element_src el); Loader.app := false |})
    (element_src el +:+ "?name=" +:+ element_name H el +:+ "&parentPath="
     +:+ Loader.to_key parentPath).

(** The reference the element loop emits for a custom element. *)
Definition child_require (H : host) (parentPath : Loader.jsval) (el : Loader.element)
    : string :=
  "require(" +:+
  stringifyRequest H
    ("!!" +:+ Loader.defaultLoaders_main H +:+ "!" +:+ element_src el
     +:+ "?name=" +:+ element_name H el
     +:+ "&parentPath=" +:+ Loader.to_key parentPath)
  +:+ ")" +:+ NL.

(** The diagnostic of a reserved file name. *)
Definition reserved_name (name : string) : log :=
  mkLog ("ERROR: The file name cannot contain reserved tag name: " +:+ name) None None.

(** The [parentPath] the loader starts from. *)
Definition query_parent (c : Loader.context) : string :=
  match truthy (Loader.query_parentPath c) with
  | Some p => p
  | None => Loader.resourcePath c
  end.

(** The reason the element loop gives for an element it does not go past. *)
Definition element_failure (el : Loader.element) : string :=
  match truthy (Loader.el_src el) with
  | Some _ =>
      "ERROR: The file path of custom element does not exist, src: " +:+ element_src el
  | None => "ERROR: src attributes must be set for custom elements."
  end.

(** The style reference of a page: the chain and the file. *)
Definition style_reference (H : host) (chain fileName : string) : string :=
  "var $app_style$ = " +:+ getRequireString H chain fileName.

(** The chain of a plain style sheet, and of one that needs the stage [L]. *)
Definition plain_style_chain (H : host) : string :=
  Loader.defaultLoaders_json H +:+ "!" +:+ Loader.defaultLoaders_style H.

Definition custom_style_chain (H : host) (L : string) : string :=
  Loader.defaultLoaders_json H +:+ "!" +:+ Loader.defaultLoaders_style H +:+ "!" +:+ L.

(** The warning of a custom element that is a page of the build. *)
Definition page_as_element (elementSrc : string) : log :=
  mkLog ("WARNING: The page " +:+ DQ +:+ elementSrc +:+ DQ
         +:+ " configured in 'config.json'"
         +:+ " can not be uesd as a custom component."
         +:+ "To ensure that the debugging function is normal, please delete this page in 'config.json'.")
    None None.

(** The markup file of an entry of the build. *)
Definition entry_markup (H : host) (E : env) (key : string) : string :=
  path_join H (path_resolve1 H (projectPath E)) (key +:+ ".hml").

(** The warning of a props array item that is not a string. *)
Definition props_item_warning (item : Json.json) : log :=
  mkLog ("WARNING: The props value type should be 'string', not '"
         +:+ Json.typeof item +:+ "' in props array in custom elements.") None None.

Definition props_default_warning : log :=
  mkLog "WARNING: The props default value type can only be Object in custom elements."
    None None.

(** An action with its [method] in lowercase: an object whose [method] is
    a string gets the lowercased string, every other value stays. *)
Definition lowered (v : Json.json) : Json.json :=
  match v with
  | Json.JObj inner =>
      match Json.lookup_prop "method" inner with
      | Some (Json.JStr m) =>
          if String.eqb (toLowerCase m) m then v
          else Json.JObj (Json.set_prop "method" (Json.JStr (toLowerCase m)) inner)
      | _ => v
      end
  | _ => v
  end.

(** An entry of the build whose first import lies in another directory than
    the resource. *)
Definition elsewhere (H : host) (c : Json.context) (kv : string * string) : bool :=
  negb (String.eqb (path_dirname H (path_resolve1 H (snd kv)))
                   (path_dirname H (Json.resourcePath c))).

(** The world [w'] holds what [w] holds, followed by more. *)
Definition extends (w w' : Json.world) : Prop :=
  (exists more, Json.logged w' = (Json.logged w ++ more)%list) /\
  (exists more, Json.emitted w' = (Json.emitted w ++ more)%list) /\
  (exists more, Json.sink w' = (Json.sink w ++ more)%list).

(** A computation only adds to the world. *)
Definition adding {A} (m : Json.M A) : Prop := forall w, extends w (snd (m w)).

(** A pattern matches at no position of [a] when [a] is followed by
    [rest]. *)
Fixpoint misses (m : Json.matcher) (a rest : string) : Prop :=
  match a with
  | EmptyString => True
  | String c a' => (forall prev, m prev (a +:+ rest) = None) /\ misses m a' rest
  end.

(** No call [require('...')] starts at a position of the text. *)
Fixpoint no_require (s : string) : bool :=
  match s with
  | EmptyString => true
  | String c s' =>
      match Requires.requireReg None s with
      | None => no_require s'
      | Some _ => false
      end
  end.

(** The text [parseRequireModule] appends. *)
Definition requireMethod (H : host) (E : env) : string :=
  if env_is (DEVICE_LEVEL E) (LITE H)
  then Requires.requireMethod_lite else Requires.requireMethod_rich.

(** A call of [require] on the module [m], quoted with [q], and the calls
    it is rewritten to. *)
Definition call (q : ascii) (m : string) : string :=
  "require(" +:+ String q (m +:+ String q ")").

Definition module_call (q : ascii) (m : string) : string :=
  "requireModule(" +:+ String q (m +:+ String q ")").

Definition napi_call (name : string) : string :=
  "requireNapi(" +:+ DQ +:+ name +:+ DQ +:+ ", true)".

End Notion.

(** ** Further inputs to run the model on *)

Module Sample.
Import Util.

(** A POSIX host on which every module resolves under [/app/node_modules]. *)
Definition node_host (files : list string) : host :=
  {| path_sep := "/";
     path_basename := Example.basename;
     path_dirname := Example.dirname;
     path_extname := Example.extname;
     path_parse_name := Example.parse_name;
     path_join := fun a b => a +:+ "/" +:+ Example.strip_dot_slash b;
     path_resolve1 := fun p => p;
     path_resolve := fun a b => a +:+ "/" +:+ b;
     existsSync := Example.listed files;
     require_resolve := fun m => Some ("/app/node_modules/" +:+ m +:+ "/lib/index.js");
     stringifyRequest := fun request => DQ +:+ request +:+ DQ;
     isReservedTag := Example.no_reserved;
     dirname__ := "/loader/lib";
     RICH := "rich";
     LITE := "lite" |}.

(** A page with two custom elements, and one whose two elements differ in
    case only. *)
Definition two_children : list Loader.element :=
  [{| Loader.el_name := Some "x"; Loader.el_src := Some "./b.hml" |};
   {| Loader.el_name := None; Loader.el_src := Some "./c" |}].

Definition comp_upper : Loader.element :=
  {| Loader.el_name := Some "Comp"; Loader.el_src := Some "./b.hml" |}.

Definition comp_lower : Loader.element :=
  {| Loader.el_name := Some "comp"; Loader.el_src := Some "./c.hml" |}.

Definition comp_missing : Loader.element :=
  {| Loader.el_name := Some "m"; Loader.el_src := Some "./missing.hml" |}.

Definition index_page : Loader.context := Example.entry_of "/app/pages/index/index.hml".

Definition index_host : host :=
  Example.posix (Example.component_files "/app/pages/index") Example.no_reserved.

(** A script that is not the application script. *)
Definition script_unit : Loader.context :=
  {| Loader.resourcePath := "/app/common/util.js";
     Loader.query_entry := false;
     Loader.query_name := None;
     Loader.query_parentPath := None;
     Loader.option_element := false;
     Loader.compilation_entries := None |}.

(** A host on which [div] is a reserved tag. *)
Definition div_reserved : host := Example.posix [] (fun name => String.eqb name "div").

(** The style sheet of a card. *)
Definition style_context : Json.context :=
  {| Json.resourcePath := "/app/widget/pages/index/index.css";
     Json.resourceQuery := "";
     Json.entry := [("widget/pages/index/index", "/app/widget/pages/index/index.hml")];
     Json.output_path := "/out" |}.

(** A props array with an item that is no string, props with a [null]
    default, and an action whose method has uppercase letters. *)
Definition mixed_items : list Json.json := [Json.JStr "title"; Json.JNum 1].

Definition props_with_null : list (string * Json.json) :=
  [("a", Json.JObj [("default", Json.JStr "x")]); ("b", Json.JNull)].

Definition router_action : list (string * Json.json) :=
  [("go", Json.JObj [("method", Json.JStr "RouterEvent"); ("params", Json.JObj [])])].

End Sample.

(** * Properties *)

Import Util.

(** ** Strings *)

Lemma prefix_cons (a b : ascii) (p s : string) :
  String.prefix (String a p) (String b s) = Ascii.eqb a b && String.prefix p s.
Proof.
  cbn [String.prefix]. destruct (ascii_dec a b) as [-> | Hne].
  - now rewrite Ascii.eqb_refl.
  - apply Ascii.eqb_neq in Hne. now rewrite Hne.
Qed.

Lemma append_cons (c : ascii) (s t : string) : String c s +:+ t = String c (s +:+ t).
Proof. reflexivity. Qed.

Lemma append_empty_l (s : string) : "" +:+ s = s.
Proof. reflexivity. Qed.

Lemma append_empty_r (s : string) : s +:+ "" = s.
Proof.
  induction s as [| c s IH]; [reflexivity |]. rewrite append_cons. now f_equal.
Qed.

Lemma append_assoc (a b c : string) : (a +:+ b) +:+ c = a +:+ (b +:+ c).
Proof.
  induction a as [| x a IH]; [reflexivity |]. rewrite !append_cons. now f_equal.
Qed.

Lemma join_loop (sep : string) (arr : list string) (R : string) :
  snd (fold_left (join_step sep) arr (false, R))
  = R +:+ fold_right (fun x rest => sep +:+ x +:+ rest) "" arr.
Proof.
  revert R. induction arr as [| x arr IH]; intros R; cbn [fold_left fold_right].
  - cbn. now rewrite append_empty_r.
  - cbn [join_step]. rewrite IH. now rewrite !append_assoc.
Qed.

Lemma concat_cons (sep x : string) (arr : list string) :
  String.concat sep (x :: arr) = x +:+ fold_right (fun y rest => sep +:+ y +:+ rest) "" arr.
Proof.
  revert x. induction arr as [| y arr IH]; intros x.
  - cbn. now rewrite append_empty_r.
  - cbn [fold_right]. rewrite <- IH. reflexivity.
Qed.

(** The loop of [join] computes the concatenation with separators. *)
Lemma join_concat (sep : string) (arr : list string) : join sep arr = String.concat sep arr.
Proof.
  unfold join. destruct arr as [| x arr]; [reflexivity |].
  cbn [fold_left join_step]. rewrite join_loop, concat_cons. reflexivity.
Qed.

(** ** The diagnostics sink *)

Section SinkFacts.
Variable logLevel : option Z.
Variable resourcePath : string.

Lemma error_is_not_note (l : log) : isError l = true -> isNote l = false.
Proof.
  unfold isError, isNote, startsWith. destruct (reason l) as [| c r]; [discriminate |].
  rewrite !prefix_cons. destruct (Ascii.eqb "E" c) eqn:Hc; [| discriminate].
  apply Ascii.eqb_eq in Hc. subst c. reflexivity.
Qed.

Lemma error_is_not_warn (l : log) : isError l = true -> isWarn l = false.
Proof.
  unfold isError, isWarn, startsWith. destruct (reason l) as [| c r]; [discriminate |].
  rewrite !prefix_cons. destruct (Ascii.eqb "E" c) eqn:Hc; [| discriminate].
  apply Ascii.eqb_eq in Hc. subst c. reflexivity.
Qed.

(** One turn of the loop raises the flag exactly on an Error entry that the
    level lets through. *)
Lemma logWarn_step_flag (out : list emission) (flag : bool) (l : log) :
  snd (logWarn_step logLevel resourcePath (out, flag) l)
  = flag || (isError l && level_le logLevel 3).
Proof.
  unfold logWarn_step. fold (isNote l) (isWarn l) (isError l).
  destruct (isError l) eqn:He.
  - rewrite (error_is_not_note l He), (error_is_not_warn l He). simpl.
    destruct (level_le logLevel 3); simpl; [now rewrite orb_true_r | now rewrite orb_false_r].
  - simpl. rewrite orb_false_r.
    destruct (isNote l && level_le logLevel 1); [reflexivity |].
    destruct (isWarn l && level_le logLevel 2); reflexivity.
Qed.

Lemma logWarn_fold_flag (logs : list log) (st : list emission * bool) :
  snd (fold_left (logWarn_step logLevel resourcePath) logs st)
  = snd st || (existsb isError logs && level_le logLevel 3).
Proof.
  revert st. induction logs as [| l logs IH]; intros [out flag]; cbn [fold_left existsb snd].
  - now rewrite orb_false_r.
  - rewrite IH, logWarn_step_flag.
    destruct flag, (isError l), (level_le logLevel 3), (existsb isError logs); reflexivity.
Qed.

(** The flag [logWarn] returns, for every level and every list. *)
Lemma logWarn_flag (logs : list log) :
  snd (logWarn logLevel resourcePath logs)
  = level_positive logLevel && level_le logLevel 3 && existsb isError logs.
Proof.
  unfold logWarn. destruct (level_positive logLevel); simpl; [| reflexivity].
  destruct logs as [| l logs]; [now rewrite andb_false_r |].
  rewrite logWarn_fold_flag. simpl snd. rewrite orb_false_l. apply andb_comm.
Qed.

Lemma no_error_among_notes_and_warns (logs : list log) :
  Forall (fun l => isNote l = true \/ isWarn l = true) logs ->
  existsb isError logs = false.
Proof.
  induction 1 as [| l logs Hl _ IH]; simpl; [reflexivity |].
  rewrite IH, orb_false_r. destruct (isError l) eqn:He; [| reflexivity].
  destruct Hl as [Hn | Hw].
  - now rewrite (error_is_not_note l He) in Hn.
  - now rewrite (error_is_not_warn l He) in Hw.
Qed.

End SinkFacts.

(** C3 (as amended). The flag [logWarn] returns is [false] for a list of
    Note and Warn entries only, whatever the level; and when the configured
    level is 1, 2 or 3 the flag is [true] exactly when the list holds an Error
    entry, so that within these levels it does not depend on which Note and
    Warn entries the level lets through. *)
Theorem C3_error_gating (logLevel : option Z) (resourcePath : string) (logs : list log) :
  (Forall (fun l => isNote l = true \/ isWarn l = true) logs ->
   snd (logWarn logLevel resourcePath logs) = false) /\
  (forall n : Z, logLevel = Some n -> (1 <= n <= 3)%Z ->
   snd (logWarn logLevel resourcePath logs) = existsb isError logs).
Proof.
  split.
  - intros Hall. rewrite logWarn_flag, (no_error_among_notes_and_warns logs Hall).
    now rewrite andb_false_r.
  - intros n -> Hn. rewrite logWarn_flag. unfold level_positive, level_le.
    replace (0 <? n)%Z with true by (symmetry; apply Z.ltb_lt; lia).
    replace (n <=? 3)%Z with true by (symmetry; apply Z.leb_le; lia).
    reflexivity.
Qed.

Lemma C3_error_gating_witness :
  snd (logWarn (Some 2%Z) "/p/index.hml"
         [mkLog "NOTE: n" None None; mkLog "WARNING: w" None None]) = false /\
  snd (logWarn (Some 2%Z) "/p/index.hml"
         [mkLog "NOTE: n" None None; mkLog "ERROR: e" None None]) = true.
Proof.
  split.
  - apply (proj1 (C3_error_gating (Some 2%Z) "/p/index.hml"
                    [mkLog "NOTE: n" None None; mkLog "WARNING: w" None None])).
    constructor; [left; reflexivity |].
    constructor; [right; reflexivity | constructor].
  - apply (proj2 (C3_error_gating (Some 2%Z) "/p/index.hml"
                    [mkLog "NOTE: n" None None; mkLog "ERROR: e" None None]) 2%Z eq_refl).
    split; discriminate.
Defined.

(** C3 (as stated) fails: with the level at 4, at 0, or unset, a list that
    holds an Error entry yields the flag [false]. *)
Lemma C3_counterexample :
  existsb isError [mkLog "ERROR: e" None None] = true /\
  snd (logWarn (Some 4%Z) "/p/index.hml" [mkLog "ERROR: e" None None]) = false /\
  snd (logWarn (Some 0%Z) "/p/index.hml" [mkLog "ERROR: e" None None]) = false /\
  snd (logWarn None "/p/index.hml" [mkLog "ERROR: e" None None]) = false.
Proof. repeat split; reflexivity. Qed.

(** ** Chain descriptors *)

Lemma query_step_render (query : list string) (kv : string * qval) :
  query_step query kv
  = (query ++ match Spec.render_pair kv with Some p => [p] | None => [] end)%list.
Proof.
  destruct kv as [k [| | [|] | s | vs]]; cbn [query_step Spec.render_pair qval_to_string];
    unfold push; rewrite ?join_concat; try reflexivity; now rewrite app_nil_r.
Qed.

Lemma query_loop_render (kvs : list (string * qval)) (query : list string) :
  fold_left query_step kvs query = (query ++ omap Spec.render_pair kvs)%list.
Proof.
  revert query. induction kvs as [| kv kvs IH]; intros query; cbn [fold_left].
  - cbn. now rewrite app_nil_r.
  - rewrite IH, query_step_render. rewrite <- app_assoc. f_equal.
    change (omap Spec.render_pair (kv :: kvs))
      with (match Spec.render_pair kv with
            | Some p => p :: omap Spec.render_pair kvs
            | None => omap Spec.render_pair kvs
            end).
    destruct (Spec.render_pair kv); reflexivity.
Qed.

Lemma stringifyLoader_descriptor_stage (st : stage) :
  stringifyLoader st = Spec.descriptor_stage st.
Proof.
  destruct st as [s | name q]; [reflexivity |].
  unfold stringifyLoader, Spec.descriptor_stage, Spec.rendered_query.
  destruct q as [kvs |].
  - rewrite query_loop_render. cbn [app].
    destruct (omap Spec.render_pair kvs) as [| p ps]; cbn [length Nat.ltb Nat.leb].
    + apply append_empty_r.
    + now rewrite join_concat.
  - cbn. apply append_empty_r.
Qed.

Lemma descriptor_concat (stages : list stage) :
  Spec.descriptor stages = String.concat "!" (map Spec.descriptor_stage stages).
Proof.
  induction stages as [| st [| st' rest] IH]; [reflexivity | reflexivity |].
  change (Spec.descriptor (st :: st' :: rest))
    with (Spec.descriptor_stage st +:+ "!" +:+ Spec.descriptor (st' :: rest)).
  rewrite IH. reflexivity.
Qed.

Lemma descriptor_app (a b : list stage) :
  a <> [] -> b <> [] ->
  Spec.descriptor (a ++ b) = Spec.descriptor a +:+ "!" +:+ Spec.descriptor b.
Proof.
  intros Ha Hb. induction a as [| st [| st' rest] IH]; [contradiction | |].
  - destruct b as [| st' b]; [contradiction | reflexivity].
  - change (Spec.descriptor ((st :: st' :: rest) ++ b))
      with (Spec.descriptor_stage st +:+ "!" +:+ Spec.descriptor ((st' :: rest) ++ b)).
    change (Spec.descriptor (st :: st' :: rest))
      with (Spec.descriptor_stage st +:+ "!" +:+ Spec.descriptor (st' :: rest)).
    rewrite IH by discriminate. now rewrite !append_assoc.
Qed.



(** ** The script chain *)

Section ResolverFacts.
Import Loader.
Variable H : host.
Variable E : env.

Lemma manifest_wanted_iff (c : config) :
  manifest_wanted H E c = true <->
  app c = true /\ abilityType E = Some "page" /\
  exists p, aceManifestPath E = Some p /\ existsSync H p = true.
Proof.
  unfold manifest_wanted, env_is. split.
  - intros Hw. apply andb_prop in Hw as [Hw Hm]. apply andb_prop in Hw as [Ha Hp].
    split; [exact Ha |]. split.
    + destruct (abilityType E) as [a |]; [| discriminate].
      apply String.eqb_eq in Hp. now subst a.
    + destruct (aceManifestPath E) as [p |]; [| discriminate]. now exists p.
  - intros (-> & -> & p & -> & ->). reflexivity.
Qed.

Lemma last_push {A} (l : list A) (x : A) : last (push l x) = Some x.
Proof. unfold push. apply last_snoc. Qed.

End ResolverFacts.

(** C6. For a script asset the chain starts with the script stage. When a
    custom transform is configured for the declared language (the loader
    [loadCustomLoader] finds is truthy) that transform follows and neither the
    babel stage nor the resource-reference stage is present; otherwise these
    two follow, in this order. A manifest stage whose query holds the asset's
    source under [path] is the last stage exactly when the asset is the
    application's script, the ability type is "page" and the manifest file
    exists; in no other case does the chain hold such a stage. The string
    [getLoaderString] returns for the kind [script] serializes this chain. *)
Theorem C6_script_chain (H : host) (E : env) (c : Loader.config) :
  let customLoader := Loader.loadCustomLoader H c in
  let chain := Loader.scriptLoaders H E c customLoader in
  let base := StageObject (Loader.defaultLoaders_script H) None in
  let babel :=
    StageObject (Loader.name_of (Loader.defaultLoaders_babel H)) (Some (Loader.isTargets H E)) in
  let rewriting := StageObject (Loader.defaultLoaders_resourceReferenceScript H) None in
  let manifest :=
    StageObject (Loader.defaultLoaders_manifest H) (Some [("path", Loader.qstr (Loader.source c))]) in
  let tail := if Loader.manifest_wanted H E c then [manifest] else [] in
  (forall l, truthy customLoader = Some l -> chain = base :: StageString l :: tail) /\
  (truthy customLoader = None -> chain = base :: babel :: rewriting :: tail) /\
  (last chain = Some manifest <->
   Loader.app c = true /\ abilityType E = Some "page" /\
   exists p, aceManifestPath E = Some p /\ existsSync H p = true) /\
  (In manifest chain -> last chain = Some manifest) /\
  Loader.getLoaderString H E Loader.KScript c = stringifyLoaders chain.
Proof.
  intros customLoader chain base babel rewriting manifest tail.
  assert (Hcustom : forall l, truthy customLoader = Some l ->
                              chain = base :: StageString l :: tail).
  { intros l Hl. unfold chain, Loader.scriptLoaders. rewrite Hl.
    unfold tail, push. destruct (Loader.manifest_wanted H E c); reflexivity. }
  assert (Hdefault : truthy customLoader = None ->
                     chain = base :: babel :: rewriting :: tail).
  { intros Hn. unfold chain, Loader.scriptLoaders. rewrite Hn.
    unfold tail, push. destruct (Loader.manifest_wanted H E c); reflexivity. }
  assert (Hlast : last chain = Some manifest <-> Loader.manifest_wanted H E c = true).
  { destruct (truthy customLoader) as [l |] eqn:Hl.
    - rewrite (Hcustom l eq_refl). unfold tail.
      destruct (Loader.manifest_wanted H E c); cbn; unfold manifest;
        (split; intros Hx; [reflexivity || discriminate Hx ..]).
    - rewrite (Hdefault eq_refl). unfold tail.
      destruct (Loader.manifest_wanted H E c); cbn; unfold manifest;
        (split; intros Hx; [reflexivity || discriminate Hx ..]). }
  split; [exact Hcustom |]. split; [exact Hdefault |].
  split; [rewrite Hlast; apply manifest_wanted_iff |].
  split; [| reflexivity].
  intros Hin. apply Hlast.
  destruct (truthy customLoader) as [l |] eqn:Hl.
  - rewrite (Hcustom l eq_refl) in Hin. unfold tail in Hin.
    destruct (Loader.manifest_wanted H E c); [reflexivity |].
    cbn in Hin. unfold manifest, base in Hin.
    destruct Hin as [Hx | [Hx | []]]; discriminate Hx.
  - rewrite (Hdefault eq_refl) in Hin. unfold tail in Hin.
    destruct (Loader.manifest_wanted H E c); [reflexivity |].
    cbn in Hin. unfold manifest, base, babel, rewriting, Loader.isTargets, push in Hin.
    destruct Hin as [Hx | [Hx | [Hx | []]]]; try discriminate Hx.
    destruct (env_is (DEVICE_LEVEL E) (RICH H)); discriminate Hx.
Qed.

Lemma C6_script_chain_witness :
  let H := Example.posix ["/app/manifest.json"] Example.no_reserved in
  let E := Example.page_env in
  let custom :=
    {| Loader.lang := Some "ts"; Loader.customLang := {["ts" := ["ts-loader"]]};
       Loader.source := Some "/app/app.js"; Loader.app := true |} in
  let plain :=
    {| Loader.lang := None; Loader.customLang := Loader.options_lang;
       Loader.source := Some "/app/pages/index/index.js"; Loader.app := false |} in
  Loader.scriptLoaders H E custom (Loader.loadCustomLoader H custom)
  = [StageObject "/loader/lib/script.js" None;
     StageString "ts-loader";
     StageObject "/loader/lib/manifest-loader.js" (Some [("path", QStr "/app/app.js")])] /\
  Loader.scriptLoaders H E plain (Loader.loadCustomLoader H plain)
  = [StageObject "/loader/lib/script.js" None;
     StageObject "babel-loader"
       (Some [("extends", QStr "/loader/lib/../babel.config.js"); ("targets", QStr "node 8")]);
     StageObject "/loader/lib/resource-reference-script.js" None].
Proof.
  intros H E custom plain. split.
  - apply (proj1 (C6_script_chain H E custom) "ts-loader"). reflexivity.
  - apply (proj1 (proj2 (C6_script_chain H E plain))). reflexivity.
Defined.

(** ** The position map *)

Section PositionMapFacts.
Import Spec.
Variable opf : nat -> nat -> position.

Lemma consumeMap_step_resolves (st : consumed) (i : nat) :
  resolves opf (i + 1) = true ->
  consumeMap_step opf st i =
  {| cm_source := pos_source (opf (i + 1) 0);
     cm_original := (cm_original st ++ [original_at opf (i + 1)])%list;
     cm_generated := (cm_generated st ++ [(i + 1, 0)])%list;
     cm_mapping := record_line opf (cm_mapping st) (i + 1) |}.
Proof. unfold resolves, consumeMap_step. intros ->. reflexivity. Qed.

Lemma consumeMap_step_skips (st : consumed) (i : nat) :
  resolves opf (i + 1) = false -> consumeMap_step opf st i = st.
Proof. unfold resolves, consumeMap_step. intros ->. reflexivity. Qed.

(** The loop visits the lines in order and records exactly those that
    resolve. *)
Lemma consumeMap_loop (first count : nat) (st : consumed) :
  let lines := filter (fun l => resolves opf l = true) (seq (first + 1) count) in
  let st' := fold_left (consumeMap_step opf) (seq first count) st in
  cm_mapping st' = fold_left (record_line opf) lines (cm_mapping st) /\
  cm_generated st' = (cm_generated st ++ map (fun l => (l, 0)) lines)%list /\
  cm_original st' = (cm_original st ++ map (original_at opf) lines)%list.
Proof.
  revert first st. induction count as [| count IH]; intros first st; cbn zeta.
  - cbn. now rewrite !app_nil_r.
  - cbn [seq fold_left]. specialize (IH (S first) (consumeMap_step opf st first)).
    cbn zeta in IH. destruct IH as (IHm & IHg & IHo).
    rewrite IHm, IHg, IHo. rewrite filter_cons.
    replace (S first + 1) with (S (first + 1)) by lia.
    destruct (decide (resolves opf (first + 1) = true)) as [Hr | Hr].
    + rewrite (consumeMap_step_resolves _ _ Hr). cbn. rewrite <- !app_assoc. auto.
    + apply not_true_is_false in Hr. rewrite (consumeMap_step_skips _ _ Hr). auto.
Qed.

Lemma filter_none {A} (P : A -> Prop) `{!forall x, Decision (P x)} (l : list A) :
  (forall x, x ∈ l -> ~ P x) -> filter P l = [].
Proof.
  induction l as [| x l IH]; intros Hl; [reflexivity |].
  rewrite filter_cons_False by (apply Hl; left).
  apply IH. intros y Hy. apply Hl. now right.
Qed.

Lemma resolved_lines_2_5 (n : nat) :
  5 <= n ->
  (forall l, 1 <= l <= n -> (resolves opf l = true <-> l = 2 \/ l = 5)) ->
  filter (fun l => resolves opf l = true) (seq 1 n) = [2; 5].
Proof.
  intros Hn Hr. replace n with (5 + (n - 5)) by lia.
  rewrite seq_app, filter_app.
  rewrite (filter_none _ (seq (1 + 5) (n - 5))).
  2:{ intros l Hl Hres. apply elem_of_seq in Hl. apply Hr in Hres; lia. }
  cbn [seq]. rewrite app_nil_r.
  rewrite filter_cons_False by (intros Hres; apply Hr in Hres; lia).
  rewrite filter_cons_True by (apply Hr; lia).
  rewrite filter_cons_False by (intros Hres; apply Hr in Hres; lia).
  rewrite filter_cons_False by (intros Hres; apply Hr in Hres; lia).
  rewrite filter_cons_True by (apply Hr; lia).
  reflexivity.
Qed.

End PositionMapFacts.

(** C9. When the generated text has at least five lines and, of its lines,
    exactly the lines 2 and 5 resolve at column 0 to an original position (a
    truthy source), the mapping [consumeMap] builds has exactly two entries,
    under the keys of the generated lines 2 and 5, each holding the original
    line and column; the [generated] list holds these two lines and no
    other line contributes an entry. *)
Theorem C9_sparse_position_map (opf : nat -> nat -> position) (target : string) :
  let n := length (splitSourceLine target) in
  5 <= n ->
  (forall l, 1 <= l <= n -> (Spec.resolves opf l = true <-> l = 2 \/ l = 5)) ->
  let r := consumeMap opf target in
  size (cm_mapping r) = 2 /\
  dom (cm_mapping r) = ({[mapping_key 2 0; mapping_key 5 0]} : gset string) /\
  cm_mapping r !! mapping_key 2 0 = Some (Spec.original_at opf 2) /\
  cm_mapping r !! mapping_key 5 0 = Some (Spec.original_at opf 5) /\
  cm_generated r = [(2, 0); (5, 0)].
Proof.
  intros n Hn Hr r.
  assert (Hkeys : mapping_key 5 0 <> mapping_key 2 0).
  { intros Heq. vm_compute in Heq. discriminate Heq. }
  destruct (consumeMap_loop opf 0 n
              {| cm_source := None; cm_original := []; cm_generated := [];
                 cm_mapping := ∅ |}) as (Hm & Hg & _).
  cbn zeta in Hm, Hg. change (0 + 1) with 1 in Hm, Hg.
  rewrite (resolved_lines_2_5 opf n Hn Hr) in Hm, Hg.
  fold n in r. unfold r, consumeMap. fold n. rewrite Hm, Hg.
  cbn [fold_left cm_mapping cm_generated map app]. unfold Spec.record_line.
  split.
  { rewrite map_size_insert_None
      by (rewrite lookup_insert_ne by (intros Heq; now apply Hkeys); apply lookup_empty).
    rewrite map_size_insert_None by apply lookup_empty.
    now rewrite map_size_empty. }
  split.
  { rewrite !dom_insert_L, dom_empty_L. set_solver. }
  split.
  { rewrite lookup_insert_ne by exact Hkeys. apply lookup_insert_eq. }
  split; [apply lookup_insert_eq | reflexivity].
Qed.

Lemma C9_sparse_position_map_witness :
  let r := consumeMap Example.sparse_consumer Example.six_lines in
  size (cm_mapping r) = 2 /\
  dom (cm_mapping r) = ({[mapping_key 2 0; mapping_key 5 0]} : gset string) /\
  cm_mapping r !! mapping_key 2 0 = Some (Some 20, Some 4) /\
  cm_mapping r !! mapping_key 5 0 = Some (Some 50, Some 4) /\
  cm_generated r = [(2, 0); (5, 0)].
Proof.
  apply (C9_sparse_position_map Example.sparse_consumer Example.six_lines).
  - vm_compute. lia.
  - intros l _. unfold Spec.resolves, Example.sparse_consumer.
    destruct ((l =? 2) || (l =? 5))%nat eqn:Hc; cbn.
    + apply orb_true_iff in Hc. rewrite !Nat.eqb_eq in Hc. split; [intros _; exact Hc | reflexivity].
    + apply orb_false_iff in Hc. rewrite !Nat.eqb_neq in Hc.
      split; [discriminate | lia].
Defined.

(** ** Props normalization *)

Section PropsFacts.
Import Json.
Variable E : env.
Variable G : engine.
Variable c : context.

Lemma lookup_prop_in (k : string) (props : list (string * json)) :
  In k (map fst props) -> exists v, lookup_prop k props = Some v.
Proof.
  induction props as [| [k' v'] props IH]; cbn; [intros [] |].
  intros [-> | Hin].
  - rewrite String.eqb_refl. eauto.
  - destruct (String.eqb k' k); eauto.
Qed.

Lemma lookup_replace_prop (k k' : string) (v : json) (props : list (string * json)) :
  lookup_prop k' (replace_prop k v props)
  = if String.eqb k k' then (match lookup_prop k props with Some _ => Some v | None => None end)
    else lookup_prop k' props.
Proof.
  induction props as [| [k0 v0] props IH]; cbn.
  - now destruct (String.eqb k k').
  - destruct (String.eqb k0 k) eqn:H0; cbn.
    + apply String.eqb_eq in H0. subst k0.
      destruct (String.eqb k k') eqn:Hk; reflexivity.
    + rewrite IH. destruct (String.eqb k k') eqn:Hk.
      * apply String.eqb_eq in Hk. subst k'. now rewrite H0.
      * reflexivity.
Qed.

Lemma keys_replace_prop (k : string) (v : json) (props : list (string * json)) :
  map fst (replace_prop k v props) = map fst props.
Proof.
  induction props as [| [k0 v0] props IH]; cbn; [reflexivity |].
  destruct (String.eqb k0 k) eqn:H0; cbn.
  - apply String.eqb_eq in H0. now subst.
  - now rewrite IH.
Qed.

(** A pass over keys of a normalized object changes nothing and warns of nothing. *)
Lemma props_object_loop_fixed (props : list (string * json)) (ks : list string) (w : world) :
  (forall k, In k ks -> exists v, lookup_prop k props = Some v /\ has_default v = true) ->
  forEach_with (props_object_step E G c) ks props w = (Ret props, w).
Proof.
  induction ks as [| k ks IH]; intros Hks; [reflexivity |].
  cbn [forEach_with]. unfold bind at 1.
  destruct (Hks k (or_introl eq_refl)) as (v & Hv & Hd).
  assert (Hstep : props_object_step E G c props k w = (Ret props, w)).
  { unfold props_object_step. rewrite Hv.
    destruct v as [| b | n | s | items | inner]; try discriminate Hd.
    cbn [is_plain_object negb]. unfold bind, ret. now rewrite Hd. }
  rewrite Hstep. apply IH. intros k' Hk'. apply Hks. now right.
Qed.


Lemma has_default_default_entry : has_default default_entry = true.
Proof. reflexivity. Qed.

Lemma set_prop_existing (k : string) (v v0 : json) (props : list (string * json)) :
  lookup_prop k props = Some v0 -> set_prop k v props = replace_prop k v props.
Proof. unfold set_prop. now intros ->. Qed.

(** What one turn on an existing key leaves, when it does not throw. *)
Lemma props_object_step_normalizes (props props1 : list (string * json)) (k : string)
    (w w1 : world) :
  In k (map fst props) ->
  props_object_step E G c props k w = (Ret props1, w1) ->
  map fst props1 = map fst props /\
  (exists v, lookup_prop k props1 = Some v /\ has_default v = true) /\
  (forall k' v, lookup_prop k' props = Some v -> has_default v = true ->
     exists v', lookup_prop k' props1 = Some v' /\ has_default v' = true).
Proof.
  intros Hin Hstep. destruct (lookup_prop_in k props Hin) as (v & Hv).
  unfold props_object_step in Hstep. rewrite Hv in Hstep.
  assert (Hset : has_default v = false ->
            map fst (set_prop k default_entry props) = map fst props /\
            (exists v1, lookup_prop k (set_prop k default_entry props) = Some v1
                        /\ has_default v1 = true) /\
            (forall k' v0, lookup_prop k' props = Some v0 -> has_default v0 = true ->
               exists v', lookup_prop k' (set_prop k default_entry props) = Some v'
                          /\ has_default v' = true)).
  { intros Hnd. rewrite (set_prop_existing k default_entry v props Hv).
    split; [apply keys_replace_prop |]. split.
    - exists default_entry. rewrite lookup_replace_prop, String.eqb_refl, Hv. now split.
    - intros k' v0 Hk' Hd0. rewrite lookup_replace_prop.
      destruct (String.eqb k k') eqn:Hkk.
      + rewrite Hv. exists default_entry. now split.
      + exists v0. now split. }
  destruct v as [| b | n | s | items | inner];
    unfold bind, ret, throw, warn in Hstep; cbn in Hstep;
    try (injection Hstep as <- _; now apply Hset).
  - discriminate Hstep.
  - destruct (lookup_prop "default" inner) as [d |] eqn:Hl; cbn in Hstep;
      injection Hstep as <- _.
    + split; [reflexivity |]. split.
      * exists (JObj inner). split; [exact Hv |]. unfold has_default. now rewrite Hl.
      * intros k' v0 Hk' Hd0. now exists v0.
    + apply Hset. unfold has_default. now rewrite Hl.
Qed.

Lemma props_object_loop_normalizes (ks : list string) (props props' : list (string * json))
    (w w' : world) :
  (forall k, In k ks -> In k (map fst props)) ->
  forEach_with (props_object_step E G c) ks props w = (Ret props', w') ->
  map fst props' = map fst props /\
  (forall k, In k ks -> exists v, lookup_prop k props' = Some v /\ has_default v = true) /\
  (forall k v, lookup_prop k props = Some v -> has_default v = true ->
     exists v', lookup_prop k props' = Some v' /\ has_default v' = true).
Proof.
  revert props w. induction ks as [| k ks IH]; intros props w Hks Hloop.
  - cbn in Hloop. injection Hloop as <- _. split; [reflexivity |].
    split; [intros k [] |]. intros k v Hk Hd. now exists v.
  - cbn [forEach_with] in Hloop. unfold bind at 1 in Hloop.
    destruct (props_object_step E G c props k w) as [[props1 | e] w1] eqn:Hstep;
      [| discriminate Hloop].
    destruct (props_object_step_normalizes props props1 k w w1
                (Hks k (or_introl eq_refl)) Hstep) as (Hkeys1 & Hk1 & Hpres1).
    destruct (IH props1 w1) as (Hkeys' & Hks' & Hpres'); [| exact Hloop |].
    { intros k' Hk'. rewrite Hkeys1. apply Hks. now right. }
    split; [now rewrite Hkeys', Hkeys1 |]. split.
    + intros k' [<- | Hk'].
      * destruct Hk1 as (v1 & Hv1 & Hd1). exact (Hpres' k v1 Hv1 Hd1).
      * now apply Hks'.
    + intros k' v Hk' Hd. destruct (Hpres1 k' v Hk' Hd) as (v1 & Hv1 & Hd1).
      exact (Hpres' k' v1 Hv1 Hd1).
Qed.


Lemma all_default_replace (k : string) (props : list (string * json)) :
  Spec.all_default props -> Spec.all_default (replace_prop k default_entry props).
Proof.
  induction 1 as [| [k0 v0] props Hd Hall IH]; cbn; [constructor |].
  destruct (String.eqb k0 k).
  - constructor; [reflexivity | exact Hall].
  - constructor; [exact Hd | exact IH].
Qed.

Lemma all_default_insert (k : string) (props : list (string * json)) :
  Spec.all_default props -> Spec.all_default (insert_new k default_entry props).
Proof.
  assert (Hcons : forall rest, Spec.all_default rest -> Spec.all_default ((k, default_entry) :: rest)).
  { intros rest Hrest. constructor; [reflexivity | exact Hrest]. }
  induction 1 as [| [k0 v0] props Hd Hall IH]; cbn; [apply Hcons; constructor |].
  assert (Hhere : Spec.all_default ((k0, v0) :: props)) by (constructor; assumption).
  assert (Hlater : Spec.all_default ((k0, v0) :: insert_new k default_entry props))
    by (constructor; assumption).
  destruct (array_index k) as [i |]; [destruct (array_index k0) as [i0 |] |].
  - destruct (i <? i0)%N; [now apply Hcons | exact Hlater].
  - now apply Hcons.
  - exact Hlater.
Qed.

Lemma all_default_set (k : string) (props : list (string * json)) :
  Spec.all_default props -> Spec.all_default (set_prop k default_entry props).
Proof.
  intros Hall. unfold set_prop. destruct (lookup_prop k props);
    [now apply all_default_replace | now apply all_default_insert].
Qed.

Lemma lookup_prop_elem (k : string) (v : json) (props : list (string * json)) :
  lookup_prop k props = Some v -> In (k, v) props.
Proof.
  induction props as [| [k0 v0] props IH]; cbn; [discriminate |].
  destruct (String.eqb k0 k) eqn:Hk.
  - apply String.eqb_eq in Hk. intros [= ->]. left. now subst.
  - intros Hl. right. now apply IH.
Qed.

Lemma all_default_normalized (props : list (string * json)) :
  Spec.all_default props -> Spec.normalized props.
Proof.
  intros Hall k Hk. destruct (lookup_prop_in k props Hk) as (v & Hv).
  exists v. split; [exact Hv |].
  apply lookup_prop_elem in Hv. unfold Spec.all_default in Hall.
  rewrite List.Forall_forall in Hall. exact (Hall (k, v) Hv).
Qed.

(** The array loop never throws and builds an object of default entries. *)
Lemma props_array_loop (items : list json) (acc : list (string * json)) (w : world) :
  Spec.all_default acc ->
  exists acc' w', forEach_with (props_array_step E c) items acc w = (Ret acc', w')
                  /\ Spec.all_default acc'.
Proof.
  revert acc w. induction items as [| item items IH]; intros acc w Hacc.
  - exists acc, w. now split.
  - cbn [forEach_with]. unfold bind at 1.
    assert (Hstep : exists w1, props_array_step E c acc item w
                               = (Ret (set_prop (to_string item) default_entry acc), w1)).
    { unfold props_array_step, bind, ret, warn.
      destruct (negb (String.eqb (typeof item) "string")); eauto. }
    destruct Hstep as (w1 & ->). apply IH. now apply all_default_set.
Qed.

End PropsFacts.

Section PropsNormalization.
Import Json.


End PropsNormalization.



(** ** The card loader *)

Section CardLoaderFacts.
Import Json.
Variable H : host.
Variable E : env.
Variable G : engine.
Variable c : context.

Lemma loader_card_returns (source : string) (w w1 : world) (v : value) :
  env_is (DEVICE_LEVEL E) "card" = true ->
  parseCard H E G c source w = (Ret v, w1) ->
  loader H E G c source w = (Ret "{}", w1).
Proof.
  intros Hcard Hrun. unfold loader. rewrite Hcard.
  unfold try_catch, bind at 1. now rewrite Hrun.
Qed.

Lemma loader_card_catches (source : string) (w w1 : world) (e : exn) :
  env_is (DEVICE_LEVEL E) "card" = true ->
  parseCard H E G c source w = (Throw e, w1) ->
  loader H E G c source w = (Ret "{}", Spec.reported E c e w1).
Proof.
  intros Hcard Hrun. unfold loader. rewrite Hcard.
  unfold try_catch, bind at 1. rewrite Hrun. reflexivity.
Qed.

Lemma parseCard_eval_throws (source : string) (w : world) (e : exn) :
  eval_stringify G ("(" +:+ card_text H G c source +:+ ")") = inl e ->
  parseCard H E G c source w = (Throw e, w).
Proof.
  intros Heval. unfold parseCard. unfold bind at 1. now rewrite Heval.
Qed.

Lemma env_is_card : DEVICE_LEVEL E = Some "card" -> env_is (DEVICE_LEVEL E) "card" = true.
Proof. intros ->. reflexivity. Qed.

Lemma env_is_not_card : DEVICE_LEVEL E <> Some "card" -> env_is (DEVICE_LEVEL E) "card" = false.
Proof.
  intros Hne. unfold env_is. destruct (DEVICE_LEVEL E) as [d |]; [| reflexivity].
  destruct (String.eqb d "card") eqn:Hd; [| reflexivity].
  apply String.eqb_eq in Hd. now subst d.
Qed.

End CardLoaderFacts.

(** C7. In card mode, when the evaluation of the processed text throws, the
    loader returns ['{}']: the thrown value is caught and handed to [logWarn]
    as one Error diagnostic whose reason names the resource, which at the
    levels 1 to 3 is emitted as an error on that file; the same holds for
    whatever [parseCard] throws, and for no source does the loader itself
    throw. *)
Theorem C7_parse_failure_contained (H : host) (E : env) (G : Json.engine)
    (c : Json.context) (source : string) (w : Json.world) (e : Json.exn) :
  DEVICE_LEVEL E = Some "card" ->
  (Json.eval_stringify G ("(" +:+ Json.card_text H G c source +:+ ")") = inl e ->
   Json.loader H E G c source w = (Json.Ret "{}", Spec.reported E c e w)) /\
  (forall w1, Json.parseCard H E G c source w = (Json.Throw e, w1) ->
   Json.loader H E G c source w = (Json.Ret "{}", Spec.reported E c e w1)) /\
  isError (Spec.parse_failure c e) = true /\
  (forall n : Z, logLevel E = Some n -> (1 <= n <= 3)%Z ->
   logWarn (logLevel E) (Json.resourcePath c) [Spec.parse_failure c e]
   = ([EmitError ("errorStartERROR File：" +:+ Json.resourcePath c +:+ NL +:+ " "
                  +:+ ("Failed to parse the file : " +:+ Json.resourcePath c +:+ NL
                       +:+ Json.exn_text e)
                  +:+ "errorEnd")], true)) /\
  (forall source' w', exists w2, Json.loader H E G c source' w' = (Json.Ret "{}", w2)).
Proof.
  intros Hcard. apply env_is_card in Hcard.
  split.
  { intros Heval. apply loader_card_catches; [exact Hcard |].
    now apply parseCard_eval_throws. }
  split.
  { intros w1 Hthrow. now apply loader_card_catches. }
  split; [reflexivity |].
  split.
  { intros n Hn Hrange. rewrite Hn.
    assert (Hcases : n = 1%Z \/ n = 2%Z \/ n = 3%Z) by lia.
    destruct Hcases as [-> | [-> | ->]]; reflexivity. }
  intros source' w'.
  destruct (Json.parseCard H E G c source' w') as [[v | e'] w1] eqn:Hrun.
  - exists w1. now apply (loader_card_returns H E G c source' w' w1 v).
  - exists (Spec.reported E c e' w1). now apply loader_card_catches.
Qed.

Lemma C7_parse_failure_contained_witness :
  Json.loader (Example.posix [] Example.no_reserved) Example.card_env Example.rejecting_engine
    Example.card_context "{ data: { a: 1 }, actions: : }" Json.empty_world
  = (Json.Ret "{}",
     Spec.reported Example.card_env Example.card_context
       (Json.Thrown "SyntaxError: Unexpected token ':'") Json.empty_world).
Proof.
  apply (proj1 (C7_parse_failure_contained (Example.posix [] Example.no_reserved)
                  Example.card_env Example.rejecting_engine Example.card_context
                  "{ data: { a: 1 }, actions: : }" Json.empty_world
                  (Json.Thrown "SyntaxError: Unexpected token ':'") eq_refl)).
  reflexivity.
Defined.

(** C10. In card mode the loader returns the text ['{}'] for every
    source: when [parseCard] returns, with the world [parseCard] left (its
    calls to the sink made), and when it throws, with the diagnostic
    reported; outside card mode it returns [module.exports = ] followed by the
    source and changes nothing. *)
Theorem C10_card_module_text (H : host) (E : env) (G : Json.engine)
    (c : Json.context) (source : string) (w : Json.world) :
  (DEVICE_LEVEL E = Some "card" ->
   (exists w', Json.loader H E G c source w = (Json.Ret "{}", w')) /\
   (forall v w1, Json.parseCard H E G c source w = (Json.Ret v, w1) ->
      Json.loader H E G c source w = (Json.Ret "{}", w1)) /\
   (forall e w1, Json.parseCard H E G c source w = (Json.Throw e, w1) ->
      Json.loader H E G c source w = (Json.Ret "{}", Spec.reported E c e w1))) /\
  (DEVICE_LEVEL E <> Some "card" ->
   Json.loader H E G c source w = (Json.Ret ("module.exports = " +:+ source), w)).
Proof.
  split.
  - intros Hcard. apply env_is_card in Hcard.
    split; [| split].
    + destruct (Json.parseCard H E G c source w) as [[v | e] w1] eqn:Hrun.
      * exists w1. now apply (loader_card_returns H E G c source w w1 v).
      * exists (Spec.reported E c e w1). now apply loader_card_catches.
    + intros v w1 Hrun. now apply (loader_card_returns H E G c source w w1 v).
    + intros e w1 Hrun. now apply loader_card_catches.
  - intros Hnot. apply env_is_not_card in Hnot. unfold Json.loader. now rewrite Hnot.
Qed.

Lemma C10_card_module_text_witness :
  (exists w',
     Json.loader (Example.posix [] Example.no_reserved) Example.card_env Example.literal_engine
       Example.card_context "{ data: { count: 1 }, props: ['a'] }" Json.empty_world
     = (Json.Ret "{}", w')) /\
  Json.loader (Example.posix [] Example.no_reserved) Example.page_env Example.literal_engine
    Example.card_context "{ data: { count: 1 } }" Json.empty_world
  = (Json.Ret "module.exports = { data: { count: 1 } }", Json.empty_world).
Proof.
  split.
  - apply (proj1 (proj1 (C10_card_module_text (Example.posix [] Example.no_reserved)
                           Example.card_env Example.literal_engine Example.card_context
                           "{ data: { count: 1 }, props: ['a'] }" Json.empty_world) eq_refl)).
  - apply (proj2 (C10_card_module_text (Example.posix [] Example.no_reserved)
                    Example.page_env Example.literal_engine Example.card_context
                    "{ data: { count: 1 } }" Json.empty_world)).
    discriminate.
Defined.

(** ** Card-literal rewriting *)

Lemma prefix_empty (s : string) : String.prefix "" s = true.
Proof. now destruct s. Qed.

Lemma prefix_app_self (p s : string) : String.prefix p (p +:+ s) = true.
Proof.
  induction p as [| c p IH]; [apply prefix_empty |].
  rewrite append_cons, prefix_cons, Ascii.eqb_refl. exact IH.
Qed.

Section RegexFacts.
Import Json.
Variable m : matcher.
Variable fn : string -> string -> string.

Lemma regex_replace_go_quiet (s : string) (prev : option ascii) :
  Spec.quiet m s -> regex_replace_go m fn prev 0 s = s.
Proof.
  revert prev. induction s as [| c s IH]; intros prev Hq; [reflexivity |].
  destruct Hq as [Hhere Hrest]. cbn [regex_replace_go]. rewrite Hhere.
  now rewrite IH.
Qed.

Lemma regex_replace_go_skip (a b : string) (prev : option ascii) :
  Spec.quiet m b -> regex_replace_go m fn prev (String.length a) (a +:+ b) = b.
Proof.
  revert prev. induction a as [| c a IH]; intros prev Hq.
  - cbn [String.length]. rewrite append_empty_l. now apply regex_replace_go_quiet.
  - rewrite append_cons. cbn [String.length regex_replace_go]. now apply IH.
Qed.

Lemma take_length_app (a b : string) : take (String.length a) (a +:+ b) = a.
Proof.
  induction a as [| c a IH]; [now destruct b |].
  rewrite append_cons. cbn [String.length take]. now rewrite IH.
Qed.

Lemma regex_replace_head (c : ascii) (a b group1 : string) :
  m None (String c a +:+ b) = Some (S (String.length a), group1) ->
  Spec.quiet m b ->
  regex_replace m fn (String c a +:+ b) = fn (String c a) group1 +:+ b.
Proof.
  intros Hm Hq. unfold regex_replace. rewrite append_cons in *.
  cbn [regex_replace_go]. rewrite Hm.
  replace (take (S (String.length a)) (String c (a +:+ b))) with (String c a)
    by (cbn [take]; now rewrite take_length_app).
  cbn [Nat.sub]. rewrite Nat.sub_0_r. now rewrite regex_replace_go_skip.
Qed.

End RegexFacts.

Section CharFacts.
Import Json.

Lemma string_length_app (a b : string) :
  String.length (a +:+ b) = String.length a + String.length b.
Proof.
  induction a as [| c a IH]; [reflexivity |].
  rewrite append_cons. cbn [String.length]. now rewrite IH.
Qed.

Lemma all_chars_app (p : ascii -> bool) (a b : string) :
  Spec.all_chars p (a +:+ b) = Spec.all_chars p a && Spec.all_chars p b.
Proof.
  induction a as [| c a IH]; [reflexivity |].
  rewrite append_cons. cbn [Spec.all_chars]. rewrite IH. now rewrite andb_assoc.
Qed.

Lemma all_chars_weaken (p q : ascii -> bool) (s : string) :
  (forall c, p c = true -> q c = true) -> Spec.all_chars p s = true -> Spec.all_chars q s = true.
Proof.
  intros Hpq. induction s as [| c s IH]; [reflexivity |]. cbn [Spec.all_chars].
  intros Hs. apply andb_prop in Hs as [Hc Hs]. now rewrite (Hpq c Hc), IH.
Qed.

Lemma span_all (p : ascii -> bool) (s t : string) :
  Spec.all_chars p s = true -> span p (s +:+ t) = String.length s + span p t.
Proof.
  induction s as [| c s IH]; [reflexivity |]. cbn [Spec.all_chars].
  intros Hs. apply andb_prop in Hs as [Hc Hs].
  rewrite append_cons. cbn [span String.length]. now rewrite Hc, IH.
Qed.

(** A word character differs from every character that is not one. *)
Lemma word_differs (c q : ascii) : is_word c = true -> is_word q = false -> Ascii.eqb c q = false.
Proof.
  intros Hc Hq. destruct (Ascii.eqb c q) eqn:Heq; [| reflexivity].
  apply Ascii.eqb_eq in Heq. subst q. congruence.
Qed.

Lemma word_not_line_terminator (c : ascii) : is_word c = true -> not_line_terminator c = true.
Proof.
  intros Hc. unfold not_line_terminator, is_line_terminator, is_lf, is_cr.
  now rewrite !(word_differs c _ Hc) by reflexivity.
Qed.

Lemma word_is_not (q : ascii) (c : ascii) : is_word q = false -> is_word c = true -> Spec.is_not q c = true.
Proof. intros Hq Hc. unfold Spec.is_not. now rewrite (word_differs c q Hc Hq). Qed.

Lemma quiet_event_string (s : string) :
  Spec.all_chars (Spec.is_not "034") s = true -> Spec.all_chars (Spec.is_not "039") s = true ->
  Spec.quiet REG_EVENT_STRING s.
Proof.
  induction s as [| c s IH]; [easy |]. cbn [Spec.all_chars Spec.quiet].
  intros Hd Hs. apply andb_prop in Hd as [Hcd Hd]. apply andb_prop in Hs as [Hcs Hs].
  split; [| now apply IH].
  intros prev. unfold REG_EVENT_STRING, match_event_string_alt.
  unfold Spec.is_not in Hcd, Hcs. apply negb_true_iff in Hcd, Hcs. now rewrite Hcd, Hcs.
Qed.

Lemma quiet_event (s : string) : Spec.all_chars (Spec.is_not "$") s = true -> Spec.quiet REG_EVENT s.
Proof.
  induction s as [| c s IH]; [easy |]. cbn [Spec.all_chars Spec.quiet].
  intros Hd. apply andb_prop in Hd as [Hc Hd]. split; [| now apply IH].
  intros prev. unfold REG_EVENT. rewrite prefix_cons.
  unfold Spec.is_not in Hc. apply negb_true_iff in Hc. rewrite Ascii.eqb_sym in Hc.
  now rewrite Hc.
Qed.

Lemma prefix_this_needs_dot (s : string) :
  Spec.all_chars (Spec.is_not ".") s = true -> String.prefix "this." s = false.
Proof.
  destruct s as [| c1 [| c2 [| c3 [| c4 [| c5 s]]]]];
    rewrite ?prefix_cons; cbn [String.prefix]; rewrite ?andb_false_r; try reflexivity.
  cbn [Spec.all_chars]. intros Hs.
  do 4 (apply andb_prop in Hs as [_ Hs]). apply andb_prop in Hs as [Hc _].
  unfold Spec.is_not in Hc. apply negb_true_iff in Hc. rewrite Ascii.eqb_sym in Hc.
  rewrite Hc. now rewrite !andb_false_r.
Qed.

Lemma all_chars_tail (p : ascii -> bool) (c : ascii) (s : string) :
  Spec.all_chars p (String c s) = true -> Spec.all_chars p s = true.
Proof. cbn [Spec.all_chars]. intros Hs. now apply andb_prop in Hs as [_ Hs]. Qed.

Lemma quiet_this (s : string) : Spec.all_chars (Spec.is_not ".") s = true -> Spec.quiet REG_THIS s.
Proof.
  induction s as [| c s IH]; [easy |]. intros Hs. cbn [Spec.quiet].
  split; [| apply IH; now apply all_chars_tail in Hs].
  intros prev. unfold REG_THIS. now rewrite (prefix_this_needs_dot _ Hs).
Qed.

Lemma replace_all_this_quiet (s : string) :
  Spec.all_chars (Spec.is_not ".") s = true -> replace_all_go "this." "" 0 s = s.
Proof.
  induction s as [| c s IH]; [reflexivity |]. intros Hs.
  cbn [replace_all_go]. rewrite (prefix_this_needs_dot _ Hs).
  rewrite IH by now apply all_chars_tail in Hs. reflexivity.
Qed.

Lemma replace_all_go_skip (pat rep a b : string) :
  replace_all_go pat rep (String.length a) (a +:+ b) = replace_all_go pat rep 0 b.
Proof.
  induction a as [| c a IH]; [reflexivity |].
  rewrite append_cons. cbn [String.length replace_all_go]. exact IH.
Qed.

End CharFacts.

Section SuffixFacts.
Import Json.

Lemma drop_length_app (a b : string) : drop (String.length a) (a +:+ b) = b.
Proof.
  induction a as [| c a IH]; [reflexivity |].
  rewrite append_cons. cbn [String.length drop]. exact IH.
Qed.

Lemma take_all (s : string) : take (String.length s) s = s.
Proof. rewrite <- (append_empty_r s) at 2. apply take_length_app. Qed.

Lemma endsWith_app (a b b' : string) :
  String.length b = String.length b' -> endsWith (a +:+ b) b' = String.eqb b b'.
Proof.
  intros Hlen. unfold endsWith. rewrite string_length_app, <- Hlen.
  replace (String.length a + String.length b - String.length b) with (String.length a) by lia.
  rewrite drop_length_app.
  replace (String.length b <=? String.length a + String.length b)%nat with true
    by (symmetry; apply Nat.leb_le; lia).
  reflexivity.
Qed.

Lemma last_two_app (a b : string) :
  String.length b = 2 -> drop (String.length (a +:+ b) - 2) (a +:+ b) = b.
Proof.
  intros Hlen. rewrite string_length_app, Hlen.
  replace (String.length a + 2 - 2) with (String.length a) by lia.
  apply drop_length_app.
Qed.

(** A non-empty text ends with a character. *)
Lemma last_char_decompose (s : string) :
  s <> "" -> exists a c, s = a +:+ String c "".
Proof.
  induction s as [| x s IH]; [congruence |]. intros _.
  destruct s as [| y s].
  - exists "", x. reflexivity.
  - destruct IH as (a & c & Hs); [discriminate |].
    exists (String x a), c. rewrite append_cons. now rewrite <- Hs.
Qed.

Lemma last_index_end (q : ascii) (w : string) (from i : nat) :
  from <= i + String.length w ->
  last_index q from (String.length w + 1) i (w +:+ String q "") = Some (i + String.length w).
Proof.
  revert i. induction w as [| c w IH]; intros i Hle.
  - rewrite append_empty_l. cbn [String.length Nat.add last_index] in *.
    rewrite Ascii.eqb_refl.
    replace (from <=? i)%nat with true by (symmetry; apply Nat.leb_le; lia).
    cbn [andb]. f_equal. lia.
  - rewrite append_cons. cbn [String.length Nat.add last_index].
    rewrite IH by (cbn in Hle; lia). f_equal. cbn. lia.
Qed.

End SuffixFacts.

Section IdentifierFacts.
Import Json.
Variable w : string.
Hypothesis Hw : Spec.identifier w.

Lemma identifier_without (q : ascii) : is_word q = false -> Spec.all_chars (Spec.is_not q) w = true.
Proof.
  intros Hq. apply (all_chars_weaken is_word); [| exact (proj2 Hw)].
  intros c Hc. now apply word_is_not.
Qed.

Lemma identifier_on_line : Spec.all_chars not_line_terminator w = true.
Proof.
  apply (all_chars_weaken is_word); [| exact (proj2 Hw)].
  exact word_not_line_terminator.
Qed.

Lemma span_self (p : ascii -> bool) (s : string) :
  Spec.all_chars p s = true -> span p s = String.length s.
Proof.
  intros Hs. rewrite <- (append_empty_r s) at 1. rewrite (span_all p s "" Hs).
  cbn [span]. lia.
Qed.

Lemma identifier_length : 0 < String.length w.
Proof. destruct Hw as [Hne _]. destruct w; [congruence | cbn; lia]. Qed.

(** A match that covers the whole subject. *)
Lemma regex_replace_whole (m : matcher) (fn : string -> string -> string)
    (s group1 : string) :
  s <> "" -> m None s = Some (String.length s, group1) ->
  regex_replace m fn s = fn s group1.
Proof.
  intros Hne Hm. destruct s as [| c a]; [congruence |].
  rewrite <- (append_empty_r (fn (String c a) group1)).
  rewrite <- (append_empty_r (String c a)) at 1.
  apply regex_replace_head; [| exact I].
  now rewrite append_empty_r.
Qed.

(** The first pass leaves a bare event expression alone. *)
Lemma event_string_pass_bare (fn : string -> string -> string) :
  regex_replace REG_EVENT_STRING fn ("$event." +:+ w) = "$event." +:+ w.
Proof.
  unfold regex_replace. apply regex_replace_go_quiet, quiet_event_string;
    rewrite all_chars_app, identifier_without by reflexivity; reflexivity.
Qed.

(** The second pass quotes it. *)
Lemma event_pass_bare :
  regex_replace REG_EVENT (fun item _ => DQ +:+ item +:+ DQ) ("$event." +:+ w)
  = DQ +:+ ("$event." +:+ w) +:+ DQ.
Proof.
  apply (regex_replace_whole REG_EVENT (fun item _ => DQ +:+ item +:+ DQ) _ "");
    [discriminate |].
  unfold REG_EVENT.
  rewrite prefix_app_self.
  change (drop 7 ("$event." +:+ w)) with w.
  rewrite (span_self is_word w (proj2 Hw)).
  replace (0 <? String.length w)%nat with true
    by (symmetry; apply Nat.ltb_lt; exact identifier_length).
  rewrite string_length_app. reflexivity.
Qed.

(** The third pass finds no [this.] in the quoted event expression. *)
Lemma this_pass_event (fn : string -> string -> string) :
  regex_replace REG_THIS fn (DQ +:+ ("$event." +:+ w) +:+ DQ)
  = DQ +:+ ("$event." +:+ w) +:+ DQ.
Proof.
  unfold regex_replace. apply regex_replace_go_quiet.
  rewrite append_assoc.
  change (DQ +:+ "$event." +:+ w +:+ DQ)
    with (String "034" (String "$" (String "e" (String "v" (String "e" (String "n"
           (String "t" (String "." (w +:+ DQ))))))))).
  cbn [Spec.quiet].
  repeat (split; [intros prev; unfold REG_THIS; rewrite !prefix_cons; reflexivity |]).
  apply quiet_this. rewrite all_chars_app, identifier_without by reflexivity. reflexivity.
Qed.


(** The first pass strips the quotes of a quoted event expression. *)
Lemma event_string_pass_quoted :
  regex_replace REG_EVENT_STRING (fun item _ => slice_1_m1 item)
    (DQ +:+ ("$event." +:+ w) +:+ DQ)
  = "$event." +:+ w.
Proof.
  pose proof identifier_length as Hlen.
  rewrite (regex_replace_whole REG_EVENT_STRING (fun item _ => slice_1_m1 item)
             (DQ +:+ ("$event." +:+ w) +:+ DQ)
             (take (String.length (DQ +:+ ("$event." +:+ w) +:+ DQ))
                (DQ +:+ ("$event." +:+ w) +:+ DQ))).
  - unfold slice_1_m1.
    change (drop 1 (DQ +:+ ("$event." +:+ w) +:+ DQ)) with (("$event." +:+ w) +:+ DQ).
    change (DQ +:+ ("$event." +:+ w) +:+ DQ) with (String "034" (("$event." +:+ w) +:+ DQ)).
    cbn [String.length]. rewrite string_length_app. cbn [String.length DQ].
    replace (S (String.length ("$event." +:+ w) + 1) - 2)
      with (String.length ("$event." +:+ w)) by lia.
    apply take_length_app.
  - discriminate.
  - unfold REG_EVENT_STRING, match_event_string_alt.
    rewrite append_assoc.
    change (DQ +:+ "$event." +:+ w +:+ DQ)
      with (String "034" ("$event." +:+ (w +:+ DQ))).
    cbv beta iota. rewrite Ascii.eqb_refl.
    change (span is_space ("$event." +:+ (w +:+ DQ))) with 0.
    change (drop 0 ("$event." +:+ (w +:+ DQ))) with ("$event." +:+ (w +:+ DQ)).
    rewrite prefix_app_self.
    change (drop 7 ("$event." +:+ (w +:+ DQ))) with (w +:+ DQ).
    rewrite (span_all not_line_terminator w DQ identifier_on_line).
    change (span not_line_terminator DQ) with 1.
    unfold DQ at 1. rewrite (last_index_end "034" w 1 0) by lia.
    cbn [String.length]. rewrite !string_length_app. cbn [String.length DQ].
    replace (1 + 0 + 7 + (0 + String.length w) + 1)
      with (S (7 + (String.length w + 1))) by lia.
    reflexivity.
Qed.


(** The two event passes leave [this.w] and what follows it alone, when no
    quote and no [$] follows. *)
Lemma event_passes_this (t : string) (fn1 fn2 : string -> string -> string) :
  Spec.all_chars (Spec.is_not "034") t = true -> Spec.all_chars (Spec.is_not "039") t = true ->
  Spec.all_chars (Spec.is_not "$") t = true ->
  regex_replace REG_EVENT fn2 (regex_replace REG_EVENT_STRING fn1 ("this." +:+ w +:+ t))
  = "this." +:+ w +:+ t.
Proof.
  intros Hd Hs Hdollar. unfold regex_replace.
  rewrite (regex_replace_go_quiet REG_EVENT_STRING).
  - apply regex_replace_go_quiet, quiet_event.
    now rewrite !all_chars_app, identifier_without, Hdollar by reflexivity.
  - apply quiet_event_string.
    + now rewrite !all_chars_app, identifier_without, Hd by reflexivity.
    + now rewrite !all_chars_app, identifier_without, Hs by reflexivity.
Qed.

(** The third pass hands [this.w] and the rest of its line to the callback. *)
Lemma this_pass_line (t : string) (fn : string -> string -> string) :
  Spec.all_chars not_line_terminator t = true ->
  regex_replace REG_THIS fn ("this." +:+ w +:+ t) = fn ("this." +:+ w +:+ t) "".
Proof.
  intros Ht. apply regex_replace_whole; [discriminate |].
  unfold REG_THIS. rewrite prefix_app_self.
  change (drop 5 ("this." +:+ w +:+ t)) with (w +:+ t).
  rewrite span_self by now rewrite all_chars_app, identifier_on_line, Ht.
  rewrite (string_length_app "this."). reflexivity.
Qed.

Lemma replace_all_go_miss (pat rep : string) (c : ascii) (s : string) :
  String.prefix pat (String c s) = false ->
  replace_all_go pat rep 0 (String c s) = String c (replace_all_go pat rep 0 s).
Proof. intros Hp. cbn [replace_all_go]. now rewrite Hp. Qed.

Lemma replace_all_go_hit (rep : string) (c : ascii) (pat s : string) :
  replace_all_go (String c pat) rep 0 (String c pat +:+ s)
  = rep +:+ replace_all_go (String c pat) rep 0 s.
Proof.
  rewrite append_cons. cbn [replace_all_go].
  rewrite prefix_cons, Ascii.eqb_refl, prefix_app_self.
  cbn [andb String.length Nat.sub]. rewrite Nat.sub_0_r.
  now rewrite replace_all_go_skip.
Qed.

(** Removing [this.] from a wrapped expression. *)
Lemma replace_all_wrapped (r : string) :
  Spec.all_chars (Spec.is_not ".") r = true ->
  replace_all "this." "" (DQ +:+ "{{" +:+ "this." +:+ r) = DQ +:+ "{{" +:+ r.
Proof.
  intros Hr. unfold replace_all.
  change (DQ +:+ "{{" +:+ "this." +:+ r)
    with (String "034" (String "{" (String "{" ("this." +:+ r)))).
  rewrite !replace_all_go_miss by (rewrite prefix_cons; reflexivity).
  rewrite replace_all_go_hit, replace_all_this_quiet by exact Hr. reflexivity.
Qed.


(** [this.w] ends with a word character, and a character comes before it. *)
Lemma this_identifier_ends :
  exists a d c, "this." +:+ w = a +:+ String d (String c "") /\ is_word c = true.
Proof.
  destruct (last_char_decompose w (proj1 Hw)) as (w0 & c & Hw0).
  assert (Hc : is_word c = true).
  { pose proof (proj2 Hw) as Hall. rewrite Hw0, all_chars_app in Hall.
    apply andb_prop in Hall as [_ Hall]. cbn [Spec.all_chars] in Hall.
    now apply andb_prop in Hall as [Hall _]. }
  destruct (last_char_decompose ("this." +:+ w0)) as (a & d & Ha); [discriminate |].
  exists a, d, c. split; [| exact Hc].
  rewrite Hw0, <- append_assoc, Ha, append_assoc. reflexivity.
Qed.

Variable G : engine.
Hypothesis Htrans : transCardArray G ("this." +:+ w) = "this." +:+ w.

(** The callback on [this.w]. *)
Lemma rewrite_this_identifier :
  rewrite_this G ("this." +:+ w) = DQ +:+ "{{" +:+ w +:+ "}}" +:+ DQ.
Proof.
  destruct this_identifier_ends as (a & d & c & Hitem & Hc).
  unfold rewrite_this.
  assert (Hone : forall q, is_word q = false ->
            endsWith ("this." +:+ w) (String q "") = false).
  { intros q Hq. rewrite Hitem.
    change (a +:+ String d (String c "")) with (a +:+ (String d "" +:+ String c "")).
    rewrite <- append_assoc, endsWith_app by reflexivity.
    cbn [String.eqb]. now rewrite (word_differs c q Hc Hq). }
  assert (Htwo : forall q,
            String.eqb (drop (String.length ("this." +:+ w) - 2) ("this." +:+ w))
              (String q ",") = false).
  { intros q. rewrite Hitem, last_two_app by reflexivity.
    cbn [String.eqb]. rewrite (word_differs c "," Hc) by reflexivity.
    cbn [andb]. apply andb_false_r. }
  unfold DQ at 1 2, SQ. rewrite !Hone by reflexivity.
  change (String "034" "" +:+ ",") with (String "034" ",").
  change (String "039" "" +:+ ",") with (String "039" ",").
  rewrite !Htwo. cbn [negb andb].
  rewrite Htrans. rewrite (append_assoc "this." w).
  apply replace_all_wrapped.
  now rewrite all_chars_app, identifier_without by reflexivity.
Qed.

(** The callback on [this.w,]. *)
Lemma rewrite_this_identifier_comma :
  rewrite_this G ("this." +:+ w +:+ ",") = DQ +:+ "{{" +:+ w +:+ "}}" +:+ DQ +:+ ",".
Proof.
  destruct this_identifier_ends as (a & d & c & Hitem & Hc).
  unfold rewrite_this. rewrite <- (append_assoc "this." w ",").
  assert (Hone : forall q, endsWith (("this." +:+ w) +:+ ",") (String q "")
                           = Ascii.eqb "," q).
  { intros q. rewrite endsWith_app by reflexivity. cbn [String.eqb].
    now destruct (Ascii.eqb "," q). }
  assert (Htwo : forall q, is_word q = false ->
            String.eqb
              (drop (String.length (("this." +:+ w) +:+ ",") - 2) (("this." +:+ w) +:+ ","))
              (String q ",") = false).
  { intros q Hq. rewrite Hitem.
    change (a +:+ String d (String c "")) with (a +:+ (String d "" +:+ String c "")).
    rewrite <- (append_assoc a), (append_assoc (a +:+ String d "")).
    rewrite last_two_app by reflexivity.
    change (String c "" +:+ ",") with (String c ",").
    cbn [String.eqb]. now rewrite (word_differs c q Hc Hq). }
  unfold DQ at 1 2, SQ. rewrite !Hone.
  change (String "034" "" +:+ ",") with (String "034" ",").
  change (String "039" "" +:+ ",") with (String "039" ",").
  rewrite !Htwo by reflexivity.
  cbn [Ascii.eqb Bool.eqb negb andb].
  unfold slice_0_m1. rewrite string_length_app. cbn [String.length].
  replace (String.length ("this." +:+ w) + 1 - 1) with (String.length ("this." +:+ w)) by lia.
  rewrite take_length_app, Htrans.
  rewrite (append_assoc "this." w).
  apply replace_all_wrapped.
  now rewrite all_chars_app, identifier_without by reflexivity.
Qed.

End IdentifierFacts.




(** Inside an object literal each occurrence is rewritten in the same way. *)
Lemma rewrite_card_in_literal :
  Json.rewrite_card Example.plain_engine Example.card_literal
  = "{ a: " +:+ DQ +:+ "{{count}}" +:+ DQ +:+ "," +:+ NL
    +:+ "  b: " +:+ DQ +:+ "$event.detail" +:+ DQ +:+ ", c: " +:+ DQ +:+ "$event.tap" +:+ DQ +:+ " }".
Proof. reflexivity. Qed.

(** ** The component reference graph *)

Section GraphFacts.
Import Loader.

Lemma get_prop_ensure_record (k k' p : string) (els : elements_map) :
  get_prop (ensure_record k els) k' p = get_prop els k' p.
Proof.
  unfold get_prop, ensure_record. destruct (els !! k) eqn:Hk; [reflexivity |].
  destruct (decide (k = k')) as [<- | Hne].
  - rewrite lookup_insert_eq, Hk. now rewrite lookup_empty.
  - now rewrite lookup_insert_ne.
Qed.

Lemma get_prop_set_prop_other (k k' p q : string) (v : jsval) (els : elements_map) :
  k <> k' -> get_prop (set_prop k p v els) k' q = get_prop els k' q.
Proof.
  intros Hne. unfold get_prop, set_prop. destruct (els !! k); [| reflexivity].
  now rewrite lookup_insert_ne.
Qed.

Lemma get_prop_set_prop_same (k p : string) (v : jsval) (els : elements_map) :
  is_Some (els !! k) -> get_prop (set_prop k p v els) k p = v.
Proof.
  intros [r Hr]. unfold get_prop, set_prop. rewrite Hr.
  now rewrite lookup_insert_eq, lookup_insert_eq.
Qed.

Lemma ensure_record_is_Some (k : string) (els : elements_map) :
  is_Some (ensure_record k els !! k).
Proof.
  unfold ensure_record. destruct (els !! k) eqn:Hk; [now rewrite Hk |].
  rewrite lookup_insert_eq. eauto.
Qed.

Lemma get_record_cases (els : elements_map) (k : string) :
  get_record els k = VRecord k \/ get_record els k = VUndefined.
Proof. unfold get_record. destruct (els !! k); [left | right]; reflexivity. Qed.

(** The registration of an included unit whose query names a parent that has
    no truthy [parent] of its own: the scope of the unit's elements is the
    parent named by the query, which is also the parent recorded. *)
Lemma register_keeps_query_parent (c : context) (name p : string) (els : elements_map) :
  query_entry c = false ->
  truthy (query_parentPath c) = Some p ->
  p <> resourcePath c ->
  truthy_val (get_prop els p "parent") = false ->
  snd (register c name els) = VStr p /\
  get_prop (fst (register c name els)) (resourcePath c) "parent" = VStr p.
Proof.
  intros Hentry Hq Hne Hparent. unfold register. rewrite Hentry, Hq.
  rewrite get_prop_set_prop_other by congruence.
  rewrite get_prop_ensure_record, Hparent, andb_false_r. cbn [fst snd].
  split; [reflexivity |].
  apply get_prop_set_prop_same, ensure_record_is_Some.
Qed.

(** When the parent named by the query has a truthy [parent], the branch
    that flattens makes [parentPath] a record or [undefined], never a path:
    the key of the scope is then ["[object Object]"] or ["undefined"]. *)
Lemma register_flattens_to_no_path (c : context) (name p : string) (els : elements_map) :
  query_entry c = false ->
  truthy (query_parentPath c) = Some p ->
  p <> resourcePath c ->
  is_Some (els !! p) ->
  truthy_val (get_prop els p "parent") = true ->
  to_key (snd (register c name els)) = "[object Object]" \/
  to_key (snd (register c name els)) = "undefined".
Proof.
  intros Hentry Hq Hne [r Hr] Hparent. unfold register. rewrite Hentry, Hq.
  rewrite get_prop_set_prop_other by congruence.
  rewrite get_prop_ensure_record, Hparent, andb_true_r.
  assert (Hrec : truthy_val
            (get_record (set_prop (resourcePath c) "parent" (VStr p)
                           (ensure_record (resourcePath c) els)) p) = true).
  { unfold get_record, set_prop.
    destruct (ensure_record (resourcePath c) els !! resourcePath c) eqn:Hs.
    - rewrite lookup_insert_ne by congruence.
      unfold ensure_record. destruct (els !! resourcePath c); [now rewrite Hr |].
      rewrite lookup_insert_ne by congruence. now rewrite Hr.
    - unfold ensure_record in *. destruct (els !! resourcePath c); [now rewrite Hr |].
      rewrite lookup_insert_ne by congruence. now rewrite Hr. }
  rewrite Hrec. cbn [snd].
  rewrite get_prop_set_prop_same.
  2:{ unfold set_prop.
      destruct (ensure_record_is_Some (resourcePath c) els) as [r0 Hr0]. rewrite Hr0.
      rewrite lookup_insert_eq. eauto. }
  match goal with
  | |- context [get_record ?m ?k] => destruct (get_record_cases m k) as [-> | ->]
  end; [left | right]; reflexivity.
Qed.

(** A name that the scope of [parentPath] already holds is reported to
    [logWarn] as an Error, the scope being the record under the key
    [parentPath] is coerced to. *)
Lemma collision_is_reported (H : host) (E : env) (c : context) (el : element)
    (customLang : gmap string (list string)) (parentPath : jsval) (w : world)
    (src0 n : string) :
  truthy (el_src el) = Some src0 ->
  truthy (el_name el) = Some n ->
  (let src := if endsWith src0 ".hml" then src0 else src0 +:+ ".hml" in
   negb (existsSync H (path_join H (path_dirname H (resourcePath c)) src))
   && starts_with_slash_or_dot src = false) ->
  compilation_entries c = None ->
  truthy_val (get_prop (elements w) (to_key parentPath) (toLowerCase n)) = true ->
  logged (snd (loadPageCheckElementLength H E c [el] customLang parentPath w))
  = (logged w
     ++ [mkLog ("ERROR: The element name can not be same with the page "
                +:+ DQ +:+ toLowerCase n +:+ DQ +:+ " (ignore case).") None None])%list.
Proof.
  intros Hsrc Hname Hexists Hentries Hheld.
  unfold loadPageCheckElementLength. cbn [loadPageCheckElementLength_loop].
  rewrite Hsrc, Hname. cbn zeta in Hexists. rewrite Hexists.
  unfold with_elements at 1 2. cbn [elements].
  rewrite get_prop_ensure_record, Hheld.
  unfold checkEntry. rewrite Hentries. reflexivity.
Qed.

End GraphFacts.

(** C1. The claim fails on the code. An entry named [parent] records its
    own name under the key [parent] of its record, the key under which an
    included unit's parent is recorded; compiling [b.hml], requested as the
    entry's compilation asks for it (name [x], parent the entry), takes the
    branch that flattens, which stores [elements[true]], that is [undefined],
    as the parent of [b.hml] and as the scope. The name [x] of [c.hml] is then
    looked up under the key ["undefined"], where it is free, and no
    diagnostic is made although the entry's scope holds [x]. An entry that is
    also included by another entry fares alike: the scope becomes the record
    of the including entry, used as a key, ["[object Object]"]. With an entry
    named [index] that nothing includes, the collision is found in the
    entry's scope. *)
Theorem C1_flattening_misses_collision :
  let entry := Example.compile_entry "/app/pages/parent" "parent" in
  let after_b := Example.compile_entry_then_b "/app/pages/parent" "parent" in
  let shared := Example.compile_shared_entry_then_b "/app/pages/index" in
  let usual := Example.compile_entry_then_b "/app/pages/index" "index" in
  String.prefix
    ("require(" +:+ DQ +:+ "!!/loader/lib/loader.js!./b.hml?name=x"
     +:+ "&parentPath=/app/pages/parent/parent.hml" +:+ DQ +:+ ")")
    (fst entry) = true /\
  Loader.get_prop (Loader.elements (snd entry)) "/app/pages/parent/parent.hml" "x"
  = Loader.VTrue /\
  Loader.get_prop (Loader.elements (snd after_b)) "/app/pages/parent/b.hml" "parent"
  = Loader.VUndefined /\
  Loader.get_prop (Loader.elements (snd after_b)) "undefined" "x" = Loader.VTrue /\
  Loader.logged (snd after_b) = [] /\
  Loader.get_prop (Loader.elements (snd shared)) "/app/pages/index/index.hml" "x"
  = Loader.VTrue /\
  Loader.get_prop (Loader.elements (snd shared)) "/app/pages/index/b.hml" "parent"
  = Loader.VRecord "/app/pages/index/host.hml" /\
  Loader.get_prop (Loader.elements (snd shared)) "[object Object]" "x" = Loader.VTrue /\
  Loader.logged (snd shared) = [] /\
  Loader.get_prop (Loader.elements (snd usual)) "/app/pages/index/b.hml" "parent"
  = Loader.VStr "/app/pages/index/index.hml" /\
  Loader.logged (snd usual)
  = [mkLog ("ERROR: The element name can not be same with the page "
            +:+ DQ +:+ "x" +:+ DQ +:+ " (ignore case).") None None].
Proof. vm_compute. repeat split. Qed.

(** ** Missing assets *)

Section MissingAssetFacts.
Import Loader.
Variable H : host.
Variable E : env.
Variable parseFragment : string -> list element.

(** A missing sibling script: no script reference, a line on the console,
    nothing handed to [logWarn]. *)
Lemma missing_script_is_noted (filename : string) (customLang : gmap string (list string))
    (w : world) :
  existsSync H (filename +:+ ".js") = false ->
  loadPageFindJs H E filename customLang w
  = (false, "", console_log ("missing " +:+ filename +:+ ".js") w).
Proof. intros Hmissing. unfold loadPageFindJs. now rewrite Hmissing. Qed.

(** A custom element whose file is missing ends the element loop with the
    empty text and one Error handed to [logWarn]. *)
Lemma missing_element_ends_loop (c : context) (el : element) (rest : list element)
    (customLang : gmap string (list string)) (parentPath : jsval) (w : world) (src0 : string) :
  truthy (el_src el) = Some src0 ->
  (let src := if endsWith src0 ".hml" then src0 else src0 +:+ ".hml" in
   negb (existsSync H (path_join H (path_dirname H (resourcePath c)) src))
   && starts_with_slash_or_dot src = true) ->
  loadPageCheckElementLength H E c (el :: rest) customLang parentPath w
  = ("",
     warn E c ("ERROR: The file path of custom element does not exist, src: "
               +:+ (if endsWith src0 ".hml" then src0 else src0 +:+ ".hml")) w).
Proof.
  intros Hsrc Hmissing. unfold loadPageCheckElementLength.
  cbn [loadPageCheckElementLength_loop]. rewrite Hsrc. cbn zeta in Hmissing.
  now rewrite Hmissing.
Qed.

Lemma append_not_empty (a b : string) : b <> "" -> a +:+ b <> "".
Proof.
  intros Hb Heq. destruct a as [| x a]; [now apply Hb | discriminate Heq].
Qed.

(** The page emitter always emits the template reference of a markup unit,
    whatever the element loop returned. *)
Lemma loadPage_markup_not_empty (c : context) (name : string) (isEntry : bool)
    (customLang : gmap string (list string)) (source_ : string) (parentPath : jsval)
    (w : world) :
  contains (path_extname H (resourcePath c)) ".hml" = true ->
  fst (loadPage H E parseFragment c name isEntry customLang source_ parentPath w) <> "".
Proof.
  intros Hhml. unfold loadPage. rewrite Hhml.
  destruct (loadPageCheckElementLength H E c (parseFragment source_) customLang parentPath w)
    as [out1 w1].
  destruct (loadPageFindCss H E (strip_extname H c) customLang) as [extcss cssOutput].
  destruct (loadPageFindJs H E (strip_extname H c) customLang w1) as [[extscript scriptOutput] w2].
  cbn [fst]. rewrite !append_assoc. rewrite append_empty_l.
  apply append_not_empty. discriminate.
Qed.

(** The reserved-name path returns from the loader itself, with the empty
    text. *)
Lemma reserved_name_empties_unit (c : context) (source_ : string) (w : world) :
  query_entry c = true ->
  isReservedTag H (path_parse_name H (resourcePath c)) = true ->
  env_is (abilityType E) "page" = true ->
  fst (loader H E parseFragment c source_ w) = "".
Proof.
  intros Hentry Hreserved Hpage. unfold loader. rewrite Hentry, Hreserved, Hpage.
  destruct (register c (path_parse_name H (resourcePath c)) (elements w)). reflexivity.
Qed.

End MissingAssetFacts.

(** C4. The claim fails on the code for the custom element. On a page
    whose element points to [./missing.hml], with no such file, the element
    loop hands one Error to [logWarn] (emitted at level 1) and returns the empty
    text to [loadPage], which goes on: the unit's output is not empty, it holds
    the template reference and the component definition. The missing sibling
    script of the same page is noted on the console only. *)
Theorem C4_missing_element_output :
  let unit := Example.compile_page_missing_element in
  Loader.logged (snd unit)
  = [mkLog "ERROR: The file path of custom element does not exist, src: ./missing.hml"
       None None] /\
  Loader.emitted (snd unit)
  = [EmitError ("errorStartERROR File：/app/pages/index/index.hml" +:+ NL
                +:+ " The file path of custom element does not exist, src: ./missing.hml"
                +:+ "errorEnd")] /\
  Loader.console (snd unit) = ["missing /app/pages/index/index.js"] /\
  fst unit <> "" /\
  fst unit
  = "var $app_template$ = require(" +:+ DQ
    +:+ "!!/loader/lib/json.js!/loader/lib/template.js!/app/pages/index/index.hml"
    +:+ DQ +:+ ")" +:+ NL
    +:+ Loader.loadPageCheckRich "index" false false true.
Proof.
  vm_compute. repeat split. intros Heq. discriminate Heq.
Qed.

(** * Further properties *)

(** ** Source lines *)

Section LineFacts.
Import Notion.

Lemma concat_cons_more (sep x : string) (xs : list string) :
  xs <> [] -> String.concat sep (x :: xs) = x +:+ sep +:+ String.concat sep xs.
Proof. destruct xs; [congruence | reflexivity]. Qed.

Lemma concat_head_char (sep : string) (c : ascii) (x : string) (xs : list string) :
  String.concat sep (String c x :: xs) = String c (String.concat sep (x :: xs)).
Proof. destruct xs; reflexivity. Qed.

Lemma splitSourceLine_not_nil (s : string) : splitSourceLine s <> [].
Proof.
  induction s as [| c rest IH]; [discriminate |].
  cbn [splitSourceLine]. destruct (is_lf c); [discriminate |].
  destruct rest as [| c' rest']; [discriminate |].
  destruct (is_cr c && is_lf c'); [discriminate |].
  destruct (splitSourceLine (String c' rest')); discriminate.
Qed.

Lemma is_lf_true (c : ascii) : is_lf c = true -> c = "010"%char.
Proof. unfold is_lf. apply Ascii.eqb_eq. Qed.

Lemma is_cr_true (c : ascii) : is_cr c = true -> c = "013"%char.
Proof. unfold is_cr. apply Ascii.eqb_eq. Qed.

(** How [splitSourceLine] treats a character that ends no line. *)
Lemma splitSourceLine_other (c : ascii) (rest : string) :
  is_lf c = false ->
  (forall rest', rest = String "010" rest' -> is_cr c = false) ->
  splitSourceLine (String c rest)
  = match splitSourceLine rest with
    | cur :: more => String c cur :: more
    | [] => [String c ""]
    end.
Proof.
  intros Hlf Hcr. cbn [splitSourceLine]. rewrite Hlf.
  destruct rest as [| c' rest']; [reflexivity |].
  destruct (is_cr c && is_lf c') eqn:Hcrlf; [| reflexivity].
  apply andb_prop in Hcrlf as [Hc Hc']. apply is_lf_true in Hc'. subst c'.
  rewrite (Hcr rest' eq_refl) in Hc. discriminate Hc.
Qed.

Lemma replace_crlf_other (c : ascii) (rest : string) :
  (forall rest', rest = String "010" rest' -> is_cr c = false) ->
  replace_all_go (String "013" (String "010" "")) NL 0 (String c rest)
  = String c (replace_all_go (String "013" (String "010" "")) NL 0 rest).
Proof.
  intros Hcr. cbn [replace_all_go]. rewrite prefix_cons.
  destruct rest as [| c' rest'].
  - cbn [String.prefix]. now rewrite andb_false_r.
  - rewrite prefix_cons, prefix_empty, andb_true_r.
    destruct (Ascii.eqb "013" c && Ascii.eqb "010" c') eqn:Hcrlf; [| reflexivity].
    apply andb_prop in Hcrlf as [Hc Hc']. apply Ascii.eqb_eq in Hc, Hc'. subst c c'.
    discriminate (Hcr rest' eq_refl).
Qed.

Lemma replace_crlf_hit (rest : string) :
  replace_all_go (String "013" (String "010" "")) NL 0 (String "013" (String "010" rest))
  = String "010" (replace_all_go (String "013" (String "010" "")) NL 0 rest).
Proof.
  change (String "013" (String "010" rest))
    with (String "013" (String "010" "") +:+ rest).
  now rewrite replace_all_go_hit.
Qed.

Lemma splitSourceLine_facts (n : nat) (s : string) :
  String.length s <= n ->
  String.concat NL (splitSourceLine s) = replace_all (CR +:+ NL) NL s /\
  length (splitSourceLine s) = S (count_char "010" s) /\
  Forall (fun l => Spec.all_chars (Spec.is_not "010") l = true) (splitSourceLine s).
Proof.
  unfold replace_all. change (CR +:+ NL) with (String "013" (String "010" "")).
  revert s. induction n as [| n IH]; intros s Hlen.
  { destruct s; [| cbn in Hlen; lia]. repeat split. repeat constructor. }
  destruct s as [| c rest]; [repeat split; repeat constructor |].
  cbn [String.length] in Hlen.
  destruct (is_lf c) eqn:Hlf.
  { apply is_lf_true in Hlf. subst c.
    destruct (IH rest ltac:(lia)) as (Hc & Hl & Hall).
    change (splitSourceLine (String "010" rest)) with ("" :: splitSourceLine rest).
    rewrite concat_cons_more by apply splitSourceLine_not_nil.
    rewrite replace_crlf_other by (intros; reflexivity).
    rewrite Hc. cbn [length count_char]. rewrite Hl.
    repeat split. constructor; [reflexivity | exact Hall]. }
  destruct (is_cr c) eqn:Hcr.
  - apply is_cr_true in Hcr. subst c.
    destruct rest as [| c' rest'].
    + repeat split. repeat constructor.
    + destruct (is_lf c') eqn:Hlf'.
      * apply is_lf_true in Hlf'. subst c'. cbn [String.length] in Hlen.
        destruct (IH rest' ltac:(lia)) as (Hc & Hl & Hall).
        change (splitSourceLine (String "013" (String "010" rest')))
          with ("" :: splitSourceLine rest').
        rewrite concat_cons_more by apply splitSourceLine_not_nil.
        rewrite replace_crlf_hit.
        rewrite Hc. cbn [length count_char]. rewrite Hl.
        repeat split. constructor; [reflexivity | exact Hall].
      * assert (Hno : forall r, String c' rest' = String "010" r -> is_cr "013" = false).
        { intros r [= -> _]. discriminate Hlf'. }
        rewrite splitSourceLine_other, replace_crlf_other by assumption.
        destruct (IH (String c' rest') ltac:(lia)) as (Hc & Hl & Hall).
        pose proof (splitSourceLine_not_nil (String c' rest')) as Hne.
        destruct (splitSourceLine (String c' rest')) as [| cur more]; [congruence |].
        rewrite concat_head_char, Hc. cbn [length count_char] in *. rewrite Hl.
        repeat split.
        inversion Hall as [| ? ? Hcur Hmore]; subst.
        constructor; [| exact Hmore].
        cbn [Spec.all_chars]. now rewrite Hcur.
  - assert (Hno : forall r, rest = String "010" r -> is_cr c = false) by (intros; exact Hcr).
    rewrite splitSourceLine_other, replace_crlf_other by assumption.
    destruct (IH rest ltac:(lia)) as (Hc & Hl & Hall).
    pose proof (splitSourceLine_not_nil rest) as Hne.
    destruct (splitSourceLine rest) as [| cur more]; [congruence |].
    rewrite concat_head_char, Hc. cbn [length count_char] in *. rewrite Hl.
    unfold is_lf in Hlf. rewrite Hlf.
    repeat split.
    inversion Hall as [| ? ? Hcur Hmore]; subst.
    constructor; [| exact Hmore].
    cbn [Spec.all_chars]. unfold Spec.is_not at 1. now rewrite Hlf, Hcur.
Qed.

End LineFacts.

(** X1. Joining the lines [splitSourceLine] returns with a line feed gives
    the source back with every carriage return and line feed pair replaced
    by a line feed: nothing but the line ends is lost. *)
Theorem X1_split_lines_rejoin (source : string) :
  join NL (splitSourceLine source) = replace_all (Notion.CR +:+ NL) NL source.
Proof.
  rewrite join_concat.
  exact (proj1 (splitSourceLine_facts (String.length source) source (le_n _))).
Qed.

(** X2. [splitSourceLine] returns one line more than the source has line
    feeds, so at least one, and no line holds a line feed. *)
Theorem X2_split_lines_count (source : string) :
  length (splitSourceLine source) = S (Notion.count_char "010" source) /\
  Forall (fun l => Spec.all_chars (Spec.is_not "010") l = true) (splitSourceLine source).
Proof.
  exact (proj2 (splitSourceLine_facts (String.length source) source (le_n _))).
Qed.

(** ** What the sink emits *)

Section EmissionFacts.
Import Notion.
Variable logLevel : option Z.
Variable resourcePath : string.

Lemma existsb_push {A} (f : A -> bool) (l : list A) (x : A) :
  existsb f (push l x) = existsb f l || f x.
Proof. unfold push. rewrite existsb_app. cbn. now rewrite orb_false_r. Qed.

Lemma logWarn_step_emits (out : list emission) (flag : bool) (l : log) :
  flag = existsb is_emit_error out ->
  snd (logWarn_step logLevel resourcePath (out, flag) l)
  = existsb is_emit_error (fst (logWarn_step logLevel resourcePath (out, flag) l)).
Proof.
  intros ->. unfold logWarn_step.
  destruct (startsWith (reason l) "NOTE" && level_le logLevel 1);
    [cbn [fst snd]; rewrite existsb_push; cbn; now rewrite orb_false_r |].
  destruct (startsWith (reason l) "WARN" && level_le logLevel 2);
    [cbn [fst snd]; rewrite existsb_push; cbn; now rewrite orb_false_r |].
  destruct (startsWith (reason l) "ERROR" && level_le logLevel 3);
    [cbn [fst snd]; rewrite existsb_push; cbn; now rewrite orb_true_r |].
  reflexivity.
Qed.

Lemma logWarn_fold_emits (logs : list log) (st : list emission * bool) :
  snd st = existsb is_emit_error (fst st) ->
  snd (fold_left (logWarn_step logLevel resourcePath) logs st)
  = existsb is_emit_error (fst (fold_left (logWarn_step logLevel resourcePath) logs st)).
Proof.
  revert st. induction logs as [| l logs IH]; intros [out flag] Hst; [exact Hst |].
  cbn [fold_left]. apply IH.
  destruct (logWarn_step logLevel resourcePath (out, flag) l) as [out' flag'] eqn:Hstep.
  pose proof (logWarn_step_emits out flag l Hst) as Hs. now rewrite Hstep in Hs.
Qed.

(** At the level 3 one turn of the loop emits for an Error entry and for no
    other. *)
Lemma logWarn_step_level3 (out : list emission) (flag : bool) (l : log) :
  fst (logWarn_step (Some 3%Z) resourcePath (out, flag) l)
  = (out ++ (if isError l then [EmitError (error_message resourcePath l)] else []))%list.
Proof.
  unfold logWarn_step. fold (isNote l) (isWarn l) (isError l).
  cbn [level_le]. change (3 <=? 1)%Z with false. change (3 <=? 2)%Z with false.
  change (3 <=? 3)%Z with true. rewrite !andb_false_r, andb_true_r.
  destruct (isError l); [reflexivity | cbn [fst]; now rewrite app_nil_r].
Qed.

Lemma logWarn_fold_level3 (logs : list log) (st : list emission * bool) :
  fst (fold_left (logWarn_step (Some 3%Z) resourcePath) logs st)
  = (fst st ++ map (fun l => EmitError (error_message resourcePath l)) (filter (fun l => isError l = true) logs))%list.
Proof.
  revert st. induction logs as [| l logs IH]; intros [out flag].
  - cbn. now rewrite app_nil_r.
  - cbn [fold_left]. rewrite IH.
    destruct (logWarn_step (Some 3%Z) resourcePath (out, flag) l) as [out' flag'] eqn:Hstep.
    pose proof (logWarn_step_level3 out flag l) as Hs. rewrite Hstep in Hs. cbn [fst] in *.
    subst out'. rewrite filter_cons.
    destruct (decide (isError l = true)) as [He | He].
    + rewrite He. cbn [map]. now rewrite <- app_assoc.
    + apply not_true_is_false in He. rewrite He. now rewrite app_nil_r.
Qed.

End EmissionFacts.

(** X3. The flag [logWarn] returns tells whether it emitted an error on the
    loader: it is [true] exactly when one of its emissions went through
    [emitError], at every level and for every list of entries. *)
Theorem X3_flag_tells_emitted_error (logLevel : option Z) (resourcePath : string)
    (logs : list log) :
  snd (logWarn logLevel resourcePath logs)
  = existsb Notion.is_emit_error (fst (logWarn logLevel resourcePath logs)).
Proof.
  unfold logWarn. destruct (level_positive logLevel); [| reflexivity].
  destruct logs as [| l logs]; [reflexivity |].
  now apply logWarn_fold_emits.
Qed.

(** X4. At the level 3 the sink lets only errors through: it emits one error
    for each Error entry, in the order of the entries, with the reason
    stripped of its label between the markers, and nothing for the notes and
    the warnings. *)
Theorem X4_level_three_errors_only (resourcePath : string) (logs : list log) :
  fst (logWarn (Some 3%Z) resourcePath logs)
  = map (fun l => EmitError (Notion.error_message resourcePath l))
        (filter (fun l => isError l = true) logs).
Proof.
  unfold logWarn. cbn [level_positive]. change (0 <? 3)%Z with true. cbn match.
  destruct logs as [| l logs]; [reflexivity |].
  now rewrite logWarn_fold_level3.
Qed.

(** ** The position map, for every consumer *)

Section PositionMapGeneral.
Import Spec Notion.
Variable opf : nat -> nat -> position.

Lemma append_inj_l (a x y : string) : a +:+ x = a +:+ y -> x = y.
Proof.
  induction a as [| c a IH]; [now rewrite !append_empty_l |].
  rewrite !append_cons. intros [= Heq]. now apply IH.
Qed.

Lemma append_inj_r (t x y : string) : x +:+ t = y +:+ t -> x = y.
Proof.
  revert y. induction x as [| c x IH]; intros y Heq.
  - apply (f_equal String.length) in Heq. rewrite append_empty_l, string_length_app in Heq.
    destruct y; [reflexivity | cbn in Heq; lia].
  - destruct y as [| c' y].
    + apply (f_equal String.length) in Heq.
      rewrite append_empty_l, string_length_app in Heq. cbn in Heq. lia.
    + rewrite !append_cons in Heq. injection Heq as -> Heq. f_equal. now apply IH.
Qed.

Lemma mapping_key_inj (a b : nat) : mapping_key a 0 = mapping_key b 0 -> a = b.
Proof.
  unfold mapping_key. intros Heq. apply append_inj_l in Heq.
  rewrite <- !append_assoc in Heq. apply append_inj_r in Heq. apply append_inj_r in Heq.
  now apply (inj pretty) in Heq.
Qed.

Lemma record_lines_lookup (lines : list nat) (m : gmap string (option nat * option nat))
    (l : nat) :
  fold_left (record_line opf) lines m !! mapping_key l 0
  = if decide (l ∈ lines) then Some (original_at opf l) else m !! mapping_key l 0.
Proof.
  revert m. induction lines as [| x lines IH]; intros m; [reflexivity |].
  cbn [fold_left]. rewrite IH. unfold record_line.
  destruct (decide (l ∈ lines)) as [Hin | Hin].
  - rewrite decide_True by now right. reflexivity.
  - destruct (decide (l = x)) as [-> | Hne].
    + rewrite decide_True by now left. apply lookup_insert_eq.
    + rewrite decide_False by (intros Hc; apply elem_of_cons in Hc as [? | ?]; tauto).
      apply lookup_insert_ne. intros Hk. apply mapping_key_inj in Hk. congruence.
Qed.

Lemma record_lines_size (lines : list nat) (m : gmap string (option nat * option nat)) :
  NoDup lines ->
  (forall l, l ∈ lines -> m !! mapping_key l 0 = None) ->
  size (fold_left (record_line opf) lines m) = length lines + size m.
Proof.
  revert m. induction lines as [| x lines IH]; intros m Hnd Hfresh; [reflexivity |].
  apply NoDup_cons in Hnd as [Hx Hnd]. cbn [fold_left length].
  rewrite IH; [| exact Hnd |].
  - unfold record_line. rewrite map_size_insert_None by (apply Hfresh; now left). lia.
  - intros l Hl. unfold record_line. rewrite lookup_insert_ne.
    + apply Hfresh. now right.
    + intros Hk. apply mapping_key_inj in Hk. subst. contradiction.
Qed.

Lemma consumeMap_source_loop (first count : nat) (st : consumed) :
  cm_source (fold_left (consumeMap_step opf) (seq first count) st)
  = match last (filter (fun l => resolves opf l = true) (seq (first + 1) count)) with
    | Some l => pos_source (opf l 0)
    | None => cm_source st
    end.
Proof.
  revert first st. induction count as [| count IH]; intros first st; [reflexivity |].
  cbn [seq fold_left]. rewrite IH. rewrite filter_cons.
  replace (S first + 1) with (S (first + 1)) by lia.
  set (rest := filter (fun l => resolves opf l = true) (seq (S (first + 1)) count)).
  destruct (decide (resolves opf (first + 1) = true)) as [Hr | Hr].
  - rewrite (consumeMap_step_resolves _ _ _ Hr). cbn [cm_source].
    destruct rest as [| y rest']; [reflexivity |].
    change (last (first + 1 :: y :: rest')) with (last (y :: rest')).
    destruct (last (y :: rest')) eqn:Hl; [reflexivity |].
    apply last_None in Hl. discriminate Hl.
  - apply not_true_is_false in Hr. now rewrite (consumeMap_step_skips _ _ _ Hr).
Qed.

End PositionMapGeneral.

(** X5. For every consumer and every generated text, the mapping
    [consumeMap] builds has an entry under the key of a line exactly when the
    line is one of the text and resolves at column 0 to a truthy source, and
    the entry is the original line and column the consumer answers. *)
Theorem X5_position_map_entries (opf : nat -> nat -> position) (target : string) (l : nat) :
  cm_mapping (consumeMap opf target) !! mapping_key l 0
  = if (1 <=? l)%nat && (l <=? length (splitSourceLine target))%nat && Spec.resolves opf l
    then Some (Spec.original_at opf l) else None.
Proof.
  destruct (consumeMap_loop opf 0 (length (splitSourceLine target))
              {| cm_source := None; cm_original := []; cm_generated := [];
                 cm_mapping := ∅ |}) as (Hm & _ & _).
  cbn zeta in Hm. change (0 + 1) with 1 in Hm. cbn [cm_mapping] in Hm.
  unfold consumeMap. rewrite Hm, record_lines_lookup, lookup_empty.
  set (n := length (splitSourceLine target)).
  destruct (decide (l ∈ filter (fun l0 => Spec.resolves opf l0 = true) (seq 1 n)))
    as [Hin | Hin].
  - apply list_elem_of_filter in Hin as [Hr Hseq]. apply elem_of_seq in Hseq.
    rewrite Hr. replace (1 <=? l)%nat with true by (symmetry; apply Nat.leb_le; lia).
    replace (l <=? n)%nat with true by (symmetry; apply Nat.leb_le; lia). reflexivity.
  - destruct ((1 <=? l)%nat && (l <=? n)%nat && Spec.resolves opf l) eqn:Hc; [| reflexivity].
    apply andb_prop in Hc as [Hc Hr]. apply andb_prop in Hc as [H1 H2].
    apply Nat.leb_le in H1, H2. exfalso. apply Hin.
    apply list_elem_of_filter. split; [exact Hr |]. apply elem_of_seq. lia.
Qed.

(** X6. The lists [consumeMap] returns stay aligned: [generated] holds the
    resolving lines of the text in ascending order, each at column 0,
    [original] holds at the same index what the consumer answers for that
    line, the mapping has one entry for each of them, and [source] is the
    source of the last resolving line, or [undefined] when no line
    resolves. *)
Theorem X6_position_map_aligned (opf : nat -> nat -> position) (target : string) :
  let r := consumeMap opf target in
  let lines := Notion.resolved_lines opf target in
  cm_generated r = map (fun l => (l, 0)) lines /\
  cm_original r = map (Spec.original_at opf) lines /\
  size (cm_mapping r) = length lines /\
  cm_source r = match last lines with
                | Some l => pos_source (opf l 0)
                | None => None
                end.
Proof.
  intros r lines.
  destruct (consumeMap_loop opf 0 (length (splitSourceLine target))
              {| cm_source := None; cm_original := []; cm_generated := [];
                 cm_mapping := ∅ |}) as (Hm & Hg & Ho).
  cbn zeta in Hm, Hg, Ho. change (0 + 1) with 1 in Hm, Hg, Ho.
  cbn [cm_mapping cm_generated cm_original app] in Hm, Hg, Ho.
  unfold r, consumeMap. split; [exact Hg |]. split; [exact Ho |]. split.
  - rewrite Hm, record_lines_size.
    + rewrite map_size_empty. apply Nat.add_0_r.
    + apply NoDup_filter, NoDup_seq.
    + intros; apply lookup_empty.
  - now rewrite consumeMap_source_loop.
Qed.

(** ** Names and module references *)

Section NameFacts.

Lemma replace_all_same_char (c : ascii) (s : string) :
  replace_all (String c "") (String c "") s = s.
Proof.
  unfold replace_all. induction s as [| d s IH]; [reflexivity |].
  cbn [replace_all_go]. rewrite prefix_cons, prefix_empty, andb_true_r.
  destruct (Ascii.eqb c d) eqn:Hc.
  - apply Ascii.eqb_eq in Hc. subst d. cbn [String.length Nat.sub].
    rewrite append_cons, append_empty_l. now rewrite IH.
  - now rewrite IH.
Qed.

Lemma take_substring (i n : nat) (s : string) :
  take (i + n) s = take i s +:+ substring i n s.
Proof.
  revert s. induction i as [| i IH]; intros s.
  - cbn [Nat.add take]. rewrite append_empty_l.
    revert s. induction n as [| n IHn]; intros [| c s]; try reflexivity.
    cbn [take substring]. now rewrite IHn.
  - destruct s as [| c s]; [reflexivity |].
    cbn [Nat.add take substring]. rewrite append_cons. now rewrite IH.
Qed.

Lemma prefix_take (k : nat) (s : string) : String.prefix (take k s) s = true.
Proof.
  revert s. induction k as [| k IH]; intros [| c s]; try reflexivity.
  cbn [take]. rewrite prefix_cons, Ascii.eqb_refl. apply IH.
Qed.

Lemma strip_from_dot_splits (s : string) :
  no_line_terminator s = true ->
  Spec.all_chars (Spec.is_not ".") (strip_from_dot s) = true /\
  (s = strip_from_dot s \/ exists rest, s = strip_from_dot s +:+ "." +:+ rest).
Proof.
  induction s as [| c s IH]; intros Hnl; [split; [reflexivity | now left] |].
  cbn [no_line_terminator] in Hnl. apply andb_prop in Hnl as [_ Hnl].
  cbn [strip_from_dot]. rewrite Hnl, andb_true_r.
  destruct (Ascii.eqb c ".") eqn:Hc.
  - apply Ascii.eqb_eq in Hc. subst c. split; [reflexivity |].
    right. exists s. now rewrite append_empty_l.
  - destruct (IH Hnl) as [Hall Hsplit]. split.
    + cbn [Spec.all_chars]. unfold Spec.is_not at 1. now rewrite Hc, Hall.
    + destruct Hsplit as [Heq | [rest Heq]].
      * left. now f_equal.
      * right. exists rest. rewrite append_cons. now f_equal.
Qed.

End NameFacts.

(** X7. [loadBabelModule] cuts the resolved path of a module after the
    first occurrence of the module's name: on a host whose separator is [/],
    when the name resolves to a path that contains it, the result is the
    part of the path before that occurrence followed by the name, and it is
    a prefix of the path; when the name does not resolve, the name itself is
    returned. *)
Theorem X7_babel_module_root (H : host) (m : string) :
  (forall filePath i,
     path_sep H = "/" ->
     require_resolve H m = Some filePath ->
     indexOf filePath m = Some i ->
     loadBabelModule H (Some m) = Some (take i filePath +:+ m) /\
     String.prefix (take i filePath +:+ m) filePath = true) /\
  (require_resolve H m = None -> loadBabelModule H (Some m) = Some m).
Proof.
  split.
  - intros filePath i Hsep Hres Hidx. unfold loadBabelModule. rewrite Hres, Hsep.
    change "/" with (String "/" "") at 1 2. rewrite replace_all_same_char, Hidx.
    unfold indexOf in Hidx. apply String.index_correct1 in Hidx.
    rewrite take_substring, Hidx. split; [reflexivity |].
    rewrite <- Hidx at 1. rewrite <- take_substring. apply prefix_take.
  - intros Hres. unfold loadBabelModule. now rewrite Hres.
Qed.

Lemma X7_babel_module_root_witness :
  loadBabelModule (Sample.node_host []) (Some "babel-loader")
  = Some "/app/node_modules/babel-loader" /\
  String.prefix "/app/node_modules/babel-loader"
    "/app/node_modules/babel-loader/lib/index.js" = true.
Proof.
  exact (proj1 (X7_babel_module_root (Sample.node_host []) "babel-loader")
           "/app/node_modules/babel-loader/lib/index.js" 18 eq_refl eq_refl eq_refl).
Defined.

(** X8. The name [getNameByPath] derives from a path is the base name up
    to its first dot: when the base name holds no line terminator, the name
    holds no dot, and the base name is the name itself or the name followed
    by a dot and the rest. *)
Theorem X8_name_stops_at_first_dot (H : host) (resourcePath : string) :
  no_line_terminator (path_basename H resourcePath) = true ->
  Spec.all_chars (Spec.is_not ".") (getNameByPath H resourcePath) = true /\
  (path_basename H resourcePath = getNameByPath H resourcePath \/
   exists rest,
     path_basename H resourcePath = getNameByPath H resourcePath +:+ "." +:+ rest).
Proof.
  intros Hnl. unfold getNameByPath. now apply strip_from_dot_splits.
Qed.

Lemma X8_name_stops_at_first_dot_witness :
  let H := Example.posix [] Example.no_reserved in
  let resourcePath := "/app/pages/index/index.test.hml" in
  Spec.all_chars (Spec.is_not ".") (getNameByPath H resourcePath) = true /\
  (path_basename H resourcePath = getNameByPath H resourcePath \/
   exists rest,
     path_basename H resourcePath = getNameByPath H resourcePath +:+ "." +:+ rest).
Proof.
  apply (X8_name_stops_at_first_dot (Example.posix [] Example.no_reserved)
           "/app/pages/index/index.test.hml").
  reflexivity.
Defined.

(** ** What a compilation keeps of the graph *)

Section GraphGrowth.
Import Loader Notion.
Variable H : host.
Variable E : env.
Variable parseFragment : string -> list element.

Lemma get_prop_set_prop_other_name (k k' p q : string) (v : jsval) (els : elements_map) :
  p <> q -> get_prop (set_prop k p v els) k' q = get_prop els k' q.
Proof.
  intros Hne. unfold get_prop, set_prop. destruct (els !! k) as [r |] eqn:Hk; [| reflexivity].
  destruct (decide (k = k')) as [<- | Hk'].
  - rewrite lookup_insert_eq, Hk. now rewrite lookup_insert_ne.
  - now rewrite lookup_insert_ne.
Qed.

(** Setting a name to [true] keeps every truthy property truthy. *)
Lemma set_true_keeps (k name k' p : string) (els : elements_map) :
  truthy_val (get_prop els k' p) = true ->
  truthy_val (get_prop (set_prop k name VTrue els) k' p) = true.
Proof.
  intros Hheld. destruct (decide (name = p)) as [-> | Hne].
  - destruct (decide (k = k')) as [<- | Hk].
    + destruct (els !! k) as [r |] eqn:Hr.
      * rewrite get_prop_set_prop_same by (rewrite Hr; eauto). reflexivity.
      * unfold set_prop. now rewrite Hr.
    + now rewrite get_prop_set_prop_other.
  - now rewrite get_prop_set_prop_other_name.
Qed.

Lemma ensure_record_lookup_other (k k' : string) (els : elements_map) :
  k <> k' -> ensure_record k els !! k' = els !! k'.
Proof.
  intros Hne. unfold ensure_record. destruct (els !! k); [reflexivity |].
  now rewrite lookup_insert_ne.
Qed.

Lemma set_prop_lookup_other (k k' p : string) (v : jsval) (els : elements_map) :
  k <> k' -> set_prop k p v els !! k' = els !! k'.
Proof.
  intros Hne. unfold set_prop. destruct (els !! k); [| reflexivity].
  now rewrite lookup_insert_ne.
Qed.

Lemma set_prop_is_Some (k k' p : string) (v : jsval) (els : elements_map) :
  is_Some (els !! k') -> is_Some (set_prop k p v els !! k').
Proof.
  intros Hs. unfold set_prop. destruct (els !! k) eqn:Hk; [| exact Hs].
  destruct (decide (k = k')) as [<- | Hne].
  - rewrite lookup_insert_eq. eauto.
  - now rewrite lookup_insert_ne.
Qed.

(** The registration keeps every truthy name other than [parent]. *)
Lemma register_keeps (c : context) (name k p : string) (els : elements_map) :
  p <> "parent" ->
  truthy_val (get_prop els k p) = true ->
  truthy_val (get_prop (fst (register c name els)) k p) = true.
Proof.
  intros Hp Hheld. unfold register.
  destruct (query_entry c).
  - cbn [fst]. apply set_true_keeps. now rewrite get_prop_ensure_record.
  - match goal with
    | |- context [if ?b then _ else _] => destruct b
    end; cbn [fst];
      rewrite ?get_prop_set_prop_other_name by congruence;
      now rewrite get_prop_ensure_record.
Qed.

Lemma warn_elements (c : context) (reason : string) (w : world) :
  elements (warn E c reason w) = elements w.
Proof. reflexivity. Qed.

Lemma warn_logged (c : context) (reason : string) (w : world) :
  logged (warn E c reason w) = (logged w ++ [mkLog reason None None])%list.
Proof. reflexivity. Qed.

Lemma checkEntry_elements (c : context) (filePath elementSrc : string) (w : world) :
  elements (checkEntry H E c filePath elementSrc w) = elements w.
Proof.
  unfold checkEntry. destruct (compilation_entries c) as [keys |]; [| reflexivity].
  revert w. induction keys as [| key keys IH]; intros w; [reflexivity |].
  cbn [fold_left]. rewrite IH. now destruct (String.eqb _ filePath).
Qed.

Lemma checkEntry_logged (c : context) (filePath elementSrc : string) (w : world) :
  exists more, logged (checkEntry H E c filePath elementSrc w) = (logged w ++ more)%list.
Proof.
  unfold checkEntry. destruct (compilation_entries c) as [keys |];
    [| exists []; now rewrite app_nil_r].
  revert w. induction keys as [| key keys IH]; intros w;
    [exists []; now rewrite app_nil_r |].
  cbn [fold_left].
  match goal with
  | |- context [fold_left _ keys ?w1] => destruct (IH w1) as [more Hmore]; rewrite Hmore
  end.
  destruct (String.eqb _ filePath).
  - rewrite warn_logged, <- app_assoc. eauto.
  - eauto.
Qed.

Lemma checkEntry_console (c : context) (filePath elementSrc : string) (w : world) :
  console (checkEntry H E c filePath elementSrc w) = console w.
Proof.
  unfold checkEntry. destruct (compilation_entries c) as [keys |]; [| reflexivity].
  revert w. induction keys as [| key keys IH]; intros w; [reflexivity |].
  cbn [fold_left]. rewrite IH. now destruct (String.eqb _ filePath).
Qed.

Lemma loop_passes (c : context) (el : element) (rest : list element)
    (customLang : gmap string (list string)) (parentPath : jsval) (output : string)
    (w : world) :
  element_passes H c el = true ->
  loadPageCheckElementLength_loop H E c (el :: rest) customLang parentPath output w
  = loadPageCheckElementLength_loop H E c rest customLang parentPath
      (output +:+ element_text H E customLang parentPath el)
      (element_turn H E c customLang parentPath el w).
Proof.
  unfold element_passes, element_turn, element_text, element_name, element_src.
  cbn [loadPageCheckElementLength_loop].
  destruct (truthy (el_src el)) as [src0 |]; [| discriminate].
  intros Hpass. apply negb_true_iff in Hpass. rewrite Hpass. reflexivity.
Qed.

Lemma loop_stops (c : context) (el : element) (rest : list element)
    (customLang : gmap string (list string)) (parentPath : jsval) (output : string)
    (w : world) :
  element_passes H c el = false ->
  exists reason,
    loadPageCheckElementLength_loop H E c (el :: rest) customLang parentPath output w
    = ("", warn E c reason w).
Proof.
  unfold element_passes, element_src. cbn [loadPageCheckElementLength_loop].
  destruct (truthy (el_src el)) as [src0 |]; [| eauto].
  intros Hpass. apply negb_false_iff in Hpass. rewrite Hpass. eauto.
Qed.

Lemma element_turn_keeps (c : context) (customLang : gmap string (list string))
    (parentPath : jsval) (el : element) (w : world) (k p : string) :
  truthy_val (get_prop (elements w) k p) = true ->
  truthy_val (get_prop (elements (element_turn H E c customLang parentPath el w)) k p) = true.
Proof.
  intros Hheld. unfold element_turn. rewrite checkEntry_elements.
  cbn [with_elements elements].
  destruct (truthy_val (get_prop (ensure_record _ _) _ _)).
  - rewrite warn_elements. cbn [with_elements elements]. now rewrite get_prop_ensure_record.
  - cbn [with_elements elements]. apply set_true_keeps. now rewrite get_prop_ensure_record.
Qed.

Lemma element_turn_registers (c : context) (customLang : gmap string (list string))
    (parentPath : jsval) (el : element) (w : world) :
  truthy_val (get_prop (elements (element_turn H E c customLang parentPath el w))
                (to_key parentPath) (element_name H el)) = true.
Proof.
  unfold element_turn. rewrite checkEntry_elements. cbn [with_elements elements].
  destruct (truthy_val (get_prop (ensure_record _ _) _ _)) eqn:Hheld.
  - rewrite warn_elements. cbn [with_elements elements]. exact Hheld.
  - cbn [with_elements elements]. rewrite get_prop_set_prop_same by apply ensure_record_is_Some.
    reflexivity.
Qed.

Lemma element_turn_logged (c : context) (customLang : gmap string (list string))
    (parentPath : jsval) (el : element) (w : world) :
  exists more,
    logged (element_turn H E c customLang parentPath el w) = (logged w ++ more)%list.
Proof.
  unfold element_turn.
  match goal with
  | |- context [checkEntry H E c ?f ?s ?w1] =>
      destruct (checkEntry_logged c f s w1) as [more Hmore]; rewrite Hmore
  end.
  cbn [with_elements elements logged].
  destruct (truthy_val (get_prop (ensure_record _ _) _ _)).
  - rewrite warn_logged. cbn [logged]. rewrite <- app_assoc. eauto.
  - cbn [logged]. eauto.
Qed.

Lemma element_turn_reports (c : context) (customLang : gmap string (list string))
    (parentPath : jsval) (el : element) (w : world) :
  truthy_val (get_prop (elements w) (to_key parentPath) (element_name H el)) = true ->
  In (same_name (element_name H el))
     (logged (element_turn H E c customLang parentPath el w)).
Proof.
  intros Hheld. unfold element_turn.
  match goal with
  | |- context [checkEntry H E c ?f ?s ?w1] =>
      destruct (checkEntry_logged c f s w1) as [more Hmore]; rewrite Hmore
  end.
  cbn [with_elements elements logged]. rewrite get_prop_ensure_record, Hheld.
  rewrite warn_logged. apply in_or_app. left. apply in_or_app. right. now left.
Qed.

Lemma element_turn_console (c : context) (customLang : gmap string (list string))
    (parentPath : jsval) (el : element) (w : world) :
  console (element_turn H E c customLang parentPath el w) = console w.
Proof.
  unfold element_turn. rewrite checkEntry_console. cbn [with_elements elements].
  now destruct (truthy_val (get_prop (ensure_record _ _) _ _)).
Qed.

Lemma element_turn_records (c : context) (customLang : gmap string (list string))
    (parentPath : jsval) (el : element) (w : world) (k : string) :
  is_Some (elements w !! k) ->
  is_Some (elements (element_turn H E c customLang parentPath el w) !! k).
Proof.
  intros Hs. unfold element_turn. rewrite checkEntry_elements.
  cbn [with_elements elements].
  assert (He : is_Some (ensure_record (to_key parentPath) (elements w) !! k)).
  { unfold ensure_record. destruct (elements w !! to_key parentPath) eqn:Hk; [exact Hs |].
    destruct (decide (to_key parentPath = k)) as [<- | Hne].
    - rewrite lookup_insert_eq. eauto.
    - now rewrite lookup_insert_ne. }
  destruct (truthy_val (get_prop (ensure_record _ _) _ _)).
  - exact He.
  - cbn [with_elements elements]. now apply set_prop_is_Some.
Qed.

(** The element loop keeps every record and every truthy property, and
    appends to the diagnostics. *)
Lemma loop_grows (c : context) (frag : list element)
    (customLang : gmap string (list string)) (parentPath : jsval) (output : string)
    (w : world) :
  let w' := snd (loadPageCheckElementLength_loop H E c frag customLang parentPath output w) in
  (forall k, is_Some (elements w !! k) -> is_Some (elements w' !! k)) /\
  (forall k p, truthy_val (get_prop (elements w) k p) = true ->
               truthy_val (get_prop (elements w') k p) = true) /\
  (exists more, logged w' = (logged w ++ more)%list) /\
  console w' = console w.
Proof.
  revert output w. induction frag as [| el rest IH]; intros output w; cbn zeta.
  { cbn. repeat split; auto. exists []. now rewrite app_nil_r. }
  destruct (element_passes H c el) eqn:Hpass.
  - rewrite (loop_passes c el rest customLang parentPath output w Hpass).
    specialize (IH (output +:+ element_text H E customLang parentPath el)
                   (element_turn H E c customLang parentPath el w)).
    cbn zeta in IH. destruct IH as (Hrec & Hkeep & [more Hlog] & Hcon).
    split; [| split; [| split]].
    + intros k Hk. apply Hrec. now apply element_turn_records.
    + intros k p Hheld. apply Hkeep. now apply element_turn_keeps.
    + destruct (element_turn_logged c customLang parentPath el w) as [more0 Hmore0].
      exists (more0 ++ more)%list. now rewrite Hlog, Hmore0, <- app_assoc.
    + rewrite Hcon. apply element_turn_console.
  - destruct (loop_stops c el rest customLang parentPath output w Hpass) as [reason ->].
    cbn [snd]. repeat split; auto. eexists. apply warn_logged.
Qed.

Lemma register_records (c : context) (name k : string) (els : elements_map) :
  is_Some (els !! k) -> is_Some (fst (register c name els) !! k).
Proof.
  intros Hs.
  assert (He : is_Some (ensure_record (resourcePath c) els !! k)).
  { unfold ensure_record. destruct (els !! resourcePath c) eqn:Hk; [exact Hs |].
    destruct (decide (resourcePath c = k)) as [<- | Hne].
    - rewrite lookup_insert_eq. eauto.
    - now rewrite lookup_insert_ne. }
  unfold register. destruct (query_entry c).
  - cbn [fst]. now apply set_prop_is_Some.
  - match goal with
    | |- context [if ?b then _ else _] => destruct b
    end; cbn [fst]; repeat apply set_prop_is_Some; exact He.
Qed.

Lemma loadPage_grows (c : context) (name : string) (isEntry : bool)
    (customLang : gmap string (list string)) (source_ : string) (parentPath : jsval)
    (w : world) :
  let w' := snd (loadPage H E parseFragment c name isEntry customLang source_ parentPath w) in
  (forall k, is_Some (elements w !! k) -> is_Some (elements w' !! k)) /\
  (forall k p, truthy_val (get_prop (elements w) k p) = true ->
               truthy_val (get_prop (elements w') k p) = true) /\
  (exists more, logged w' = (logged w ++ more)%list) /\
  (exists more, console w' = (console w ++ more)%list).
Proof.
  cbn zeta. unfold loadPage.
  destruct (contains (path_extname H (resourcePath c)) ".hml").
  2:{ cbn [snd]. repeat split; auto; exists []; now rewrite app_nil_r. }
  pose proof (loop_grows c (parseFragment source_) customLang parentPath "" w) as Hloop.
  cbn zeta in Hloop. unfold loadPageCheckElementLength.
  destruct (loadPageCheckElementLength_loop H E c (parseFragment source_) customLang
              parentPath "" w) as [out1 w1].
  cbn [snd] in Hloop. destruct Hloop as (Hrec & Hkeep & Hlog & Hcon).
  destruct (loadPageFindCss H E (strip_extname H c) customLang) as [extcss cssOutput].
  unfold loadPageFindJs.
  destruct (negb (existsSync H (strip_extname H c +:+ ".js"))); cbn [snd].
  - repeat split; auto. rewrite <- Hcon. eexists. reflexivity.
  - repeat split; auto. rewrite <- Hcon. exists []. now rewrite app_nil_r.
Qed.

End GraphGrowth.

(** X9. A compilation never takes anything out of the graph or out of the
    diagnostics: every record the graph holds before [loader] runs is held
    after it, every name other than [parent] that a record holds stays held,
    and the diagnostics handed to [logWarn] and the lines on the console are
    those from before, followed by the new ones. *)
Theorem X9_compilation_only_adds (H : host) (E : env)
    (parseFragment : string -> list Loader.element) (c : Loader.context)
    (source_ : string) (w : Loader.world) :
  let w' := snd (Loader.loader H E parseFragment c source_ w) in
  (forall k, is_Some (Loader.elements w !! k) -> is_Some (Loader.elements w' !! k)) /\
  (forall k p, p <> "parent" ->
     Loader.truthy_val (Loader.get_prop (Loader.elements w) k p) = true ->
     Loader.truthy_val (Loader.get_prop (Loader.elements w') k p) = true) /\
  (exists more, Loader.logged w' = (Loader.logged w ++ more)%list) /\
  (exists more, Loader.console w' = (Loader.console w ++ more)%list).
Proof.
  cbn zeta. unfold Loader.loader. fold (Notion.unit_name H c).
  pose proof (register_records c (Notion.unit_name H c)) as Hrec.
  pose proof (register_keeps c (Notion.unit_name H c)) as Hkeep.
  destruct (Loader.register c (Notion.unit_name H c) (Loader.elements w))
    as [els parentPath] eqn:Hreg.
  assert (Hrec' : forall k, is_Some (Loader.elements w !! k) -> is_Some (els !! k)).
  { intros k Hk. specialize (Hrec k (Loader.elements w) Hk). now rewrite Hreg in Hrec. }
  assert (Hkeep' : forall k p, p <> "parent" ->
            Loader.truthy_val (Loader.get_prop (Loader.elements w) k p) = true ->
            Loader.truthy_val (Loader.get_prop els k p) = true).
  { intros k p Hp Hheld. specialize (Hkeep k p (Loader.elements w) Hp Hheld).
    now rewrite Hreg in Hkeep. }
  destruct (isReservedTag H (Notion.unit_name H c) && env_is (abilityType E) "page").
  - cbn [snd]. repeat split; auto.
    + eexists. reflexivity.
    + exists []. now rewrite app_nil_r.
  - pose proof (loadPage_grows H E parseFragment c (Notion.unit_name H c)
                  (Loader.query_entry c) Loader.options_lang source_ parentPath
                  (Loader.with_elements els w)) as Hpage.
    cbn zeta in Hpage.
    destruct (Loader.loadPage H E parseFragment c (Notion.unit_name H c)
                (Loader.query_entry c) Loader.options_lang source_ parentPath
                (Loader.with_elements els w)) as [pageOutput w1].
    cbn [snd] in *. destruct Hpage as (Hr & Hk & Hl & Hc).
    repeat split; auto.
Qed.

Lemma X9_compilation_only_adds_witness :
  let w := snd (Example.compile_entry "/app/pages/index" "index") in
  let w' := snd (Example.compile_entry_then_b "/app/pages/index" "index") in
  Loader.truthy_val
    (Loader.get_prop (Loader.elements w') "/app/pages/index/index.hml" "x") = true.
Proof.
  intros w w'.
  apply (proj1 (proj2 (X9_compilation_only_adds
                         (Example.posix (Example.component_files "/app/pages/index")
                            Example.no_reserved)
                         Example.card_env Example.parse
                         (Example.child_of "/app/pages/index/b.hml" "x"
                            "/app/pages/index/index.hml")
                         Example.markup_of_b w))
           "/app/pages/index/index.hml" "x").
  - discriminate.
  - vm_compute. reflexivity.
Defined.

(** ** The element loop on markup whose elements all pass *)

Section ElementLoop.
Import Loader Notion.
Variable H : host.
Variable E : env.
Variable c : context.
Variable customLang : gmap string (list string).
Variable parentPath : jsval.

Lemma loop_all_pass (frag rest : list element) (output : string) (w : world) :
  forallb (element_passes H c) frag = true ->
  loadPageCheckElementLength_loop H E c (frag ++ rest) customLang parentPath output w
  = loadPageCheckElementLength_loop H E c rest customLang parentPath
      (output +:+ fold_right (fun el more => element_text H E customLang parentPath el +:+ more)
                    "" frag)
      (fold_left (fun w el => element_turn H E c customLang parentPath el w) frag w).
Proof.
  revert output w. induction frag as [| el frag IH]; intros output w Hpass.
  - cbn [app fold_right fold_left]. now rewrite append_empty_r.
  - cbn [forallb] in Hpass. apply andb_prop in Hpass as [Hel Hpass].
    change ((el :: frag) ++ rest)%list with (el :: (frag ++ rest))%list.
    rewrite (loop_passes H E c el _ customLang parentPath output w Hel).
    rewrite IH by exact Hpass. cbn [fold_right fold_left]. now rewrite append_assoc.
Qed.

Lemma turns_keep (frag : list element) (w : world) (k p : string) :
  truthy_val (get_prop (elements w) k p) = true ->
  truthy_val
    (get_prop (elements (fold_left (fun w el => element_turn H E c customLang parentPath el w)
                           frag w)) k p) = true.
Proof.
  revert w. induction frag as [| el frag IH]; intros w Hheld; [exact Hheld |].
  cbn [fold_left]. apply IH. now apply element_turn_keeps.
Qed.

Lemma turns_log (frag : list element) (w : world) (l : log) :
  In l (logged w) ->
  In l (logged (fold_left (fun w el => element_turn H E c customLang parentPath el w)
                  frag w)).
Proof.
  revert w. induction frag as [| el frag IH]; intros w Hin; [exact Hin |].
  cbn [fold_left]. apply IH.
  destruct (element_turn_logged H E c customLang parentPath el w) as [more ->].
  apply in_or_app. now left.
Qed.

Lemma turns_register (frag : list element) (w : world) (el : element) :
  In el frag ->
  truthy_val
    (get_prop (elements (fold_left (fun w el => element_turn H E c customLang parentPath el w)
                           frag w))
       (to_key parentPath) (element_name H el)) = true.
Proof.
  intros Hin. apply in_split in Hin as (l1 & l2 & ->).
  rewrite fold_left_app. cbn [fold_left]. apply turns_keep, element_turn_registers.
Qed.

Lemma stringify_main_stage (cfg : config) :
  truthy_opt_string (source cfg) = true ->
  getLoaderString H E KElement cfg = defaultLoaders_main H.
Proof.
  intros Hsrc. unfold getLoaderString, elementLoaders, stringifyLoaders. rewrite Hsrc.
  cbn [map stringifyLoader fold_left query_step length Nat.ltb Nat.leb].
  unfold join. cbn [fold_left join_step snd]. now rewrite append_empty_r, append_empty_l.
Qed.

Lemma append_truthy (a b : string) : truthy_string (a +:+ String "." b) = true.
Proof. destruct a; reflexivity. Qed.

Lemma element_src_truthy (el : element) :
  element_passes H c el = true -> truthy_string (element_src el) = true.
Proof.
  unfold element_passes, element_src. destruct (truthy (el_src el)) as [src0 |] eqn:Hsrc;
    [| discriminate].
  intros _. destruct (endsWith src0 ".hml").
  - unfold truthy in Hsrc. destruct (el_src el) as [s |]; [| discriminate].
    destruct (truthy_string s) eqn:Hs; [| discriminate]. now injection Hsrc as <-.
  - apply append_truthy.
Qed.

Lemma element_text_child_require (el : element) :
  element_passes H c el = true ->
  truthy_string (defaultLoaders_main H) = true ->
  element_text H E customLang parentPath el = child_require H parentPath el.
Proof.
  intros Hpass Hmain. unfold element_text, child_require.
  rewrite stringify_main_stage by (cbn [source truthy_opt_string]; now apply element_src_truthy).
  unfold getRequireString. now rewrite Hmain.
Qed.

End ElementLoop.





(** ** The loader on units it does not compile *)

Section LoaderEdges.
Import Loader Notion.
Variable H : host.
Variable E : env.
Variable parseFragment : string -> list element.

Lemma register_own_record (c : context) (name : string) (els : elements_map) :
  is_Some (fst (register c name els) !! resourcePath c).
Proof.
  pose proof (ensure_record_is_Some (resourcePath c) els) as He.
  unfold register. destruct (query_entry c).
  - cbn [fst]. now apply set_prop_is_Some.
  - match goal with
    | |- context [if ?b then _ else _] => destruct b
    end; cbn [fst]; repeat apply set_prop_is_Some; exact He.
Qed.

Lemma register_other_records (c : context) (name k : string) (els : elements_map) :
  k <> resourcePath c -> fst (register c name els) !! k = els !! k.
Proof.
  intros Hne. unfold register. destruct (query_entry c).
  - cbn [fst]. rewrite set_prop_lookup_other by congruence.
    now apply ensure_record_lookup_other.
  - match goal with
    | |- context [if ?b then _ else _] => destruct b
    end; cbn [fst]; rewrite !set_prop_lookup_other by congruence;
      now apply ensure_record_lookup_other.
Qed.

End LoaderEdges.

(** X12. A script that is not the application script passes through the
    loader unchanged: for a resource that ends in [.js], that [checkApp]
    refuses and whose extension does not hold [.hml], the loader returns the
    source as it is, with nothing reported and nothing written to the
    console. *)
Theorem X12_other_script_passes_through (H : host) (E : env)
    (parseFragment : string -> list Loader.element) (c : Loader.context)
    (source_ : string) (w : Loader.world) :
  Loader.checkApp H E c = false ->
  endsWith (Loader.resourcePath c) ".js" = true ->
  Loader.contains (path_extname H (Loader.resourcePath c)) ".hml" = false ->
  isReservedTag H (Notion.unit_name H c) && env_is (abilityType E) "page" = false ->
  let r := Loader.loader H E parseFragment c source_ w in
  fst r = source_ /\
  Loader.logged (snd r) = Loader.logged w /\
  Loader.emitted (snd r) = Loader.emitted w /\
  Loader.console (snd r) = Loader.console w.
Proof.
  intros Happ Hjs Hhml Hres. cbn zeta. unfold Loader.loader. fold (Notion.unit_name H c).
  destruct (Loader.register c (Notion.unit_name H c) (Loader.elements w)) as [els parentPath].
  rewrite Hres. unfold Loader.loadPage, Loader.loadApp. rewrite Hhml, Happ, Hjs.
  cbn [fst snd]. now rewrite append_empty_l, append_empty_r.
Qed.

Lemma X12_other_script_passes_through_witness :
  let r := Loader.loader (Example.posix [] Example.no_reserved) Example.page_env
             Example.parse Sample.script_unit "export const a = 1" Example.empty_world in
  fst r = "export const a = 1" /\
  Loader.logged (snd r) = [] /\
  Loader.emitted (snd r) = [] /\
  Loader.console (snd r) = [].
Proof.
  apply (X12_other_script_passes_through (Example.posix [] Example.no_reserved)
           Example.page_env Example.parse Sample.script_unit "export const a = 1"
           Example.empty_world); vm_compute; reflexivity.
Defined.

(** X13. A unit whose name is a reserved tag is refused on a page ability:
    the loader returns the empty text and hands [logWarn] one Error that
    names it, and the unit has been entered in the graph all the same. *)
Theorem X13_reserved_name_refused (H : host) (E : env)
    (parseFragment : string -> list Loader.element) (c : Loader.context)
    (source_ : string) (w : Loader.world) :
  isReservedTag H (Notion.unit_name H c) = true ->
  env_is (abilityType E) "page" = true ->
  let r := Loader.loader H E parseFragment c source_ w in
  fst r = "" /\
  Loader.logged (snd r) = (Loader.logged w ++ [Notion.reserved_name (Notion.unit_name H c)])%list /\
  Loader.console (snd r) = Loader.console w /\
  is_Some (Loader.elements (snd r) !! Loader.resourcePath c).
Proof.
  intros Hres Hpage. cbn zeta. unfold Loader.loader. fold (Notion.unit_name H c).
  pose proof (register_own_record c (Notion.unit_name H c) (Loader.elements w)) as Hown.
  destruct (Loader.register c (Notion.unit_name H c) (Loader.elements w)) as [els parentPath].
  rewrite Hres, Hpage. cbn [andb fst snd]. repeat split. exact Hown.
Qed.

Lemma X13_reserved_name_refused_witness :
  let c := Example.entry_of "/app/pages/div/div.hml" in
  let r := Loader.loader Sample.div_reserved Example.page_env Example.parse c
             Example.markup_of_entry Example.empty_world in
  fst r = "" /\
  Loader.logged (snd r) = [Notion.reserved_name "div"] /\
  Loader.console (snd r) = [] /\
  is_Some (Loader.elements (snd r) !! "/app/pages/div/div.hml").
Proof.
  apply (X13_reserved_name_refused Sample.div_reserved Example.page_env Example.parse
           (Example.entry_of "/app/pages/div/div.hml") Example.markup_of_entry
           Example.empty_world); vm_compute; reflexivity.
Defined.

(** X14. The registration at the head of the loader writes the record of
    the unit it compiles and no other: the unit has a record afterwards,
    every other record is as it was, and for an entry the record holds the
    unit's name (a name other than [__proto__], which an assignment does not
    store as a property) and the scope is the path the query names, or the
    unit's own path. *)
Theorem X14_registration_writes_own_record (c : Loader.context) (name : string)
    (els : Loader.elements_map) :
  is_Some (fst (Loader.register c name els) !! Loader.resourcePath c) /\
  (forall k, k <> Loader.resourcePath c -> fst (Loader.register c name els) !! k = els !! k) /\
  (Loader.query_entry c = true -> name <> "__proto__" ->
   Loader.get_prop (fst (Loader.register c name els)) (Loader.resourcePath c) name
   = Loader.VTrue /\
   snd (Loader.register c name els) = Loader.VStr (Notion.query_parent c)).
Proof.
  split; [apply register_own_record |]. split; [intros k; apply register_other_records |].
  intros Hentry _. unfold Loader.register. rewrite Hentry. cbn [fst snd].
  split; [| reflexivity].
  apply get_prop_set_prop_same, ensure_record_is_Some.
Qed.

Lemma X14_registration_writes_own_record_witness :
  Loader.get_prop (fst (Loader.register Sample.index_page "index" ∅))
    "/app/pages/index/index.hml" "index" = Loader.VTrue /\
  snd (Loader.register Sample.index_page "index" ∅)
  = Loader.VStr "/app/pages/index/index.hml".
Proof.
  apply (proj2 (proj2 (X14_registration_writes_own_record Sample.index_page "index" ∅))).
  - reflexivity.
  - discriminate.
Defined.

(** ** An element the loop does not go past *)

Section FailingElement.
Import Loader Notion.
Variable H : host.
Variable E : env.
Variable c : context.

Lemma loop_fails (el : element) (rest : list element)
    (customLang : gmap string (list string)) (parentPath : jsval) (output : string)
    (w : world) :
  element_passes H c el = false ->
  loadPageCheckElementLength_loop H E c (el :: rest) customLang parentPath output w
  = ("", warn E c (element_failure el) w).
Proof.
  unfold element_passes, element_failure, element_src.
  cbn [loadPageCheckElementLength_loop].
  destruct (truthy (el_src el)) as [src0 |]; [| reflexivity].
  intros Hpass. apply negb_false_iff in Hpass. now rewrite Hpass.
Qed.

End FailingElement.

(** X15. The element loop ends at the first element it does not go past
    (one without [src], or whose file is missing while its [src] starts with
    [/] or [.]): it returns the empty text, so that the references gathered
    for the elements before it are dropped, it hands [logWarn] the Error of
    that element after what the elements before it brought about, and it
    does not look at the elements that follow. *)
Theorem X15_failing_element_ends_loop (H : host) (E : env) (c : Loader.context)
    (pre post : list Loader.element) (bad : Loader.element)
    (customLang : gmap string (list string)) (parentPath : Loader.jsval) (w : Loader.world) :
  forallb (Notion.element_passes H c) pre = true ->
  Notion.element_passes H c bad = false ->
  Loader.loadPageCheckElementLength H E c (pre ++ bad :: post) customLang parentPath w
  = ("",
     Loader.warn E c (Notion.element_failure bad)
       (snd (Loader.loadPageCheckElementLength H E c pre customLang parentPath w))).
Proof.
  intros Hpre Hbad. unfold Loader.loadPageCheckElementLength.
  rewrite (loop_all_pass H E c customLang parentPath pre (bad :: post) "" w Hpre).
  rewrite (loop_fails H E c bad post customLang parentPath _ _ Hbad).
  pose proof (loop_all_pass H E c customLang parentPath pre [] "" w Hpre) as Hrun.
  rewrite app_nil_r in Hrun. rewrite Hrun. reflexivity.
Qed.

Lemma X15_failing_element_ends_loop_witness :
  let parentPath := Loader.VStr "/app/pages/index/index.hml" in
  Loader.loadPageCheckElementLength Sample.index_host Example.page_env Sample.index_page
    ([Sample.comp_upper] ++ Sample.comp_missing :: [Sample.comp_lower])
    Loader.options_lang parentPath Example.empty_world
  = ("",
     Loader.warn Example.page_env Sample.index_page
       (Notion.element_failure Sample.comp_missing)
       (snd (Loader.loadPageCheckElementLength Sample.index_host Example.page_env
               Sample.index_page [Sample.comp_upper] Loader.options_lang parentPath
               Example.empty_world))).
Proof.
  apply (X15_failing_element_ends_loop Sample.index_host Example.page_env Sample.index_page
           [Sample.comp_upper] [Sample.comp_lower] Sample.comp_missing Loader.options_lang
           (Loader.VStr "/app/pages/index/index.hml") Example.empty_world).
  - vm_compute. reflexivity.
  - vm_compute. reflexivity.
Defined.

(** X16. A markup unit never compiles to the empty text unless its name is
    reserved: for a resource whose extension holds [.hml], the loader's
    output holds at least the template reference, whatever the element loop
    met. *)
Theorem X16_markup_unit_never_empty (H : host) (E : env)
    (parseFragment : string -> list Loader.element) (c : Loader.context)
    (source_ : string) (w : Loader.world) :
  Loader.contains (path_extname H (Loader.resourcePath c)) ".hml" = true ->
  isReservedTag H (Notion.unit_name H c) && env_is (abilityType E) "page" = false ->
  fst (Loader.loader H E parseFragment c source_ w) <> "".
Proof.
  intros Hhml Hres. unfold Loader.loader. fold (Notion.unit_name H c).
  destruct (Loader.register c (Notion.unit_name H c) (Loader.elements w)) as [els parentPath].
  rewrite Hres.
  pose proof (loadPage_markup_not_empty H E parseFragment c (Notion.unit_name H c)
                (Loader.query_entry c) Loader.options_lang source_ parentPath
                (Loader.with_elements els w) Hhml) as Hpage.
  destruct (Loader.loadPage H E parseFragment c (Notion.unit_name H c)
              (Loader.query_entry c) Loader.options_lang source_ parentPath
              (Loader.with_elements els w)) as [pageOutput w1].
  cbn [fst] in *. now apply append_not_empty.
Qed.

Lemma X16_markup_unit_never_empty_witness :
  fst (Loader.loader (Example.posix [] Example.no_reserved) Example.page_env Example.parse
         Sample.index_page Example.markup_of_page Example.empty_world) <> "".
Proof.
  apply (X16_markup_unit_never_empty (Example.posix [] Example.no_reserved) Example.page_env
           Example.parse Sample.index_page Example.markup_of_page Example.empty_world).
  - vm_compute. reflexivity.
  - vm_compute. reflexivity.
Defined.

(** ** The style sheet of a page *)

Section StyleFacts.
Import Loader Notion.
Variable H : host.
Variable E : env.

Lemma style_chain_plain (src : option string) (a : bool) :
  getLoaderString H E KStyle
    {| lang := None; customLang := options_lang; source := src; app := a |}
  = plain_style_chain H.
Proof.
  unfold getLoaderString, loadCustomLoader, styleLoaders, concat_custom, stringifyLoaders.
  cbn [lang truthy_opt_string truthy map stringifyLoader]. rewrite join_concat.
  cbn [String.concat]. now rewrite !append_empty_r.
Qed.

Lemma style_chain_custom (l ld L : string) (src : option string) (a : bool) :
  truthy_string l = true ->
  options_lang !! l = Some [ld] ->
  loadBabelModule H (Some ld) = Some L ->
  truthy_string L = true ->
  getLoaderString H E KStyle
    {| lang := Some l; customLang := options_lang; source := src; app := a |}
  = custom_style_chain H L.
Proof.
  intros Hl Hlook Hbabel HL.
  unfold getLoaderString, loadCustomLoader, styleLoaders, concat_custom, stringifyLoaders.
  cbn [lang customLang truthy_opt_string]. rewrite Hl.
  change (default "" (Some l)) with l. rewrite Hlook. cbn [head].
  rewrite Hbabel. cbn [truthy]. rewrite HL. cbn [List.app map stringifyLoader].
  rewrite join_concat. cbn [String.concat]. now rewrite !append_empty_r.
Qed.

End StyleFacts.

(** X17. The style sheet of a page is the first that exists of the sibling
    [.css], [.less], [.scss] and [.sass] files, whatever other siblings exist:
    a [.css] goes through the json and style stages alone, a [.less] through
    them and the resolved [less-loader], a [.scss] or [.sass] through them
    and the resolved [sass-loader]; with none of the four there is no style
    reference. *)
Theorem X17_first_style_sheet_wins (H : host) (E : env) (filename less sass : string) :
  loadBabelModule H (Some "less-loader") = Some less -> truthy_string less = true ->
  loadBabelModule H (Some "sass-loader") = Some sass -> truthy_string sass = true ->
  let found := Loader.loadPageFindCss H E filename Loader.options_lang in
  let css := existsSync H (filename +:+ ".css") in
  let les := existsSync H (filename +:+ ".less") in
  let scs := existsSync H (filename +:+ ".scss") in
  let sas := existsSync H (filename +:+ ".sass") in
  found =
    if css then
      (true, Notion.style_reference H (Notion.plain_style_chain H) (filename +:+ ".css"))
    else if les then
      (true, Notion.style_reference H (Notion.custom_style_chain H less) (filename +:+ ".less"))
    else if scs then
      (true, Notion.style_reference H (Notion.custom_style_chain H sass) (filename +:+ ".scss"))
    else if sas then
      (true, Notion.style_reference H (Notion.custom_style_chain H sass) (filename +:+ ".sass"))
    else (false, "").
Proof.
  intros Hless Hl Hsass Hs. cbn zeta. unfold Loader.loadPageFindCss, Loader.style_require.
  destruct (existsSync H (filename +:+ ".css")).
  { now rewrite style_chain_plain. }
  destruct (existsSync H (filename +:+ ".less")).
  { now rewrite (style_chain_custom H E "less" "less-loader" less). }
  destruct (existsSync H (filename +:+ ".scss")).
  { now rewrite (style_chain_custom H E "scss" "sass-loader" sass). }
  destruct (existsSync H (filename +:+ ".sass")).
  { now rewrite (style_chain_custom H E "sass" "sass-loader" sass). }
  reflexivity.
Qed.

Lemma X17_first_style_sheet_wins_witness :
  let H := Sample.node_host ["/app/pages/index/index.less"; "/app/pages/index/index.scss"] in
  Loader.loadPageFindCss H Example.page_env "/app/pages/index/index" Loader.options_lang
  = (true,
     Notion.style_reference H (Notion.custom_style_chain H "/app/node_modules/less-loader")
       "/app/pages/index/index.less").
Proof.
  exact (X17_first_style_sheet_wins
           (Sample.node_host ["/app/pages/index/index.less"; "/app/pages/index/index.scss"])
           Example.page_env "/app/pages/index/index"
           "/app/node_modules/less-loader" "/app/node_modules/sass-loader"
           eq_refl eq_refl eq_refl eq_refl).
Defined.

(** ** Elements that are pages of the build *)

Section EntryFacts.
Import Loader Notion.
Variable H : host.
Variable E : env.
Variable c : context.

Lemma checkEntry_loop_logged (keys : list string) (filePath elementSrc : string) (w : world) :
  logged
    (fold_left
       (fun w key =>
          let entryPath := path_join H (path_resolve1 H (projectPath E)) (key +:+ ".hml") in
          if String.eqb entryPath filePath then
            warn E c ("WARNING: The page " +:+ DQ +:+ elementSrc +:+ DQ
                      +:+ " configured in 'config.json'"
                      +:+ " can not be uesd as a custom component."
                      +:+ "To ensure that the debugging function is normal, please delete this page in 'config.json'.") w
          else w)
       keys w)
  = (logged w
     ++ map (fun _ => page_as_element elementSrc)
          (filter (fun key => entry_markup H E key = filePath) keys))%list.
Proof.
  revert w. induction keys as [| key keys IH]; intros w.
  - cbn. now rewrite app_nil_r.
  - cbn [fold_left]. rewrite IH, filter_cons. unfold entry_markup at 2.
    destruct (String.eqb (path_join H (path_resolve1 H (projectPath E)) (key +:+ ".hml"))
                         filePath) eqn:Hk.
    + apply String.eqb_eq in Hk. rewrite decide_True by exact Hk.
      rewrite warn_logged. cbn [map]. now rewrite <- app_assoc.
    + apply String.eqb_neq in Hk. now rewrite decide_False by exact Hk.
Qed.

End EntryFacts.

(** X18. A custom element whose file is the markup of a page of the build
    is warned about and compiled all the same: [checkEntry] hands [logWarn]
    one warning for each entry of the build whose markup file is the
    element's file, and touches neither the graph nor the console; without
    entries it does nothing. *)
Theorem X18_page_used_as_element (H : host) (E : env) (c : Loader.context)
    (filePath elementSrc : string) (w : Loader.world) :
  let w' := Loader.checkEntry H E c filePath elementSrc w in
  Loader.logged w'
  = (Loader.logged w
     ++ map (fun _ => Notion.page_as_element elementSrc)
          (filter (fun key => Notion.entry_markup H E key = filePath)
             (default [] (Loader.compilation_entries c))))%list /\
  Loader.elements w' = Loader.elements w /\
  Loader.console w' = Loader.console w.
Proof.
  cbn zeta. split; [| split; [apply checkEntry_elements | apply checkEntry_console]].
  unfold Loader.checkEntry. destruct (Loader.compilation_entries c) as [keys |].
  - apply checkEntry_loop_logged.
  - cbn. now rewrite app_nil_r.
Qed.

(** X19. The chains [jsonLoaders] of util.js builds without a custom loader
    are the chains [getLoaderString] of loader.js builds for a unit without
    one: [template] and [style] name the template and style chains, [json]
    the chain of the config and data kinds. A custom loader is appended as
    the path of its name under [../node_modules] of the loader's directory,
    and is the whole chain for a type [jsonLoaders] does not know. *)
Theorem X19_json_chains_agree (H : host) (E : env) (cfg : Loader.config) :
  (truthy (Loader.loadCustomLoader H cfg) = None ->
   jsonLoaders H "template" None = Loader.getLoaderString H E Loader.KTemplate cfg /\
   jsonLoaders H "style" None = Loader.getLoaderString H E Loader.KStyle cfg /\
   jsonLoaders H "json" None = Loader.getLoaderString H E Loader.KConfig cfg /\
   jsonLoaders H "json" None = Loader.getLoaderString H E Loader.KData cfg) /\
  (forall l, truthy_string l = true ->
     jsonLoaders H "json" (Some l)
     = Loader.getLoaderString H E Loader.KConfig cfg +:+ "!"
       +:+ path_resolve H (dirname__ H) ("../node_modules/" +:+ l) /\
     jsonLoaders H "script" (Some l)
     = path_resolve H (dirname__ H) ("../node_modules/" +:+ l)).
Proof.
  split.
  - intros Hnone. unfold jsonLoaders, Loader.getLoaderString, Loader.templateLoaders,
      Loader.styleLoaders, Loader.concat_custom.
    rewrite Hnone. repeat split.
  - intros l Hl. unfold jsonLoaders, Loader.getLoaderString, Loader.jsonOnlyLoaders,
      stringifyLoaders.
    cbn [truthy String.eqb Ascii.eqb Bool.eqb]. rewrite Hl.
    unfold push. cbn [List.app map stringifyLoader]. rewrite !join_concat.
    cbn [String.concat]. rewrite !append_empty_r. split; reflexivity.
Qed.

Lemma X19_json_chains_agree_witness :
  let H := Example.posix [] Example.no_reserved in
  let cfg := {| Loader.lang := None; Loader.customLang := Loader.options_lang;
                Loader.source := Some "/app/pages/index/index.hml"; Loader.app := false |} in
  jsonLoaders H "template" None
  = Loader.getLoaderString H Example.page_env Loader.KTemplate cfg /\
  jsonLoaders H "style" None = Loader.getLoaderString H Example.page_env Loader.KStyle cfg /\
  jsonLoaders H "json" None = Loader.getLoaderString H Example.page_env Loader.KConfig cfg /\
  jsonLoaders H "json" None = Loader.getLoaderString H Example.page_env Loader.KData cfg.
Proof.
  apply (proj1 (X19_json_chains_agree (Example.posix [] Example.no_reserved) Example.page_env
                  {| Loader.lang := None; Loader.customLang := Loader.options_lang;
                     Loader.source := Some "/app/pages/index/index.hml";
                     Loader.app := false |})).
  reflexivity.
Defined.

(** ** Objects as the card loader updates them *)

Section ObjectFacts.
Import Json Notion.

Lemma lookup_insert_new (k k' : string) (v : json) (props : list (string * json)) :
  lookup_prop k props = None ->
  lookup_prop k' (insert_new k v props)
  = if String.eqb k k' then Some v else lookup_prop k' props.
Proof.
  induction props as [| [k0 v0] props IH]; intros Hnone.
  - cbn. now destruct (String.eqb k k').
  - cbn [lookup_prop] in Hnone. destruct (String.eqb k0 k) eqn:H0; [discriminate |].
    specialize (IH Hnone).
    assert (Hhead : lookup_prop k' ((k, v) :: (k0, v0) :: props)
                    = if String.eqb k k' then Some v else lookup_prop k' ((k0, v0) :: props))
      by reflexivity.
    assert (Hlater : lookup_prop k' ((k0, v0) :: insert_new k v props)
                     = if String.eqb k k' then Some v else lookup_prop k' ((k0, v0) :: props)).
    { cbn [lookup_prop]. rewrite IH. destruct (String.eqb k0 k') eqn:H0'; [| reflexivity].
      destruct (String.eqb k k') eqn:Hk; [| reflexivity].
      apply String.eqb_eq in H0', Hk. subst. now rewrite String.eqb_refl in H0. }
    cbn [insert_new].
    destruct (array_index k) as [i |]; [destruct (array_index k0) as [i0 |] |].
    + destruct (i <? i0)%N; assumption.
    + assumption.
    + assumption.
Qed.

Lemma lookup_set_prop (k k' : string) (v : json) (props : list (string * json)) :
  lookup_prop k' (set_prop k v props)
  = if String.eqb k k' then Some v else lookup_prop k' props.
Proof.
  unfold set_prop. destruct (lookup_prop k props) as [v0 |] eqn:Hk.
  - rewrite lookup_replace_prop, Hk. reflexivity.
  - now apply lookup_insert_new.
Qed.

Lemma lower_char_idem (c : ascii) : lower_char (lower_char c) = lower_char c.
Proof. destruct c as [[] [] [] [] [] [] [] []]; reflexivity. Qed.

Lemma toLowerCase_idem (s : string) : toLowerCase (toLowerCase s) = toLowerCase s.
Proof.
  induction s as [| c s IH]; [reflexivity |].
  cbn [toLowerCase]. now rewrite lower_char_idem, IH.
Qed.

Lemma lowered_method (v : json) (inner : list (string * json)) (m : string) :
  lowered v = JObj inner -> lookup_prop "method" inner = Some (JStr m) ->
  toLowerCase m = m.
Proof.
  unfold lowered. destruct v as [| b | n | s | items | inner0]; try discriminate.
  destruct (lookup_prop "method" inner0) as [[| b | n | s | items | o] |] eqn:Hm;
    try (intros [= <-]; congruence).
  destruct (String.eqb (toLowerCase s) s) eqn:Hs.
  - intros [= <-]. rewrite Hm. intros [= <-]. now apply String.eqb_eq.
  - intros [= <-]. rewrite lookup_set_prop, String.eqb_refl. intros [= <-].
    apply toLowerCase_idem.
Qed.

Lemma lowered_idem (v : json) : lowered (lowered v) = lowered v.
Proof.
  destruct (lowered v) as [| b | n | s | items | inner] eqn:Hv; try reflexivity.
  unfold lowered at 1.
  destruct (lookup_prop "method" inner) as [[| b | n | s | items | o] |] eqn:Hm;
    try reflexivity.
  rewrite (lowered_method v inner s Hv Hm). now rewrite String.eqb_refl.
Qed.

Lemma lowered_not_null (v : json) : v <> JNull -> lowered v <> JNull.
Proof.
  unfold lowered. destruct v as [| b | n | s | items | inner]; try easy.
  intros _. destruct (lookup_prop "method" inner) as [[| b | n | s | items | o] |];
    try easy.
  now destruct (String.eqb (toLowerCase s) s).
Qed.

End ObjectFacts.

Section CardValueFacts.
Import Json Notion.
Variable E : env.
Variable G : engine.
Variable c : context.

Lemma warn_run (reason : string) (w : world) :
  warn E c reason w
  = (Ret tt,
     {| logged := (logged w ++ [mkLog reason None None])%list;
        emitted := (emitted w ++ fst (logWarn (logLevel E) (resourcePath c)
                                        [mkLog reason None None]))%list;
        sink := sink w |}).
Proof. reflexivity. Qed.

(** One turn of the array loop. *)
Lemma props_array_step_run (acc : list (string * json)) (item : json) (w : world) :
  exists w1,
    props_array_step E c acc item w
    = (Ret (set_prop (to_string item) default_entry acc), w1) /\
    logged w1
    = (logged w ++ (if String.eqb (typeof item) "string" then []
                    else [props_item_warning item]))%list /\
    sink w1 = sink w.
Proof.
  unfold props_array_step, bind, ret. destruct (String.eqb (typeof item) "string").
  - cbn [negb]. exists w. now rewrite app_nil_r.
  - cbn [negb]. rewrite warn_run. eexists. split; [reflexivity |]. split; reflexivity.
Qed.

Lemma props_array_run (items : list json) (acc : list (string * json)) (w : world) :
  exists acc' w',
    forEach_with (props_array_step E c) items acc w = (Ret acc', w') /\
    (forall k, lookup_prop k acc'
               = if existsb (fun item => String.eqb (to_string item) k) items
                 then Some default_entry else lookup_prop k acc) /\
    logged w'
    = (logged w ++ map props_item_warning
                     (filter (fun item => String.eqb (typeof item) "string" = false) items))%list /\
    sink w' = sink w.
Proof.
  revert acc w. induction items as [| item items IH]; intros acc w.
  - exists acc, w. cbn. now rewrite app_nil_r.
  - cbn [forEach_with]. unfold bind at 1.
    destruct (props_array_step_run acc item w) as (w1 & -> & Hlog1 & Hsink1).
    destruct (IH (set_prop (to_string item) default_entry acc) w1)
      as (acc' & w' & Hrun & Hlook & Hlog & Hsink).
    exists acc', w'. split; [exact Hrun |]. split; [| split].
    + intros k. rewrite Hlook. cbn [existsb]. rewrite lookup_set_prop.
      destruct (existsb (fun item0 => String.eqb (to_string item0) k) items);
        [now rewrite orb_true_r |].
      now rewrite orb_false_r.
    + rewrite Hlog, Hlog1, filter_cons.
      destruct (String.eqb (typeof item) "string") eqn:Ht.
      * rewrite decide_False by congruence. now rewrite app_nil_r.
      * rewrite decide_True by reflexivity. cbn [map]. now rewrite <- app_assoc.
    + now rewrite Hsink.
Qed.

(** One turn of the object loop on a key that holds [null], or on a key the
    object lacks. *)
Lemma props_object_step_throws (props : list (string * json)) (k : string) (w : world) :
  lookup_prop k props = Some JNull \/ lookup_prop k props = None ->
  props_object_step E G c props k w
  = (Throw (null_property_error G "hasOwnProperty"),
     {| logged := (logged w ++ [props_default_warning])%list;
        emitted := (emitted w ++ fst (logWarn (logLevel E) (resourcePath c)
                                        [props_default_warning]))%list;
        sink := sink w |}).
Proof.
  intros [Hk | Hk]; unfold props_object_step; rewrite Hk; reflexivity.
Qed.

Lemma props_object_step_returns (props : list (string * json)) (k : string) (v : json)
    (w : world) :
  lookup_prop k props = Some v -> v <> JNull ->
  exists props1 w1,
    props_object_step E G c props k w = (Ret props1, w1) /\
    (forall k', k' <> k -> lookup_prop k' props1 = lookup_prop k' props) /\
    (exists more, logged w1 = (logged w ++ more)%list) /\
    sink w1 = sink w.
Proof.
  intros Hk Hv. unfold props_object_step. rewrite Hk.
  assert (Hset : forall k', k' <> k ->
            lookup_prop k' (set_prop k default_entry props) = lookup_prop k' props).
  { intros k' Hne. rewrite lookup_set_prop.
    destruct (String.eqb k k') eqn:Hkk; [| reflexivity].
    apply String.eqb_eq in Hkk. congruence. }
  destruct v as [| b | n | s | items | inner]; [congruence | | | | |];
    unfold bind, ret; cbn [is_plain_object negb has_default]; rewrite ?warn_run;
    try (do 2 eexists; split; [reflexivity |]; split; [exact Hset |];
         split; [eexists; reflexivity | reflexivity]).
  destruct (lookup_prop "default" inner); cbn [negb].
  - exists props, w. repeat split; auto. exists []. now rewrite app_nil_r.
  - do 2 eexists. split; [reflexivity |]. split; [exact Hset |].
    split; [exists []; now rewrite app_nil_r | reflexivity].
Qed.

Lemma props_object_loop_throws (ks : list string) (props : list (string * json))
    (k : string) (w : world) :
  In k ks -> lookup_prop k props = Some JNull ->
  exists w',
    forEach_with (props_object_step E G c) ks props w
    = (Throw (null_property_error G "hasOwnProperty"), w') /\
    (exists more, logged w' = (logged w ++ more ++ [props_default_warning])%list) /\
    sink w' = sink w.
Proof.
  revert props w. induction ks as [| k0 ks IH]; intros props w Hin Hnull; [destruct Hin |].
  cbn [forEach_with]. unfold bind at 1.
  destruct (lookup_prop k0 props) as [v0 |] eqn:H0.
  - assert (Hcase : v0 = JNull \/ v0 <> JNull)
      by (destruct v0; [now left | right; discriminate ..]).
    destruct Hcase as [-> | Hv0].
    + rewrite props_object_step_throws by now left.
      eexists. split; [reflexivity |]. split; [exists []; reflexivity | reflexivity].
    + destruct (props_object_step_returns props k0 v0 w H0 Hv0)
        as (props1 & w1 & -> & Hother & [more1 Hlog1] & Hsink1).
      assert (Hk : k <> k0) by (intros ->; rewrite H0 in Hnull; congruence).
      destruct Hin as [-> | Hin]; [congruence |].
      destruct (IH props1 w1 Hin) as (w' & Hrun & [more Hlog] & Hsink).
      { rewrite Hother by exact Hk. exact Hnull. }
      exists w'. split; [exact Hrun |]. split.
      * exists (more1 ++ more)%list. rewrite Hlog, Hlog1. now rewrite <- !app_assoc.
      * now rewrite Hsink.
  - rewrite props_object_step_throws by now right.
    eexists. split; [reflexivity |]. split; [exists []; reflexivity | reflexivity].
Qed.

(** One turn of the actions loop on a key whose value is not [null]. *)
Lemma actions_step_run (props : list (string * json)) (k : string) (v : json) (w : world) :
  lookup_prop k props = Some v -> v <> JNull ->
  exists props1 w1,
    actions_step E G c props k w = (Ret props1, w1) /\
    (forall k', lookup_prop k' props1
                = if String.eqb k k' then Some (lowered v) else lookup_prop k' props) /\
    map fst props1 = map fst props /\
    sink w1 = sink w.
Proof.
  intros Hk Hv.
  assert (Hsame : forall w0 : world, sink w0 = sink w ->
            exists props1 w1,
              (Ret props : outcome _, w0) = (Ret props1, w1) /\
              (forall k', lookup_prop k' props1
                          = if String.eqb k k' then Some v else lookup_prop k' props) /\
              map fst props1 = map fst props /\ sink w1 = sink w).
  { intros w0 Hw0. exists props, w0. split; [reflexivity |]. split; [| now split].
    intros k'. destruct (String.eqb k k') eqn:Hkk; [| reflexivity].
    apply String.eqb_eq in Hkk. now subst k'. }
  unfold actions_step, bind at 1. rewrite Hk. unfold read_method.
  destruct v as [| b | n | s | items | inner]; [congruence | | | | |];
    try (unfold ret at 1; cbn [truthy_value]; unfold ret; cbn [lowered]; now apply Hsame).
  unfold ret at 1.
  destruct (lookup_prop "method" inner) as [[| b | n | s | items | o] |] eqn:Hm;
    cbn [truthy_value truthy_json]; unfold lowered; rewrite Hm.
  - now apply Hsame.
  - destruct b; [| now apply Hsame].
    unfold bind, ret. rewrite warn_run. now apply Hsame.
  - destruct (negb (n =? 0)%Z); [| now apply Hsame].
    unfold bind, ret. rewrite warn_run. now apply Hsame.
  - destruct (truthy_string s) eqn:Hts.
    + destruct (String.eqb (toLowerCase s) s) eqn:Hlow; cbn [negb]; [now apply Hsame |].
      unfold bind, ret. rewrite warn_run. do 2 eexists. split; [reflexivity |].
      unfold write_method. rewrite Hk.
      split; [intros k'; now rewrite lookup_set_prop |]. split; [| reflexivity].
      rewrite (set_prop_existing k _ _ props Hk). apply keys_replace_prop.
    + unfold truthy_string in Hts. apply negb_false_iff, String.eqb_eq in Hts. subst s.
      cbn [toLowerCase]. rewrite String.eqb_refl. now apply Hsame.
  - unfold bind, ret. rewrite warn_run. now apply Hsame.
  - unfold bind, ret. rewrite warn_run. now apply Hsame.
  - now apply Hsame.
Qed.

Lemma actions_loop_run (ks : list string) (props : list (string * json)) (w : world) :
  (forall k, In k ks -> exists v, lookup_prop k props = Some v /\ v <> JNull) ->
  exists props' w',
    forEach_with (actions_step E G c) ks props w = (Ret props', w') /\
    (forall k, lookup_prop k props'
               = if existsb (String.eqb k) ks then option_map lowered (lookup_prop k props)
                 else lookup_prop k props) /\
    map fst props' = map fst props /\
    sink w' = sink w.
Proof.
  revert props w. induction ks as [| k0 ks IH]; intros props w Hks.
  - exists props, w. now repeat split.
  - cbn [forEach_with]. unfold bind at 1.
    destruct (Hks k0 (or_introl eq_refl)) as (v0 & H0 & Hv0).
    destruct (actions_step_run props k0 v0 w H0 Hv0)
      as (props1 & w1 & -> & Hlook1 & Hkeys1 & Hsink1).
    destruct (IH props1 w1) as (props' & w' & Hrun & Hlook & Hkeys & Hsink).
    { intros k Hin. rewrite Hlook1. destruct (String.eqb k0 k) eqn:Hkk.
      - exists (lowered v0). split; [reflexivity | now apply lowered_not_null].
      - apply Hks. now right. }
    exists props', w'. split; [exact Hrun |]. split; [| split].
    + intros k. rewrite Hlook, Hlook1. cbn [existsb]. rewrite (String.eqb_sym k k0).
      destruct (String.eqb k0 k) eqn:Hkk.
      * apply String.eqb_eq in Hkk. subst k0. rewrite H0. cbn [orb option_map].
        destruct (existsb (String.eqb k) ks); cbn [option_map]; [| reflexivity].
        now rewrite lowered_idem.
      * reflexivity.
    + now rewrite Hkeys.
    + now rewrite Hsink.
Qed.

End CardValueFacts.







(** ** The files of a card *)

Section JsonFilesFacts.
Import Json Notion.
Variable H : host.
Variable c : context.

Lemma mkJsonFiles_fold (entries : list (string * string)) (st : string * option string) :
  fold_left
    (fun (st : string * option string) (kv : string * string) =>
       let '(key, import0) := kv in
       if String.eqb (path_dirname H (path_resolve1 H import0))
                     (path_dirname H (resourcePath c))
       then (key +:+ ".json", snd st)
       else (key +:+ ".json", Some (drop 1 (before_hash (resourceQuery c)))))
    entries st
  = (match last entries with Some kv => fst kv +:+ ".json" | None => fst st end,
     if existsb (elsewhere H c) entries
     then Some (drop 1 (before_hash (resourceQuery c))) else snd st).
Proof.
  revert st. induction entries as [| [key import0] entries IH]; intros [indexJson element];
    [reflexivity |].
  cbn [fold_left]. rewrite IH. cbn [existsb]. unfold elsewhere at 2. cbn [snd fst].
  destruct (String.eqb (path_dirname H (path_resolve1 H import0))
                       (path_dirname H (resourcePath c))); cbn [negb orb fst snd].
  - f_equal. destruct entries as [| kv entries]; [reflexivity |].
    change (last ((key, import0) :: kv :: entries)) with (last (kv :: entries)).
    now destruct (last (kv :: entries)) eqn:Hl; [| apply last_None in Hl].
  - f_equal.
    + destruct entries as [| kv entries]; [reflexivity |].
      change (last ((key, import0) :: kv :: entries)) with (last (kv :: entries)).
      now destruct (last (kv :: entries)) eqn:Hl; [| apply last_None in Hl].
    + now destruct (existsb (elsewhere H c) entries).
Qed.

End JsonFilesFacts.

(** X23. The files [mkJsonFiles] names: the index file is the last entry
    of the build, with [.json] appended, resolved against the output path
    (the output path resolved against the empty text when the build has no
    entry); and an element is named exactly when some entry lies in another
    directory than the resource, by the resource query up to its first [#]
    without its first character, whichever entry that is. *)
Theorem X23_card_files (H : host) (c : Json.context) :
  fst (Json.mkJsonFiles H c)
  = path_resolve H (Json.output_path c)
      (match last (Json.entry c) with Some kv => fst kv +:+ ".json" | None => "" end) /\
  snd (Json.mkJsonFiles H c)
  = if existsb (Notion.elsewhere H c) (Json.entry c)
    then Some (drop 1 (Json.before_hash (Json.resourceQuery c))) else None.
Proof.
  unfold Json.mkJsonFiles. rewrite mkJsonFiles_fold. cbn [fst snd]. split; reflexivity.
Qed.

(** ** What the card loader adds to the world *)

Section AddingFacts.
Import Json Notion.
Variable H : host.
Variable E : env.
Variable G : engine.
Variable c : context.

Lemma extends_refl (w : world) : extends w w.
Proof. repeat split; exists []; now rewrite app_nil_r. Qed.

Lemma extends_trans (w1 w2 w3 : world) : extends w1 w2 -> extends w2 w3 -> extends w1 w3.
Proof.
  intros ([l1 Hl1] & [e1 He1] & [s1 Hs1]) ([l2 Hl2] & [e2 He2] & [s2 Hs2]).
  repeat split.
  - exists (l1 ++ l2)%list. now rewrite Hl2, Hl1, <- app_assoc.
  - exists (e1 ++ e2)%list. now rewrite He2, He1, <- app_assoc.
  - exists (s1 ++ s2)%list. now rewrite Hs2, Hs1, <- app_assoc.
Qed.

Lemma adding_ret {A} (a : A) : adding (ret a).
Proof. intros w. apply extends_refl. Qed.

Lemma adding_throw {A} (e : exn) : adding (@throw A e).
Proof. intros w. apply extends_refl. Qed.

Lemma adding_warn (reason : string) : adding (warn E c reason).
Proof.
  intros w. cbn. repeat split; [eexists; reflexivity | eexists; reflexivity |].
  exists []. now rewrite app_nil_r.
Qed.

Lemma adding_compileJson (args : list sink_arg) : adding (compileJson args).
Proof.
  intros w. cbn. repeat split; [exists []; now rewrite app_nil_r .. |].
  eexists. reflexivity.
Qed.

Lemma adding_bind {A B} (m : M A) (k : A -> M B) :
  adding m -> (forall a, adding (k a)) -> adding (bind m k).
Proof.
  intros Hm Hk w. unfold bind. specialize (Hm w).
  destruct (m w) as [[a | e] w1]; cbn [snd] in *; [| exact Hm].
  eapply extends_trans; [exact Hm | apply Hk].
Qed.

Lemma adding_try_catch {A} (m : M A) (handler : exn -> M A) :
  adding m -> (forall e, adding (handler e)) -> adding (try_catch m handler).
Proof.
  intros Hm Hh w. unfold try_catch. specialize (Hm w).
  destruct (m w) as [[a | e] w1]; cbn [snd] in *; [exact Hm |].
  eapply extends_trans; [exact Hm | apply Hh].
Qed.

Lemma adding_forEach_with {A S} (f : S -> A -> M S) (arr : list A) (st : S) :
  (forall st x, adding (f st x)) -> adding (forEach_with f arr st).
Proof.
  intros Hf. revert st. induction arr as [| x arr IH]; intros st; [apply adding_ret |].
  cbn [forEach_with]. apply adding_bind; [apply Hf | exact IH].
Qed.

Lemma adding_if {A} (b : bool) (m1 m2 : M A) : adding m1 -> adding m2 -> adding (if b then m1 else m2).
Proof. now destruct b. Qed.

Lemma adding_props_array_step (acc : list (string * json)) (item : json) :
  adding (props_array_step E c acc item).
Proof.
  unfold props_array_step. apply adding_bind; [| intros; apply adding_ret].
  apply adding_if; [apply adding_warn | apply adding_ret].
Qed.

Lemma adding_props_object_step (props : list (string * json)) (item : string) :
  adding (props_object_step E G c props item).
Proof.
  unfold props_object_step. apply adding_bind.
  - apply adding_if; [apply adding_warn | apply adding_ret].
  - intros _. destruct (lookup_prop item props) as [[| b | n | s | items | inner] |];
      try apply adding_throw; apply adding_if; apply adding_ret.
Qed.

Lemma adding_replacePropsArray (v : value) : adding (replacePropsArray E G v c).
Proof.
  unfold replacePropsArray. apply adding_if; [apply adding_ret |].
  destruct v as [[| b | n | s | items | props] |];
    try (apply adding_bind; [apply adding_warn | intros; apply adding_ret]).
  - apply adding_bind; [| intros; apply adding_ret].
    apply adding_forEach_with. intros; apply adding_props_array_step.
  - apply adding_bind; [| intros; apply adding_ret].
    apply adding_forEach_with. intros; apply adding_props_object_step.
Qed.

Lemma adding_actions_step (props : list (string * json)) (item : string) :
  adding (actions_step E G c props item).
Proof.
  unfold actions_step. apply adding_bind.
  - unfold read_method.
    destruct (lookup_prop item props) as [[| b | n | s | items | inner] |];
      first [apply adding_throw | apply adding_ret].
  - intros method. apply adding_if; [| apply adding_ret].
    destruct method as [[| b | n | s | items | inner] |];
      try (apply adding_bind; [apply adding_warn | intros; apply adding_ret]);
      try apply adding_ret.
    apply adding_if; [| apply adding_ret].
    apply adding_bind; [apply adding_warn | intros; apply adding_ret].
Qed.

Lemma adding_processActions (v : value) : adding (processActions E G v c).
Proof.
  unfold processActions.
  destruct v as [[| b | n | s | items | props] |];
    try (apply adding_bind; [apply adding_if; [apply adding_warn | apply adding_ret]
                            | intros; apply adding_ret]).
  apply adding_bind; [| intros; apply adding_ret].
  apply adding_forEach_with. intros; apply adding_actions_step.
Qed.

Lemma adding_validateData (v : value) : adding (validateData E v c).
Proof.
  unfold validateData. apply adding_bind; [| intros; apply adding_ret].
  apply adding_if; [apply adding_warn | apply adding_ret].
Qed.

Lemma adding_JSON_parse (v : value) : adding (JSON_parse G v).
Proof. unfold JSON_parse. destruct v; [apply adding_ret | apply adding_throw]. Qed.

Lemma adding_parse_member (v : value) (p : string) : adding (parse_member G v p).
Proof.
  unfold parse_member. apply adding_bind; [apply adding_JSON_parse |].
  intros [| b | n | s | items | props]; first [apply adding_throw | apply adding_ret].
Qed.


Lemma adding_parseCard (source : string) : adding (parseCard H E G c source).
Proof.
  unfold parseCard. apply adding_bind.
  { destruct (eval_stringify G _); [apply adding_throw | apply adding_ret]. }
  intros v. destruct (mkJsonFiles H c) as [indexJson element].
  apply adding_bind; [apply adding_compileJson |]. intros _.
  apply adding_bind; [| intros; apply adding_ret].
  destruct (truthy element);
    repeat first
      [ apply adding_ret
      | apply adding_throw
      | apply adding_compileJson
      | apply adding_parse_member
      | apply adding_JSON_parse
      | apply adding_processActions
      | apply adding_validateData
      | apply adding_replacePropsArray
      | apply adding_if
      | apply adding_bind; [| intros ] ].
Qed.

Lemma adding_loader (source : string) : adding (loader H E G c source).
Proof.
  unfold loader. apply adding_if; [| apply adding_ret].
  apply adding_try_catch.
  - apply adding_bind; [apply adding_parseCard | intros; apply adding_ret].
  - intros e. apply adding_bind; [apply adding_warn | intros; apply adding_ret].
Qed.

(** After the evaluation has returned, the first call [parseCard] makes to
    the sink is the one that opens the index file. *)
Lemma parseCard_opens_index (source : string) (v : value) (w : world) :
  eval_stringify G ("(" +:+ card_text H G c source +:+ ")") = inr v ->
  exists more,
    sink (snd (parseCard H E G c source w))
    = (sink w ++ [ArgText "init"; ArgText (fst (mkJsonFiles H c))] :: more)%list.
Proof.
  intros Heval. unfold parseCard. unfold bind at 1. rewrite Heval. unfold ret at 1.
  destruct (mkJsonFiles H c) as [indexJson element]. cbn [fst].
  unfold bind at 1. unfold compileJson at 1.
  match goal with
  | |- context [bind ?m ?k ?w1] =>
      assert (Hrest : adding (bind m k))
  end.
  { apply adding_bind; [| intros; apply adding_ret].
    destruct (truthy element);
    repeat first
      [ apply adding_ret
      | apply adding_throw
      | apply adding_compileJson
      | apply adding_parse_member
      | apply adding_JSON_parse
      | apply adding_processActions
      | apply adding_validateData
      | apply adding_replacePropsArray
      | apply adding_if
      | apply adding_bind; [| intros ] ]. }
  match goal with
  | |- context [bind ?m ?k ?w1] => destruct (Hrest w1) as (_ & _ & [more Hmore])
  end.
  exists more. rewrite Hmore. cbn [sink]. unfold push. now rewrite <- app_assoc.
Qed.

End AddingFacts.

(** X24. The card loader only adds to the world: whatever the source, the
    diagnostics handed to [logWarn], the emissions and the calls to the sink
    after it ran are those from before followed by new ones. In card mode,
    when the evaluation of the text returns, the first call it makes to the
    sink is [init] with the index file. *)
Theorem X24_card_loader_only_adds (H : host) (E : env) (G : Json.engine) (c : Json.context)
    (source : string) (w : Json.world) :
  Notion.extends w (snd (Json.loader H E G c source w)) /\
  (forall v,
     DEVICE_LEVEL E = Some "card" ->
     Json.eval_stringify G ("(" +:+ Json.card_text H G c source +:+ ")") = inr v ->
     exists more,
       Json.sink (snd (Json.loader H E G c source w))
       = (Json.sink w
          ++ [Json.ArgText "init"; Json.ArgText (fst (Json.mkJsonFiles H c))] :: more)%list).
Proof.
  split; [apply adding_loader |].
  intros v Hcard Heval. apply env_is_card in Hcard.
  destruct (parseCard_opens_index H E G c source v w Heval) as [more Hmore].
  unfold Json.loader. rewrite Hcard. unfold Json.try_catch, Json.bind at 1.
  destruct (Json.parseCard H E G c source w) as [[r | e] w1]; cbn [snd] in *.
  - exists more. exact Hmore.
  - exists more. cbn. exact Hmore.
Qed.

Lemma X24_card_loader_only_adds_witness :
  exists more,
    Json.sink (snd (Json.loader (Example.posix [] Example.no_reserved) Example.card_env
                      Example.literal_engine Example.card_context
                      "{ data: { count: 1 }, props: ['a'] }" Json.empty_world))
    = (Json.sink Json.empty_world
       ++ [Json.ArgText "init";
           Json.ArgText (fst (Json.mkJsonFiles (Example.posix [] Example.no_reserved)
                                Example.card_context))] :: more)%list.
Proof.
  apply (proj2 (X24_card_loader_only_adds (Example.posix [] Example.no_reserved)
                  Example.card_env Example.literal_engine Example.card_context
                  "{ data: { count: 1 }, props: ['a'] }" Json.empty_world)
           (Some (Json.JObj [("data", Json.JObj [("count", Json.JNum 1)]);
                             ("props", Json.JArr [Json.JStr "a"])]))).
  - reflexivity.
  - reflexivity.
Defined.

(** ** Texts the card loader leaves alone *)

Section PlainTextFacts.
Import Json.

Lemma prefix_needs_head (q : ascii) (p s : string) :
  Spec.all_chars (Spec.is_not q) s = true -> String.prefix (String q p) s = false.
Proof.
  destruct s as [| c s]; [reflexivity |]. cbn [Spec.all_chars]. intros Hs.
  apply andb_prop in Hs as [Hc _]. unfold Spec.is_not in Hc. apply negb_true_iff in Hc.
  rewrite prefix_cons, Ascii.eqb_sym, Hc. reflexivity.
Qed.

Lemma all_chars_drop (p : ascii -> bool) (n : nat) (s : string) :
  Spec.all_chars p s = true -> Spec.all_chars p (drop n s) = true.
Proof.
  revert s. induction n as [| n IH]; intros [| c s] Hs; try exact Hs.
  cbn [drop]. apply IH. now apply all_chars_tail in Hs.
Qed.

Lemma quiet_block_comment (s : string) :
  Spec.all_chars (Spec.is_not "/") s = true -> Spec.quiet REG_BLOCK_COMMENT s.
Proof.
  induction s as [| c s IH]; [easy |]. intros Hs. cbn [Spec.quiet].
  split; [| apply IH; now apply all_chars_tail in Hs].
  intros prev. unfold REG_BLOCK_COMMENT. now rewrite (prefix_needs_head "/" "*" _ Hs).
Qed.

Lemma quiet_line_comment (s : string) :
  Spec.all_chars (Spec.is_not "/") s = true -> Spec.quiet REG_LINE_COMMENT s.
Proof.
  induction s as [| c s IH]; [easy |]. intros Hs. cbn [Spec.quiet].
  split; [| apply IH; now apply all_chars_tail in Hs].
  intros prev. unfold REG_LINE_COMMENT.
  rewrite (prefix_needs_head "/" "/" _ Hs).
  rewrite (prefix_needs_head "/" "/" s) by now apply all_chars_tail in Hs.
  now rewrite !andb_false_r.
Qed.

Lemma quiet_event_string_dollar (s : string) :
  Spec.all_chars (Spec.is_not "$") s = true -> Spec.quiet REG_EVENT_STRING s.
Proof.
  induction s as [| c s IH]; [easy |]. intros Hs. cbn [Spec.quiet].
  split; [| apply IH; now apply all_chars_tail in Hs].
  intros prev. apply all_chars_tail in Hs.
  assert (Halt : forall q, match_event_string_alt q (String c s) = None).
  { intros q. unfold match_event_string_alt. destruct (Ascii.eqb c q); [| reflexivity].
    now rewrite (prefix_needs_head "$" "event." _ (all_chars_drop _ _ _ Hs)). }
  unfold REG_EVENT_STRING. now rewrite !Halt.
Qed.

Lemma space_is_not (q c : ascii) : is_space q = false -> is_space c = true -> Spec.is_not q c = true.
Proof.
  intros Hq Hc. unfold Spec.is_not. destruct (Ascii.eqb c q) eqn:Heq; [| reflexivity].
  apply Ascii.eqb_eq in Heq. subst q. congruence.
Qed.

Lemma replace_first_after_spaces (ws pat rest : string) (q : ascii) :
  is_space q = false ->
  Spec.all_chars is_space ws = true ->
  replace_first (String q pat) "" (ws +:+ String q pat +:+ rest) = ws +:+ rest.
Proof.
  intros Hq. induction ws as [| c ws IH]; intros Hws.
  - rewrite !append_empty_l.
    assert (Hhit : String.prefix (String q pat) (String q pat +:+ rest) = true)
      by apply prefix_app_self.
    rewrite append_cons in *. cbn [replace_first]. rewrite Hhit.
    rewrite append_empty_l. cbn [String.length drop]. apply drop_length_app.
  - cbn [Spec.all_chars] in Hws. apply andb_prop in Hws as [Hc Hws].
    rewrite (append_cons c ws). cbn [replace_first]. rewrite prefix_cons.
    replace (Ascii.eqb q c) with false.
    2:{ symmetry. rewrite Ascii.eqb_sym. apply negb_true_iff.
        exact (space_is_not q c Hq Hc). }
    cbn [andb]. now rewrite IH.
Qed.

End PlainTextFacts.



(** X26. A card script is rewritten only where [$event.] or [this.] occurs:
    when the text [ResourceReferenceParsing] returns holds neither a [$] nor
    a [.], the three rewriting passes leave it as it is. *)
Theorem X26_rewriting_needs_event_or_this (G : Json.engine) (source : string) :
  Spec.all_chars (Spec.is_not "$") (Json.ResourceReferenceParsing G source) = true ->
  Spec.all_chars (Spec.is_not ".") (Json.ResourceReferenceParsing G source) = true ->
  Json.rewrite_card G source = Json.ResourceReferenceParsing G source.
Proof.
  intros Hd Hp. unfold Json.rewrite_card, Json.regex_replace.
  rewrite (regex_replace_go_quiet _ _ _ None (quiet_event_string_dollar _ Hd)).
  rewrite (regex_replace_go_quiet _ _ _ None (quiet_event _ Hd)).
  now rewrite (regex_replace_go_quiet _ _ _ None (quiet_this _ Hp)).
Qed.

Lemma X26_rewriting_needs_event_or_this_witness :
  Json.rewrite_card Example.plain_engine "{ a: 1, b: 'two' }"
  = Json.ResourceReferenceParsing Example.plain_engine "{ a: 1, b: 'two' }".
Proof.
  exact (X26_rewriting_needs_event_or_this Example.plain_engine "{ a: 1, b: 'two' }"
           eq_refl eq_refl).
Defined.

(** ** Comments *)

Section CommentFacts.
Import Json.

(** A pattern that can only match at the character [q] passes over a text
    without it. *)
Lemma regex_replace_go_pass (m : matcher) (fn : string -> string -> string) (q : ascii)
    (a rest : string) (prev : option ascii) :
  (forall prev' ch s, Ascii.eqb ch q = false -> m prev' (String ch s) = None) ->
  Spec.all_chars (Spec.is_not q) a = true ->
  exists prev',
    regex_replace_go m fn prev 0 (a +:+ rest) = a +:+ regex_replace_go m fn prev' 0 rest.
Proof.
  intros Hm. revert prev. induction a as [| ch a IH]; intros prev Ha.
  - exists prev. now rewrite !append_empty_l.
  - cbn [Spec.all_chars] in Ha. apply andb_prop in Ha as [Hch Ha].
    unfold Spec.is_not in Hch. apply negb_true_iff in Hch.
    destruct (IH (Some ch) Ha) as [prev' Hrun]. exists prev'.
    rewrite !append_cons. cbn [regex_replace_go].
    rewrite (Hm prev ch (a +:+ rest) Hch). now rewrite Hrun.
Qed.

Lemma block_comment_needs_slash (prev : option ascii) (ch : ascii) (s : string) :
  Ascii.eqb ch "/" = false -> REG_BLOCK_COMMENT prev (String ch s) = None.
Proof.
  intros Hch. unfold REG_BLOCK_COMMENT. rewrite prefix_cons, Ascii.eqb_sym, Hch.
  reflexivity.
Qed.

Lemma index_after_starless (body b : string) :
  Spec.all_chars (Spec.is_not "*") body = true ->
  indexOf (body +:+ "*/" +:+ b) "*/" = Some (String.length body).
Proof.
  unfold indexOf. induction body as [| ch body IH]; intros Hbody.
  - rewrite append_empty_l.
    assert (Hhit : String.prefix "*/" ("*/" +:+ b) = true) by apply prefix_app_self.
    change ("*/" +:+ b) with (String "*" (String "/" b)) in *.
    cbn [String.index]. now rewrite Hhit.
  - cbn [Spec.all_chars] in Hbody. apply andb_prop in Hbody as [Hch Hbody].
    unfold Spec.is_not in Hch. apply negb_true_iff in Hch.
    rewrite append_cons. cbn [String.index String.length].
    rewrite prefix_cons, Ascii.eqb_sym, Hch. cbn [andb]. now rewrite IH.
Qed.

Lemma block_comment_hit (body b : string) (prev : option ascii) :
  Spec.all_chars (Spec.is_not "*") body = true ->
  REG_BLOCK_COMMENT prev ("/*" +:+ body +:+ "*/" +:+ b)
  = Some (2 + String.length body + 2, body).
Proof.
  intros Hbody. unfold REG_BLOCK_COMMENT. rewrite prefix_app_self.
  change (drop 2 ("/*" +:+ body +:+ "*/" +:+ b)) with (body +:+ "*/" +:+ b).
  rewrite (index_after_starless body b Hbody). now rewrite take_length_app.
Qed.

Lemma block_comment_removed (a body b : string) :
  Spec.all_chars (Spec.is_not "/") a = true ->
  Spec.all_chars (Spec.is_not "*") body = true ->
  Spec.all_chars (Spec.is_not "/") b = true ->
  regex_replace REG_BLOCK_COMMENT (fun _ _ => "") (a +:+ "/*" +:+ body +:+ "*/" +:+ b)
  = a +:+ b.
Proof.
  intros Ha Hbody Hb. unfold regex_replace.
  destruct (regex_replace_go_pass REG_BLOCK_COMMENT (fun _ _ => "") "/" a
              ("/*" +:+ body +:+ "*/" +:+ b) None block_comment_needs_slash Ha)
    as [prev' ->].
  f_equal.
  pose proof (block_comment_hit body b prev' Hbody) as Hhit.
  change ("/*" +:+ body +:+ "*/" +:+ b)
    with (String "/" (String "*" "" +:+ body +:+ "*/" +:+ b)) in *.
  cbn [regex_replace_go]. rewrite Hhit. rewrite append_empty_l.
  replace (2 + String.length body + 2 - 1)
    with (String.length (String "*" "" +:+ body +:+ "*/")).
  2:{ rewrite !string_length_app. cbn [String.length]. lia. }
  rewrite <- (append_assoc _ "*/" b), <- (append_assoc (String "*" "") body).
  rewrite <- append_assoc.
  apply regex_replace_go_skip. now apply quiet_block_comment.
Qed.

End CommentFacts.



(** ** Module references *)

Section ScanFacts.
Import Json Requires Notion.
Variable m : matcher.
Variable fn : string -> string -> string.
Hypothesis m_prev : forall p1 p2 s, m p1 s = m p2 s.

Lemma regex_replace_go_prev (p1 p2 : option ascii) (k : nat) (s : string) :
  regex_replace_go m fn p1 k s = regex_replace_go m fn p2 k s.
Proof.
  revert p1 p2 k. induction s as [| c s IH]; intros p1 p2 k; [reflexivity |].
  cbn [regex_replace_go]. destruct k as [| k]; [| reflexivity].
  now rewrite (m_prev p1 p2).
Qed.

Lemma match_all_go_prev (p1 p2 : option ascii) (k : nat) (s : string) :
  match_all_go m p1 k s = match_all_go m p2 k s.
Proof.
  revert p1 p2 k. induction s as [| c s IH]; intros p1 p2 k; [reflexivity |].
  cbn [match_all_go]. destruct k as [| k]; [| reflexivity].
  now rewrite (m_prev p1 p2).
Qed.

Lemma regex_replace_go_misses (a rest : string) (prev : option ascii) :
  misses m a rest ->
  regex_replace_go m fn prev 0 (a +:+ rest) = a +:+ regex_replace_go m fn None 0 rest.
Proof.
  revert prev. induction a as [| c a IH]; intros prev Hmiss.
  - rewrite !append_empty_l. apply regex_replace_go_prev.
  - destruct Hmiss as [Hhere Hmiss]. specialize (Hhere prev).
    rewrite append_cons in *. cbn [regex_replace_go]. rewrite Hhere.
    now rewrite IH.
Qed.

Lemma match_all_go_misses (a rest : string) (prev : option ascii) :
  misses m a rest ->
  match_all_go m prev 0 (a +:+ rest) = match_all_go m None 0 rest.
Proof.
  revert prev. induction a as [| c a IH]; intros prev Hmiss.
  - rewrite !append_empty_l. apply match_all_go_prev.
  - destruct Hmiss as [Hhere Hmiss]. specialize (Hhere prev).
    rewrite append_cons in *. cbn [match_all_go]. rewrite Hhere.
    now apply IH.
Qed.

Lemma match_all_go_quiet (s : string) (prev : option ascii) :
  Spec.quiet m s -> match_all_go m prev 0 s = [].
Proof.
  revert prev. induction s as [| c s IH]; intros prev Hq; [reflexivity |].
  destruct Hq as [Hhere Hq]. cbn [match_all_go]. rewrite Hhere. now apply IH.
Qed.

Lemma match_all_go_skip (a b : string) (prev : option ascii) :
  Spec.quiet m b -> match_all_go m prev (String.length a) (a +:+ b) = [].
Proof.
  revert prev. induction a as [| c a IH]; intros prev Hq.
  - cbn [String.length]. rewrite append_empty_l. now apply match_all_go_quiet.
  - rewrite append_cons. cbn [String.length match_all_go]. now apply IH.
Qed.

Lemma quiet_app (a rest : string) :
  misses m a rest -> Spec.quiet m rest -> Spec.quiet m (a +:+ rest).
Proof.
  induction a as [| c a IH]; intros Hmiss Hq; [now rewrite append_empty_l |].
  destruct Hmiss as [Hhere Hmiss]. rewrite append_cons in *. cbn [Spec.quiet].
  split; [exact Hhere | now apply IH].
Qed.

Lemma misses_app (a b rest : string) :
  misses m a (b +:+ rest) -> misses m b rest -> misses m (a +:+ b) rest.
Proof.
  induction a as [| c a IH]; intros Ha Hb; [now rewrite append_empty_l |].
  destruct Ha as [Hhere Ha]. rewrite append_cons. cbn [misses].
  split.
  - intros prev. rewrite <- append_cons, append_assoc. apply Hhere.
  - now apply IH.
Qed.

End ScanFacts.

Section RequireFacts.
Import Json Requires Notion.

Lemma requireReg_prev (p1 p2 : option ascii) (s : string) : requireReg p1 s = requireReg p2 s.
Proof. reflexivity. Qed.

Lemma requireReg_needs_prefix (prev : option ascii) (s : string) :
  String.prefix "require(" s = false -> requireReg prev s = None.
Proof. intros Hp. unfold requireReg. now rewrite Hp. Qed.

Lemma no_require_quiet (s : string) : no_require s = true -> Spec.quiet requireReg s.
Proof.
  induction s as [| c s IH]; [easy |]. cbn [no_require Spec.quiet].
  destruct (requireReg None (String c s)) eqn:Hm; [discriminate |].
  intros Hs. split; [| now apply IH].
  intros prev. now rewrite (requireReg_prev prev None).
Qed.

(** A text without an opening parenthesis holds no start of [p(] when what
    follows it starts with a character that [p(] does not hold. *)
Lemma prefix_blocked (p a rest : string) :
  Spec.all_chars (Spec.is_not "(") a = true ->
  match rest with
  | EmptyString => True
  | String c0 _ => Spec.all_chars (Spec.is_not c0) (p +:+ "(") = true
  end ->
  String.prefix (p +:+ "(") (a +:+ rest) = false.
Proof.
  revert a. induction p as [| x p IH]; intros a Ha Hrest.
  - rewrite append_empty_l. destruct a as [| c a].
    + rewrite append_empty_l. destruct rest as [| c0 rest']; [reflexivity |].
      rewrite append_empty_l in Hrest. cbn [Spec.all_chars] in Hrest.
      rewrite andb_true_r in Hrest. unfold Spec.is_not in Hrest.
      apply negb_true_iff in Hrest. rewrite prefix_cons. now rewrite Hrest.
    + cbn [Spec.all_chars] in Ha. apply andb_prop in Ha as [Hc _].
      unfold Spec.is_not in Hc. apply negb_true_iff in Hc.
      rewrite append_cons, prefix_cons, Ascii.eqb_sym, Hc. reflexivity.
  - rewrite append_cons. destruct a as [| c a].
    + rewrite append_empty_l. destruct rest as [| c0 rest']; [reflexivity |].
      rewrite append_cons in Hrest. cbn [Spec.all_chars] in Hrest.
      apply andb_prop in Hrest as [Hx _]. unfold Spec.is_not in Hx.
      apply negb_true_iff in Hx. rewrite prefix_cons. now rewrite Hx.
    + rewrite append_cons, prefix_cons.
      rewrite IH; [apply andb_false_r | now apply all_chars_tail in Ha |].
      destruct rest as [| c0 rest']; [exact I |].
      rewrite append_cons in Hrest. now apply all_chars_tail in Hrest.
Qed.

Lemma misses_before_line (a rest : string) :
  Spec.all_chars (Spec.is_not "(") a = true ->
  misses requireReg a (NL +:+ rest).
Proof.
  induction a as [| c a IH]; intros Ha; [exact I |]. cbn [misses].
  split; [| apply IH; now apply all_chars_tail in Ha].
  intros prev. apply requireReg_needs_prefix.
  change "require(" with ("require" +:+ "("). now apply prefix_blocked.
Qed.

Lemma no_require_lite : no_require (NL +:+ requireMethod_lite) = true.
Proof. vm_compute. reflexivity. Qed.

Lemma no_require_rich : no_require (NL +:+ requireMethod_rich) = true.
Proof. vm_compute. reflexivity. Qed.

Lemma quiet_requireMethod (H : host) (E : env) :
  Spec.quiet requireReg (NL +:+ requireMethod H E).
Proof.
  apply no_require_quiet. unfold requireMethod.
  destruct (env_is (DEVICE_LEVEL E) (LITE H)); [apply no_require_lite | apply no_require_rich].
Qed.

Lemma quiet_tail (b : string) (H : host) (E : env) :
  Spec.all_chars (Spec.is_not "(") b = true ->
  Spec.quiet requireReg (b +:+ NL +:+ requireMethod H E).
Proof.
  intros Hb. apply quiet_app; [now apply misses_before_line | apply quiet_requireMethod].
Qed.

End RequireFacts.

(** X28. A script that holds no opening parenthesis holds no call of
    [require]: [parseRequireModule] returns it followed by a line feed and
    the definition of [requireModule] for the device level, and changes
    nothing in it. *)
Theorem X28_script_without_calls (H : host) (E : env) (source : string) :
  Spec.all_chars (Spec.is_not "(") source = true ->
  Requires.parseRequireModule H E source = source +:+ NL +:+ Notion.requireMethod H E.
Proof.
  intros Hs. unfold Requires.parseRequireModule. fold (Notion.requireMethod H E).
  pose proof (quiet_tail source H E Hs) as Hq.
  unfold Requires.match_all.
  rewrite (match_all_go_quiet Requires.requireReg _ None Hq). cbn [fold_left].
  unfold Json.regex_replace. now apply regex_replace_go_quiet.
Qed.

Lemma X28_script_without_calls_witness :
  Requires.parseRequireModule (Example.posix [] Example.no_reserved) Example.page_env
    "export default { data: {} }"
  = "export default { data: {} }" +:+ NL +:+ Requires.requireMethod_rich.
Proof.
  exact (X28_script_without_calls (Example.posix [] Example.no_reserved) Example.page_env
           "export default { data: {} }" eq_refl).
Defined.

Section CallFacts.
Import Json Requires Notion.

Lemma quote_cases (q : ascii) : is_quote q = true -> q = "034"%char \/ q = "039"%char.
Proof.
  unfold is_quote. intros Hq. apply orb_true_iff in Hq as [Hq | Hq];
    apply Ascii.eqb_eq in Hq; auto.
Qed.

Lemma drop_add (a s : string) (k : nat) : drop (String.length a + k) (a +:+ s) = drop k s.
Proof.
  induction a as [| c a IH]; [now rewrite append_empty_l |].
  rewrite append_cons. cbn [String.length Nat.add drop]. exact IH.
Qed.

(** The opening parenthesis of [require(] is its eighth character. *)
Lemma prefix_needs_paren (s X : string) :
  Spec.all_chars (Spec.is_not "(") s = true -> 8 <= String.length s ->
  String.prefix "require(" (s +:+ X) = false.
Proof.
  intros Hs Hlen.
  destruct s as [| c1 [| c2 [| c3 [| c4 [| c5 [| c6 [| c7 [| c8 s]]]]]]]];
    cbn [String.length] in Hlen; try lia.
  cbn [Spec.all_chars] in Hs.
  do 7 (apply andb_prop in Hs as [_ Hs]). apply andb_prop in Hs as [H8 _].
  unfold Spec.is_not in H8. apply negb_true_iff in H8. rewrite Ascii.eqb_sym in H8.
  rewrite !append_cons, !prefix_cons, H8. cbn [andb]. now rewrite !andb_false_r.
Qed.

Lemma prefix_before_word (s X : string) :
  Spec.all_chars (Spec.is_not "(") s = true -> s <> "" ->
  String.prefix "require(" (s +:+ "require" +:+ X) = false.
Proof.
  intros Hs Hne. rewrite <- append_assoc. apply prefix_needs_paren.
  - now rewrite all_chars_app, Hs.
  - rewrite string_length_app. cbn [String.length]. destruct s; [congruence | cbn; lia].
Qed.

Lemma misses_before_word (a X : string) :
  Spec.all_chars (Spec.is_not "(") a = true ->
  misses requireReg a ("require" +:+ X).
Proof.
  induction a as [| c a IH]; intros Ha; [exact I |]. cbn [misses].
  split; [| apply IH; now apply all_chars_tail in Ha].
  intros prev. apply requireReg_needs_prefix.
  rewrite <- append_assoc. apply prefix_needs_paren.
  - now rewrite all_chars_app, Ha.
  - rewrite string_length_app. cbn [String.length]. lia.
Qed.

Lemma quote_not_paren (q : ascii) : is_quote q = true -> not_paren q = true.
Proof. intros Hq. destruct (quote_cases q Hq) as [-> | ->]; reflexivity. Qed.

Lemma not_paren_is_not (c : ascii) : not_paren c = true -> Spec.is_not "(" c = true.
Proof.
  unfold not_paren, Spec.is_not. intros Hc. apply negb_true_iff, orb_false_iff in Hc as [Hc _].
  now rewrite Hc.
Qed.

Lemma call_app (q : ascii) (m rest : string) :
  call q m +:+ rest = "require" +:+ String "(" (String q (m +:+ String q (String ")" rest))).
Proof.
  unfold call. rewrite append_assoc.
  change ("require(" +:+ String q (m +:+ String q ")") +:+ rest)
    with ("require" +:+ String "(" (String q (m +:+ String q ")") +:+ rest)).
  f_equal. f_equal. rewrite append_cons. f_equal. now rewrite append_assoc.
Qed.

(** The pattern at a call. *)
Lemma requireReg_hit (q : ascii) (m rest : string) (prev : option ascii) :
  is_quote q = true -> m <> "" -> Spec.all_chars not_paren m = true ->
  requireReg prev (call q m +:+ rest) = Some (String.length (call q m), m).
Proof.
  intros Hq Hm Hall.
  assert (Hshape : call q m +:+ rest
                   = "require(" +:+ String q (m +:+ String q (String ")" rest))).
  { unfold call. rewrite append_assoc. f_equal. rewrite append_cons. f_equal.
    now rewrite append_assoc. }
  assert (Hlen : String.length (call q m) = 8 + 1 + (String.length m + 1) + 1).
  { unfold call. rewrite string_length_app. cbn [String.length].
    rewrite string_length_app. cbn [String.length]. lia. }
  set (s2 := m +:+ String q (String ")" rest)).
  assert (Hrun : span not_paren s2 = String.length m + 1).
  { unfold s2. rewrite (span_all not_paren m _ Hall). cbn [span].
    now rewrite (quote_not_paren q Hq). }
  assert (Hat : drop (String.length m) s2 = String q (String ")" rest))
    by apply drop_length_app.
  assert (Hclose : drop (String.length m + 1) s2 = String ")" rest).
  { unfold s2. rewrite drop_add. reflexivity. }
  assert (Htake : take (String.length m) s2 = m) by apply take_length_app.
  rewrite Hshape, Hlen. fold s2. unfold requireReg. rewrite prefix_app_self.
  change (drop 8 ("require(" +:+ String q s2)) with (String q s2).
  cbv beta iota zeta. rewrite Hrun, Hq. unfold quote_at.
  replace (String.length m + 1 - 1) with (String.length m) by lia.
  rewrite Hat, Hq, Hclose, Htake.
  replace (2 <=? String.length m + 1)%nat with true.
  2:{ symmetry. apply Nat.leb_le. destruct m; [congruence | cbn; lia]. }
  rewrite prefix_cons, prefix_empty. reflexivity.
Qed.

End CallFacts.

Section RewriteFacts.
Import Json Requires Notion.
Variable H : host.
Variable E : env.

(** The calls of a script that holds one call, between texts without an
    opening parenthesis. *)
Lemma match_all_one_call (a b : string) (q : ascii) (m : string) :
  is_quote q = true -> m <> "" -> Spec.all_chars not_paren m = true ->
  Spec.all_chars (Spec.is_not "(") a = true ->
  Spec.all_chars (Spec.is_not "(") b = true ->
  match_all requireReg (a +:+ call q m +:+ b +:+ NL +:+ requireMethod H E) = [call q m].
Proof.
  intros Hq Hm Hall Ha Hb. unfold match_all.
  rewrite (match_all_go_misses requireReg requireReg_prev a).
  2:{ rewrite call_app. now apply misses_before_word. }
  pose proof (requireReg_hit q m (b +:+ NL +:+ requireMethod H E) None Hq Hm Hall) as Hhit.
  assert (Hcall : exists tail, call q m = String "r" tail) by (eexists; reflexivity).
  destruct Hcall as [tail Htail]. rewrite Htail in *. rewrite append_cons in *.
  cbn [match_all_go]. rewrite Hhit. cbn [String.length Nat.sub take].
  rewrite Nat.sub_0_r, take_length_app. f_equal.
  apply match_all_go_skip. now apply quiet_tail.
Qed.

Lemma prefix_app_false (p t s : string) :
  String.prefix p s = false -> String.prefix (p +:+ t) s = false.
Proof.
  revert s. induction p as [| x p IH]; intros s Hp.
  - now rewrite prefix_empty in Hp.
  - rewrite append_cons. destruct s as [| c s]; [reflexivity |].
    rewrite prefix_cons in *. destruct (Ascii.eqb x c); [cbn [andb] in *; now apply IH |].
    reflexivity.
Qed.

Lemma prefix_app_true (p s t : string) :
  String.prefix p s = true -> String.prefix p (s +:+ t) = true.
Proof.
  revert s. induction p as [| x p IH]; intros s Hp; [apply prefix_empty |].
  destruct s as [| c s]; [discriminate Hp |].
  rewrite append_cons, prefix_cons in *. apply andb_prop in Hp as [-> Hp].
  cbn [andb]. now apply IH.
Qed.

Lemma index_skip_char (x c : ascii) (p s : string) :
  Ascii.eqb x c = false ->
  String.index 0 (String x p) (String c s)
  = option_map S (String.index 0 (String x p) s).
Proof.
  intros Hx. cbn [String.index]. rewrite prefix_cons, Hx. cbn [andb].
  now destruct (String.index 0 (String x p) s).
Qed.

Lemma index_here (p s : string) (c : ascii) :
  String.prefix p (String c s) = true -> String.index 0 p (String c s) = Some 0.
Proof. intros Hp. cbn [String.index]. now rewrite Hp. Qed.

Lemma index_without_head (x : ascii) (p s : string) :
  Spec.all_chars (Spec.is_not x) s = true -> String.index 0 (String x p) s = None.
Proof.
  induction s as [| c s IH]; [reflexivity |]. cbn [Spec.all_chars].
  intros Hs. apply andb_prop in Hs as [Hc Hs]. unfold Spec.is_not in Hc.
  apply negb_true_iff in Hc. rewrite Ascii.eqb_sym in Hc.
  rewrite (index_skip_char x c p s Hc), IH by exact Hs. reflexivity.
Qed.

(** Where a call stands in a script that holds no opening parenthesis
    before it. *)
Lemma index_of_call (a rest : string) (q : ascii) (m : string) :
  Spec.all_chars (Spec.is_not "(") a = true ->
  indexOf (a +:+ call q m +:+ rest) (call q m) = Some (String.length a).
Proof.
  unfold indexOf. induction a as [| c a IH]; intros Ha.
  - rewrite append_empty_l. unfold call at 2. rewrite append_assoc.
    change ("require(" +:+ String q (m +:+ String q ")") +:+ rest)
      with (String "r" ("equire(" +:+ String q (m +:+ String q ")") +:+ rest)).
    apply index_here.
    change (String "r" ("equire(" +:+ String q (m +:+ String q ")") +:+ rest))
      with ("require(" +:+ String q (m +:+ String q ")") +:+ rest).
    rewrite <- append_assoc. apply prefix_app_self.
  - rewrite append_cons. cbn [String.index String.length].
    replace (String.prefix (call q m) (String c (a +:+ call q m +:+ rest))) with false.
    + rewrite IH by now apply all_chars_tail in Ha. reflexivity.
    + symmetry. unfold call at 1. apply prefix_app_false.
      rewrite <- append_cons, call_app.
      apply prefix_before_word; [exact Ha | discriminate].
Qed.

Lemma substitute_plain (matched before after r : string) :
  Spec.all_chars (Spec.is_not "$") r = true -> substitute matched before after r = r.
Proof.
  induction r as [| c r IH]; [reflexivity |]. cbn [Spec.all_chars].
  intros Hr. apply andb_prop in Hr as [Hc Hr]. unfold Spec.is_not in Hc.
  apply negb_true_iff in Hc. cbn [substitute]. destruct r as [| d r']; [reflexivity |].
  rewrite Hc. now rewrite IH.
Qed.

Lemma module_call_rewrite (q : ascii) (m : string) :
  replace_first "require" "requireModule" (call q m) = module_call q m.
Proof. reflexivity. Qed.

Lemma found_in_call (q : ascii) (m p : string) (x : ascii) :
  is_quote q = true -> x = "@"%char ->
  String.prefix (String x p) m = true ->
  found_after_start (call q m) (String x p) = true.
Proof.
  intros Hq -> Hp. unfold found_after_start, indexOf, call.
  change ("require(" +:+ String q (m +:+ String q ")"))
    with (String "r" (String "e" (String "q" (String "u" (String "i" (String "r"
           (String "e" (String "(" (String q (m +:+ String q ")")))))))))).
  rewrite !index_skip_char by (reflexivity || (destruct (quote_cases q Hq) as [-> | ->]; reflexivity)).
  destruct m as [| c m]; [discriminate Hp |]. rewrite append_cons.
  rewrite index_here; [reflexivity |].
  rewrite <- append_cons. now apply prefix_app_true.
Qed.

Lemma quote_is_not (q x : ascii) :
  is_quote q = true -> is_quote x = false -> Spec.is_not x q = true.
Proof.
  intros Hq Hx. unfold Spec.is_not. destruct (Ascii.eqb q x) eqn:Heq; [| reflexivity].
  apply Ascii.eqb_eq in Heq. subst x. congruence.
Qed.

Lemma module_call_app (q : ascii) (m rest : string) :
  module_call q m +:+ rest
  = "require" +:+ "Module(" +:+ String q (m +:+ String q (String ")" rest)).
Proof.
  unfold module_call. rewrite append_assoc.
  change ("requireModule(" +:+ String q (m +:+ String q ")") +:+ rest)
    with ("require" +:+ "Module(" +:+ (String q (m +:+ String q ")") +:+ rest)).
  f_equal. f_equal. rewrite append_cons. f_equal. now rewrite append_assoc.
Qed.

Lemma quoted_app (q : ascii) (m b rest : string) :
  String q (m +:+ String q (String ")" (b +:+ rest)))
  = String q (m +:+ String q (String ")" b)) +:+ rest.
Proof. now rewrite append_cons, append_assoc, !append_cons. Qed.

Lemma quoted_clean (q : ascii) (m b : string) :
  is_quote q = true -> Spec.all_chars not_paren m = true ->
  Spec.all_chars (Spec.is_not "(") b = true ->
  Spec.all_chars (Spec.is_not "(") (String q (m +:+ String q (String ")" b))) = true.
Proof.
  intros Hq Hall Hb. cbn [Spec.all_chars].
  rewrite (not_paren_is_not q (quote_not_paren q Hq)). cbn [andb].
  rewrite all_chars_app.
  rewrite (all_chars_weaken not_paren (Spec.is_not "(") m not_paren_is_not Hall).
  cbn [andb Spec.all_chars].
  rewrite (not_paren_is_not q (quote_not_paren q Hq)). cbn [andb]. now rewrite Hb.
Qed.

(** The script after the call has become a call of [requireModule] holds no
    call of [require]. *)
Lemma quiet_after_rewrite (a b : string) (q : ascii) (m : string) :
  is_quote q = true -> Spec.all_chars not_paren m = true ->
  Spec.all_chars (Spec.is_not "(") a = true ->
  Spec.all_chars (Spec.is_not "(") b = true ->
  Spec.quiet requireReg (a +:+ module_call q m +:+ b +:+ NL +:+ requireMethod H E).
Proof.
  intros Hq Hall Ha Hb. rewrite module_call_app.
  apply quiet_app; [now apply misses_before_word |].
  rewrite quoted_app.
  change ("require" +:+ "Module(" +:+ String q (m +:+ String q (String ")" b)) +:+ NL
                                        +:+ requireMethod H E)
    with ("requireModule(" +:+ (String q (m +:+ String q (String ")" b)) +:+ NL
                                          +:+ requireMethod H E)).
  apply quiet_app.
  - repeat split.
  - apply quiet_tail. now apply quoted_clean.
Qed.

End RewriteFacts.

Section LibraryFacts.
Import Json Requires Notion.

Lemma word_no_line_terminator (y : string) :
  Spec.all_chars is_word y = true -> no_line_terminator y = true.
Proof.
  induction y as [| c y IH]; [reflexivity |]. cbn [Spec.all_chars no_line_terminator].
  intros Hy. apply andb_prop in Hy as [Hc Hy].
  pose proof (word_not_line_terminator c Hc) as Hnl. unfold not_line_terminator in Hnl.
  now rewrite Hnl, IH.
Qed.

Lemma libReg_library (y : string) :
  y <> "" -> Spec.all_chars is_word y = true ->
  libReg ("lib" +:+ y +:+ ".so") = Some y.
Proof.
  intros Hy Hall. unfold libReg.
  assert (Hlen : String.length ("lib" +:+ y +:+ ".so") = 3 + String.length y + 3).
  { rewrite !string_length_app. cbn [String.length]. lia. }
  rewrite Hlen, prefix_app_self.
  rewrite <- (append_assoc "lib" y ".so"), (endsWith_app _ ".so" ".so") by reflexivity.
  rewrite (append_assoc "lib" y ".so").
  change (drop 3 ("lib" +:+ y +:+ ".so")) with (y +:+ ".so").
  replace (3 + String.length y + 3 - 6) with (String.length y) by lia.
  rewrite take_length_app, (word_no_line_terminator y Hall).
  replace (7 <=? 3 + String.length y + 3)%nat with true.
  2:{ symmetry. apply Nat.leb_le. destruct y; [congruence | cbn; lia]. }
  reflexivity.
Qed.

Lemma word_not_paren (c : ascii) : is_word c = true -> not_paren c = true.
Proof.
  intros Hc. unfold not_paren. now rewrite !(word_differs c _ Hc) by reflexivity.
Qed.

Lemma library_not_paren (y : string) :
  Spec.all_chars is_word y = true -> Spec.all_chars not_paren ("lib" +:+ y +:+ ".so") = true.
Proof.
  intros Hy. rewrite !all_chars_app.
  now rewrite (all_chars_weaken is_word not_paren y word_not_paren Hy).
Qed.

Lemma library_no_at (q : ascii) (y : string) :
  is_quote q = true -> Spec.all_chars is_word y = true ->
  Spec.all_chars (Spec.is_not "@") (call q ("lib" +:+ y +:+ ".so")) = true.
Proof.
  intros Hq Hy. unfold call. rewrite all_chars_app. cbn [Spec.all_chars].
  rewrite (quote_is_not q "@" Hq eq_refl), !all_chars_app.
  rewrite (all_chars_weaken is_word (Spec.is_not "@") y) by
    (exact Hy || (intros ch Hch; now apply word_is_not)).
  cbn [Spec.all_chars]. now rewrite (quote_is_not q "@" Hq eq_refl).
Qed.

End LibraryFacts.

(** X29. A call of [require] on a module whose name starts with [@system]
    or [@ohos] becomes a call of [requireModule] on the same name with the
    same quotes: for a script that holds no opening parenthesis before the
    call and none after it, and a name that holds neither a parenthesis nor
    a [$], [parseRequireModule] returns the script with the call renamed,
    followed by the definition of [requireModule]. *)
Theorem X29_system_call_renamed (H : host) (E : env) (a b : string) (q : ascii) (m : string) :
  Requires.is_quote q = true ->
  Spec.all_chars Requires.not_paren m = true ->
  Spec.all_chars (Spec.is_not "$") m = true ->
  String.prefix "@system" m = true \/ String.prefix "@ohos" m = true ->
  Spec.all_chars (Spec.is_not "(") a = true ->
  Spec.all_chars (Spec.is_not "(") b = true ->
  Requires.parseRequireModule H E (a +:+ Notion.call q m +:+ b)
  = a +:+ Notion.module_call q m +:+ b +:+ NL +:+ Notion.requireMethod H E.
Proof.
  intros Hq Hall Hd Hsys Ha Hb.
  assert (Hm : m <> "") by (destruct Hsys as [Hp | Hp]; destruct m; easy).
  unfold Requires.parseRequireModule. fold (Notion.requireMethod H E).
  rewrite !append_assoc.
  rewrite (match_all_one_call H E a b q m Hq Hm Hall Ha Hb). cbn [fold_left].
  unfold Requires.rewrite_statement.
  replace (Requires.found_after_start (Notion.call q m) "@system"
           || Requires.found_after_start (Notion.call q m) "@ohos") with true.
  2:{ symmetry. destruct Hsys as [Hp | Hp].
      - now rewrite (found_in_call q m "system" "@" Hq eq_refl Hp).
      - rewrite (found_in_call q m "ohos" "@" Hq eq_refl Hp). apply orb_true_r. }
  unfold Requires.replace_text. rewrite (index_of_call a _ q m Ha).
  cbv zeta. rewrite module_call_rewrite, take_length_app, drop_add, drop_length_app.
  rewrite substitute_plain.
  2:{ unfold Notion.module_call. rewrite all_chars_app. cbn [Spec.all_chars].
      rewrite (quote_is_not q "$" Hq eq_refl), all_chars_app, Hd. cbn [Spec.all_chars].
      now rewrite (quote_is_not q "$" Hq eq_refl). }
  unfold Json.regex_replace. apply regex_replace_go_quiet.
  now apply quiet_after_rewrite.
Qed.

Lemma X29_system_call_renamed_witness :
  Requires.parseRequireModule (Example.posix [] Example.no_reserved) Example.page_env
    ("const router = " +:+ Notion.call "'" "@system.router" +:+ ";")
  = "const router = " +:+ Notion.module_call "'" "@system.router" +:+ ";" +:+ NL
    +:+ Requires.requireMethod_rich.
Proof.
  apply (X29_system_call_renamed (Example.posix [] Example.no_reserved) Example.page_env
           "const router = " ";" "'" "@system.router"); try reflexivity.
  left. reflexivity.
Defined.

(** X30. A call of [require] on a native library [lib<name>.so] becomes
    [requireNapi("<name>", true)]: for a script that holds no opening
    parenthesis before the call and none after it, and a name of word
    characters, [parseRequireModule] returns the script with the call
    replaced, followed by the definition of [requireModule]. *)
Theorem X30_library_call_replaced (H : host) (E : env) (a b : string) (q : ascii)
    (name : string) :
  Requires.is_quote q = true ->
  name <> "" -> Spec.all_chars is_word name = true ->
  Spec.all_chars (Spec.is_not "(") a = true ->
  Spec.all_chars (Spec.is_not "(") b = true ->
  Requires.parseRequireModule H E (a +:+ Notion.call q ("lib" +:+ name +:+ ".so") +:+ b)
  = a +:+ Notion.napi_call name +:+ b +:+ NL +:+ Notion.requireMethod H E.
Proof.
  intros Hq Hne Hy Ha Hb. set (m := "lib" +:+ name +:+ ".so").
  assert (Hm : m <> "") by discriminate.
  pose proof (library_not_paren name Hy) as Hall. fold m in Hall.
  unfold Requires.parseRequireModule. fold (Notion.requireMethod H E).
  rewrite !append_assoc.
  rewrite (match_all_one_call H E a b q m Hq Hm Hall Ha Hb). cbn [fold_left].
  unfold Requires.rewrite_statement, Requires.found_after_start, indexOf.
  rewrite !index_without_head by now apply library_no_at.
  cbn [orb]. unfold Json.regex_replace.
  rewrite (regex_replace_go_misses Requires.requireReg _ requireReg_prev a).
  2:{ rewrite call_app. now apply misses_before_word. }
  f_equal.
  pose proof (requireReg_hit q m (b +:+ NL +:+ Notion.requireMethod H E) None Hq Hm Hall)
    as Hhit.
  pose proof (regex_replace_head Requires.requireReg Requires.rewrite_lib "r"
                ("equire(" +:+ String q (m +:+ String q ")"))
                (b +:+ NL +:+ Notion.requireMethod H E) m Hhit
                (quiet_tail b H E Hb)) as Hrun.
  unfold Json.regex_replace in Hrun.
  change (String "r" ("equire(" +:+ String q (m +:+ String q ")"))) with (Notion.call q m) in Hrun.
  rewrite Hrun. unfold Requires.rewrite_lib, m.
  now rewrite (libReg_library name Hne Hy).
Qed.

Lemma X30_library_call_replaced_witness :
  Requires.parseRequireModule (Example.posix [] Example.no_reserved) Example.page_env
    ("const entry = " +:+ Notion.call "034" ("lib" +:+ "entry" +:+ ".so") +:+ ";")
  = "const entry = " +:+ Notion.napi_call "entry" +:+ ";" +:+ NL
    +:+ Requires.requireMethod_rich.
Proof.
  apply (X30_library_call_replaced (Example.posix [] Example.no_reserved) Example.page_env
           "const entry = " ";" "034" "entry"); try reflexivity.
  discriminate.
Defined.
